(** * RecipeMD for goldmark: a shallow embedding of the parsers and renderers

    The repository holds two goldmark extensions that turn a CommonMark block
    tree into a recipe tree:

    - [pkg/extension] ([Extension] below): [recipeParser.Transform] with
      [splitTags], [parseYields], [parseAmount], [parseIngredient],
      [addIngredientGroup], and the JSON renderer [buildRecipeData];
    - [pkg/goldmark-recipemd] ([Parser], [Renderer], [HTMLRenderer] and
      [Recipemd] below): [recipeTransformer.Transform], the JSON, Markdown
      and HTML node renderers, and [ExtractRecipe] and [BuildAST] of
      [pkg/recipe.go].

    Go strings are modelled by their sequence of runes (valid UTF-8 is
    assumed), goldmark's [ast.Node] by a tree of kinds with children, and the
    group nodes that the extension parser mutates through pointers by cells
    of an explicit heap.  The embedding comes first; [Literal] and
    [CommaSplit] word the amount literals and the comma rule of the
    specification, [Writable] the recipes that survive being written and
    read again, [Examples] holds the documents of the statements, and the
    properties follow, one module of facts for each part of the code. *)

From Stdlib Require Import ZArith List Bool Lia String Ascii QArith Permutation.
Import ListNotations.
Open Scope Z_scope.

(* ================================================================== *)
(** ** Go strings and the library functions the parsers call *)

Module Go.

Definition rune := Z.

(** A Go [string], read rune by rune as [[]rune(s)] does. *)
Definition gostring := list rune.

(** The runes of an ASCII literal. *)
Definition str (s : string) : gostring :=
  map (fun a => Z.of_nat (nat_of_ascii a)) (list_ascii_of_string s).

Definition in_range (lo hi r : rune) : bool := (lo <=? r) && (r <=? hi).

Definition in_table (t : list (rune * rune)) (r : rune) : bool :=
  existsb (fun p => in_range (fst p) (snd p) r) t.

Definition MaxLatin1 : rune := 255.

(** [unicode.White_Space] above Latin-1. *)
Definition White_Space : list (rune * rune) :=
  [ (0x1680, 0x1680); (0x2000, 0x200a); (0x2028, 0x2029);
    (0x202f, 0x202f); (0x205f, 0x205f); (0x3000, 0x3000) ].

(** [unicode.IsSpace]: Latin-1 is special-cased, the rest is the table. *)
Definition IsSpace (r : rune) : bool :=
  if (0 <=? r) && (r <=? MaxLatin1)
  then (r =? 9) || (r =? 10) || (r =? 11) || (r =? 12) || (r =? 13)
       || (r =? 32) || (r =? 0x85) || (r =? 0xA0)
  else in_table White_Space r.

(** [unicode.Digit] (category Nd) above Latin-1. *)
Definition Digit : list (rune * rune) :=
  [ (0x0660, 0x0669); (0x06f0, 0x06f9); (0x07c0, 0x07c9); (0x0966, 0x096f);
    (0x09e6, 0x09ef); (0x0a66, 0x0a6f); (0x0ae6, 0x0aef); (0x0b66, 0x0b6f);
    (0x0be6, 0x0bef); (0x0c66, 0x0c6f); (0x0ce6, 0x0cef); (0x0d66, 0x0d6f);
    (0x0de6, 0x0def); (0x0e50, 0x0e59); (0x0ed0, 0x0ed9); (0x0f20, 0x0f29);
    (0x1040, 0x1049); (0x1090, 0x1099); (0x17e0, 0x17e9); (0x1810, 0x1819);
    (0x1946, 0x194f); (0x19d0, 0x19d9); (0x1a80, 0x1a89); (0x1a90, 0x1a99);
    (0x1b50, 0x1b59); (0x1bb0, 0x1bb9); (0x1c40, 0x1c49); (0x1c50, 0x1c59);
    (0xa620, 0xa629); (0xa8d0, 0xa8d9); (0xa900, 0xa909); (0xa9d0, 0xa9d9);
    (0xa9f0, 0xa9f9); (0xaa50, 0xaa59); (0xabf0, 0xabf9); (0xff10, 0xff19);
    (0x104a0, 0x104a9); (0x10d30, 0x10d39); (0x11066, 0x1106f);
    (0x110f0, 0x110f9); (0x11136, 0x1113f); (0x111d0, 0x111d9);
    (0x112f0, 0x112f9); (0x11450, 0x11459); (0x114d0, 0x114d9);
    (0x11650, 0x11659); (0x116c0, 0x116c9); (0x11730, 0x11739);
    (0x118e0, 0x118e9); (0x11950, 0x11959); (0x11c50, 0x11c59);
    (0x11d50, 0x11d59); (0x11da0, 0x11da9); (0x11f50, 0x11f59);
    (0x16a60, 0x16a69); (0x16ac0, 0x16ac9); (0x16b50, 0x16b59);
    (0x1d7ce, 0x1d7ff); (0x1e140, 0x1e149); (0x1e2f0, 0x1e2f9);
    (0x1e4f0, 0x1e4f9); (0x1e950, 0x1e959); (0x1fbf0, 0x1fbf9) ].

(** ASCII ['0'..'9']. *)
Definition ascii_digit (r : rune) : bool := in_range 48 57 r.

(** [unicode.IsDigit]: ASCII digits within Latin-1, category Nd elsewhere. *)
Definition IsDigit (r : rune) : bool :=
  if r <=? MaxLatin1 then ascii_digit r else in_table Digit r.

Fixpoint drop_while {A} (p : A -> bool) (l : list A) : list A :=
  match l with
  | [] => []
  | x :: t => if p x then drop_while p t else l
  end.

Fixpoint take_while {A} (p : A -> bool) (l : list A) : list A :=
  match l with
  | [] => []
  | x :: t => if p x then x :: take_while p t else []
  end.

(** [strings.TrimSpace]: leading and trailing white space removed. *)
Definition TrimSpace (s : gostring) : gostring :=
  rev (drop_while IsSpace (rev (drop_while IsSpace s))).

Definition is_empty (s : gostring) : bool :=
  match s with [] => true | _ => false end.

(** [strings.Join]. *)
Fixpoint Join (parts : list gostring) (sep : gostring) : gostring :=
  match parts with
  | [] => []
  | [p] => p
  | p :: rest => p ++ sep ++ Join rest sep
  end.

(** [strings.Split(s, sep)] for a one-rune separator: the runs between the
    separators, empty runs included; always at least one run. *)
Fixpoint Split_from (cur : gostring) (s : gostring) (sep : rune)
  : list gostring :=
  match s with
  | [] => [cur]
  | r :: rest =>
      if r =? sep then cur :: Split_from [] rest sep
      else Split_from (cur ++ [r]) rest sep
  end.

Definition Split (s : gostring) (sep : rune) : list gostring :=
  Split_from [] s sep.

(** [strings.SplitN(s, sep, 2)] for a one-rune separator: cut at the first
    separator, if any. *)
Fixpoint SplitN2_from (cur : gostring) (s : gostring) (sep : rune)
  : list gostring :=
  match s with
  | [] => [cur]
  | r :: rest =>
      if r =? sep then [cur; rest]
      else SplitN2_from (cur ++ [r]) rest sep
  end.

Definition SplitN2 (s : gostring) (sep : rune) : list gostring :=
  SplitN2_from [] s sep.

(** The runes of [s] that are not white space, in order. *)
Definition visible (s : gostring) : gostring :=
  filter (fun r => negb (IsSpace r)) s.

(** [strings.Split(s, sep)] for a separator of the two runes [c1 c2]: the
    text is scanned from the left and the matches do not overlap. *)
Fixpoint Split2_from (cur : gostring) (s : gostring) (c1 c2 : rune)
  : list gostring :=
  match s with
  | [] => [cur]
  | x :: tl =>
      match tl with
      | y :: rest =>
          if (x =? c1) && (y =? c2) then cur :: Split2_from [] rest c1 c2
          else Split2_from (cur ++ [x]) tl c1 c2
      | [] => [cur ++ [x]]
      end
  end.

Definition Split2 (s : gostring) (c1 c2 : rune) : list gostring :=
  Split2_from [] s c1 c2.

End Go.
Import Go.

Definition comma : rune := 44.
Definition space : rune := 32.

(* ================================================================== *)
(** ** goldmark's node tree *)

(** The node kinds the two parsers switch on, with the attributes they read.
    A [Text] carries the bytes of its source segment; every kind the code
    does not name is [KOther]. *)
Inductive Kind :=
| KHeading (level : Z)
| KParagraph
| KTextBlock
| KList
| KListItem
| KThematicBreak
| KCodeBlock (lines : list gostring)
| KFencedCodeBlock (lines : list gostring)
| KText (value : gostring)
| KString (value : gostring)
| KEmphasis (level : Z)
| KLink (destination : gostring)
| KImage (destination : gostring)
| KRawHTML (segments : list gostring)
| KCodeSpan
| KOther.

#[local] Set Warnings "-register-all".
Inductive Node := mkNode (kind : Kind) (children : list Node).

Definition node_kind (n : Node) : Kind := let (k, _) := n in k.
Definition node_children (n : Node) : list Node := let (_, cs) := n in cs.

(** Constructors named as in [github.com/yuin/goldmark/ast]. *)
Module gast.
Definition Heading (l : Z) (cs : list Node) := mkNode (KHeading l) cs.
Definition Paragraph (cs : list Node) := mkNode KParagraph cs.
Definition TextBlock (cs : list Node) := mkNode KTextBlock cs.
Definition List (items : list Node) := mkNode KList items.
Definition ListItem (cs : list Node) := mkNode KListItem cs.
Definition ThematicBreak := mkNode KThematicBreak [].
Definition Text (s : gostring) := mkNode (KText s) [].
Definition Emphasis (l : Z) (cs : list Node) := mkNode (KEmphasis l) cs.
Definition Link (dest : gostring) (cs : list Node) := mkNode (KLink dest) cs.
Definition CodeSpan (cs : list Node) := mkNode KCodeSpan cs.
Definition RawHTML (segs : list gostring) := mkNode (KRawHTML segs) [].
End gast.

Definition isThematicBreak (n : Node) : bool :=
  match node_kind n with KThematicBreak => true | _ => false end.

Definition isLevel1Heading (n : Node) : bool :=
  match node_kind n with KHeading l => l =? 1 | _ => false end.

(* ================================================================== *)
(** ** pkg/extension: the extension parser *)

Module Extension.

(** [extractText]: the text segments below [node], in document order; the
    node's own kind is not looked at. *)
Fixpoint extractText (node : Node) : gostring :=
  match node with
  | mkNode _ cs =>
      flat_map (fun child =>
                  match child with
                  | mkNode (KText v) _ => v
                  | _ => extractText child
                  end) cs
  end.

(** [renderNode]. *)
Fixpoint renderNode (node : Node) : gostring :=
  match node with
  | mkNode k cs =>
      match k with
      | KHeading _ | KParagraph => extractText node
      | KText v => v
      | KCodeBlock lines | KFencedCodeBlock lines => List.concat lines
      | KImage dest =>
          str "![" ++ flat_map renderNode cs ++ str "](" ++ dest ++ str ")"
      | KRawHTML segs => List.concat segs
      | _ => flat_map renderNode cs
      end
  end.

(** [isFullyItalic]: the paragraph's only child is an emphasis of level 1. *)
Definition isFullyItalic (para : Node) : bool :=
  match node_children para with
  | [mkNode (KEmphasis l) _] => l =? 1
  | _ => false
  end.

(** [isFullyBold]: the paragraph's only child is an emphasis of level 2. *)
Definition isFullyBold (para : Node) : bool :=
  match node_children para with
  | [mkNode (KEmphasis l) _] => l =? 2
  | _ => false
  end.

(** What [splitTags] does with the accumulated run at a separator and at the
    end of the text: trim it, keep it when something is left. *)
Definition flush (current : gostring) (tags : list gostring) : list gostring :=
  let tag := TrimSpace current in
  if is_empty tag then tags else tags ++ [tag].

(** The loop of [splitTags] at index [i]: [prev] is [runes[i-1]] when
    [i > 0], [rest] is [runes[i:]]. *)
Fixpoint splitTags_loop (prev : option rune) (rest : list rune)
    (current : gostring) (tags : list gostring) : list gostring :=
  match rest with
  | [] => flush current tags
  | r :: rest' =>
      if r =? comma then
        let before := match prev with Some p => IsDigit p | None => false end in
        let after := match rest' with n :: _ => IsDigit n | [] => false end in
        if before && after
        then splitTags_loop (Some r) rest' (current ++ [r]) tags
        else splitTags_loop (Some r) rest' [] (flush current tags)
      else splitTags_loop (Some r) rest' (current ++ [r]) tags
  end.

Definition splitTags (text : gostring) : list gostring :=
  splitTags_loop None text [] [].

(** The character class of [numberPattern], [[\d.,/\s]]: in Go's regexp
    [\d] is [[0-9]] and [\s] is [[\t\n\f\r ]]. *)
Definition re_space (r : rune) : bool :=
  (r =? 9) || (r =? 10) || (r =? 12) || (r =? 13) || (r =? 32).

Definition numberClass (r : rune) : bool :=
  ascii_digit r || (r =? 46) || (r =? 44) || (r =? 47) || re_space r.

(** [parseAmount]: the anchored pattern [^([\d.,/\s]+)] matches the longest
    non-empty prefix of class characters. *)
Definition parseAmount (text : gostring) : gostring * option gostring :=
  let text := TrimSpace text in
  let m := take_while numberClass text in
  if is_empty m then (text, None)
  else
    let factor := TrimSpace m in
    let remainder := TrimSpace (skipn (List.length m) text) in
    (factor, if is_empty remainder then None else Some remainder).

Record Yield := mkYield { yield_Factor : gostring; yield_Unit : option gostring }.
Record Amount := mkAmount { amount_Factor : gostring; amount_Unit : option gostring }.

(** An [ast.Ingredient] node; its only possible child is an [ast.Amount]. *)
Record Ingredient := mkIngredient
  { Name : gostring; Link : option gostring; amount : option Amount }.

(** [parseYields]. *)
Definition parseYields (text : gostring) : list Yield :=
  map (fun part =>
         let '(factor, unit) := parseAmount (TrimSpace part) in
         mkYield factor unit)
      (splitTags text).

(** State of the name-collecting loop of [parseIngredient]. *)
Record NameAcc := mkNameAcc
  { acc_name : gostring; acc_nameParts : list gostring; acc_link : option gostring }.

Definition collect_step (a : NameAcc) (child : Node) : NameAcc :=
  match node_kind child with
  | KLink dest =>
      let linkText := extractText child in
      if is_empty (acc_name a)
      then mkNameAcc linkText (acc_nameParts a) (Some dest)
      else mkNameAcc (acc_name a) (acc_nameParts a ++ [linkText]) (Some dest)
  | KText v => mkNameAcc (acc_name a) (acc_nameParts a ++ [v]) (acc_link a)
  | _ =>
      let text := extractText child in
      if is_empty text then a
      else mkNameAcc (acc_name a) (acc_nameParts a ++ [text]) (acc_link a)
  end.

(** The inline nodes [parseIngredient] walks: the children of the item's
    first child when that is a paragraph or a text block, else the item's
    own children. *)
Definition item_inlines (item : Node) : list Node :=
  match node_children item with
  | mkNode KParagraph cs :: _ => cs
  | mkNode KTextBlock cs :: _ => cs
  | other => other
  end.

(** A leading emphasis of level 1 is the amount. *)
Definition leading_amount (inl : list Node) : option Amount * list Node :=
  match inl with
  | mkNode (KEmphasis l) cs :: rest =>
      if l =? 1 then
        let '(factor, unit) := parseAmount (extractText (mkNode (KEmphasis l) cs)) in
        (Some (mkAmount factor unit), rest)
      else (None, inl)
  | _ => (None, inl)
  end.

(** The name as it stands when [parseIngredient] tests [name == ""], before
    it is trimmed. *)
Definition collected_name (item : Node) : gostring :=
  let a := fold_left collect_step (snd (leading_amount (item_inlines item)))
                     (mkNameAcc [] [] None) in
  if is_empty (acc_name a) then List.concat (acc_nameParts a) else acc_name a.

(** [parseIngredient]; [None] is the nil result. *)
Definition parseIngredient (item : Node) : option Ingredient :=
  let '(amt, rest) := leading_amount (item_inlines item) in
  let a := fold_left collect_step rest (mkNameAcc [] [] None) in
  let name := if is_empty (acc_name a) then List.concat (acc_nameParts a)
              else acc_name a in
  if is_empty name then None
  else Some (mkIngredient (TrimSpace name) (acc_link a) amt).

(** [parseIngredients]: the list's items that parse to an ingredient. *)
Fixpoint parseIngredients_items (items : list Node) : list Ingredient :=
  match items with
  | [] => []
  | c :: rest =>
      match node_kind c with
      | KListItem =>
          match parseIngredient c with
          | Some ing => ing :: parseIngredients_items rest
          | None => parseIngredients_items rest
          end
      | _ => parseIngredients_items rest
      end
  end.

Definition parseIngredients (lst : Node) : list Ingredient :=
  parseIngredients_items (node_children lst).

(** *** The recipe tree under construction

    [ast.IngredientGroup] nodes are shared: the parser keeps pointers to them
    on [ingredientGroupStack] and in [topLevelGroups], their parents hold
    them as children, and [AppendChild] mutates them in place.  They live in
    a heap, addressed by their position. *)

Definition ptr := nat.

Inductive GroupChild :=
| ChildIngredient (i : Ingredient)
| ChildGroup (p : ptr).

Record IngredientGroup := mkIngredientGroup
  { Title : gostring; Level : Z; group_children : list GroupChild }.

Definition Heap := list IngredientGroup.

Definition deref (h : Heap) (p : ptr) : IngredientGroup :=
  nth p h (mkIngredientGroup [] 0 []).

Fixpoint update (h : Heap) (p : ptr) (f : IngredientGroup -> IngredientGroup)
  : Heap :=
  match h, p with
  | [], _ => []
  | g :: rest, O => f g :: rest
  | g :: rest, S p' => g :: update rest p' f
  end.

(** [parent.AppendChild(parent, child)] for a group [parent]. *)
Definition AppendChild (h : Heap) (parent : ptr) (c : GroupChild) : Heap :=
  update h parent
    (fun g => mkIngredientGroup (Title g) (Level g) (group_children g ++ [c])).

(** [ast.NewIngredientGroup(title, headingLevel)]: a fresh cell. *)
Definition NewIngredientGroup (h : Heap) (title : gostring) (level : Z)
  : Heap * ptr :=
  (h ++ [mkIngredientGroup title level []], List.length h).

(** The local variables of [recipeParser.Transform].  The stack is kept with
    its top (the slice's last element) at the head of the list.  The
    ingredient list node is referenced by [currentIngredientList] alone. *)
Record State := mkState
  { title : gostring;
    descriptionParts : list gostring;
    tagsNode : option (list gostring);
    yieldsNode : option (list Yield);
    firstDividerFound : bool;
    secondDividerFound : bool;
    currentIngredientList : option (list Ingredient);
    ingredientGroupStack : list ptr;
    topLevelGroups : list ptr;
    instructionParts : list gostring;
    heap : Heap }.

Definition init : State :=
  mkState [] [] None None false false None [] [] [] [].

(** The loop of [addIngredientGroup]: returns the heap, the stack and the
    top-level groups. *)
Fixpoint addIngredientGroup_loop (h : Heap) (group : ptr)
    (stack : list ptr) (topLevel : list ptr) : Heap * list ptr * list ptr :=
  match stack with
  | [] => (h, [group], topLevel ++ [group])
  | parent :: below =>
      if Level (deref h group) >? Level (deref h parent)
      then (AppendChild h parent (ChildGroup group), group :: stack, topLevel)
      else addIngredientGroup_loop h group below topLevel
  end.

(** [addIngredientGroup]: it first resets the caller's
    [currentIngredientList] to nil. *)
Definition addIngredientGroup (st : State) (group : ptr) (h : Heap) : State :=
  let '(h', stack', top') :=
    addIngredientGroup_loop h group (ingredientGroupStack st) (topLevelGroups st) in
  mkState (title st) (descriptionParts st) (tagsNode st) (yieldsNode st)
          (firstDividerFound st) (secondDividerFound st)
          None stack' top' (instructionParts st) h'.

Definition add_instruction (st : State) (n : Node) : State :=
  mkState (title st) (descriptionParts st) (tagsNode st) (yieldsNode st)
          (firstDividerFound st) (secondDividerFound st)
          (currentIngredientList st) (ingredientGroupStack st)
          (topLevelGroups st) (instructionParts st ++ [renderNode n]) (heap st).

Definition add_description (st : State) (n : Node) : State :=
  mkState (title st) (descriptionParts st ++ [renderNode n]) (tagsNode st)
          (yieldsNode st) (firstDividerFound st) (secondDividerFound st)
          (currentIngredientList st) (ingredientGroupStack st)
          (topLevelGroups st) (instructionParts st) (heap st).

Definition set_title (st : State) (t : gostring) : State :=
  mkState t (descriptionParts st) (tagsNode st) (yieldsNode st)
          (firstDividerFound st) (secondDividerFound st)
          (currentIngredientList st) (ingredientGroupStack st)
          (topLevelGroups st) (instructionParts st) (heap st).

Definition set_tags (st : State) (tags : list gostring) : State :=
  mkState (title st) (descriptionParts st) (Some tags) (yieldsNode st)
          (firstDividerFound st) (secondDividerFound st)
          (currentIngredientList st) (ingredientGroupStack st)
          (topLevelGroups st) (instructionParts st) (heap st).

Definition set_yields (st : State) (ys : list Yield) : State :=
  mkState (title st) (descriptionParts st) (tagsNode st) (Some ys)
          (firstDividerFound st) (secondDividerFound st)
          (currentIngredientList st) (ingredientGroupStack st)
          (topLevelGroups st) (instructionParts st) (heap st).

Definition set_dividers (st : State) (d1 d2 : bool) : State :=
  mkState (title st) (descriptionParts st) (tagsNode st) (yieldsNode st)
          d1 d2
          (currentIngredientList st) (ingredientGroupStack st)
          (topLevelGroups st) (instructionParts st) (heap st).

(** A parsed list goes to the group on top of the stack, or to the
    ingredient list node when the stack is empty. *)
Definition add_ingredients (st : State) (ings : list Ingredient) : State :=
  match ingredientGroupStack st with
  | currentGroup :: _ =>
      mkState (title st) (descriptionParts st) (tagsNode st) (yieldsNode st)
              (firstDividerFound st) (secondDividerFound st)
              (currentIngredientList st) (ingredientGroupStack st)
              (topLevelGroups st) (instructionParts st)
              (fold_left (fun h ing => AppendChild h currentGroup (ChildIngredient ing))
                         ings (heap st))
  | [] =>
      let cur := match currentIngredientList st with
                 | None => []
                 | Some l => l
                 end in
      mkState (title st) (descriptionParts st) (tagsNode st) (yieldsNode st)
              (firstDividerFound st) (secondDividerFound st)
              (Some (cur ++ ings)) (ingredientGroupStack st)
              (topLevelGroups st) (instructionParts st) (heap st)
  end.

(** One turn of the [for child != nil] loop of [recipeParser.Transform]:
    the type switch on the top-level node. *)
Definition step (st : State) (child : Node) : State :=
  match node_kind child with
  | KHeading level =>
      if (level =? 1) && is_empty (title st)
      then set_title st (extractText child)
      else if firstDividerFound st && negb (secondDividerFound st) then
        let '(h, group) := NewIngredientGroup (heap st) (extractText child) level in
        addIngredientGroup st group h
      else if secondDividerFound st then add_instruction st child
      else st
  | KParagraph =>
      if is_empty (title st) then st
      else if negb (firstDividerFound st) then
        if isFullyItalic child
        then set_tags st (splitTags (extractText child))
        else if isFullyBold child
        then set_yields st (parseYields (extractText child))
        else add_description st child
      else if secondDividerFound st then add_instruction st child
      else st
  | KList =>
      if firstDividerFound st && negb (secondDividerFound st)
      then add_ingredients st (parseIngredients child)
      else if secondDividerFound st then add_instruction st child
      else st
  | KThematicBreak =>
      if negb (firstDividerFound st)
      then set_dividers st true (secondDividerFound st)
      else if negb (secondDividerFound st)
      then set_dividers st (firstDividerFound st) true
      else st
  | _ =>
      if secondDividerFound st then add_instruction st child
      else if negb (firstDividerFound st) && negb (is_empty (title st))
      then add_description st child
      else st
  end.

Definition run (doc : list Node) : State := fold_left step doc init.

(** The children of the [ast.Recipe] node that replaces the document. *)
Inductive RecipeChild :=
| RecipeMetadata (title description : gostring)
                 (tags : option (list gostring)) (yields : option (list Yield))
| IngredientList (items : list Ingredient)
| IngredientGroupNode (p : ptr)
| Instructions (content : gostring).

Record Recipe := mkRecipe
  { recipe_children : list RecipeChild; recipe_heap : Heap }.

Definition nl2 : gostring := [10; 10].

(** "Build the recipe structure": the code after the loop. *)
Definition build (st : State) : Recipe :=
  let description := TrimSpace (Join (descriptionParts st) nl2) in
  let metadata := RecipeMetadata (title st) description (tagsNode st) (yieldsNode st) in
  let ungrouped :=
    match currentIngredientList st with
    | Some (i :: l) => [IngredientList (i :: l)]
    | _ => []
    end in
  let groups := map IngredientGroupNode (topLevelGroups st) in
  let instructions :=
    match instructionParts st with
    | [] => []
    | parts => [Instructions (TrimSpace (Join parts nl2))]
    end in
  mkRecipe ([metadata] ++ ungrouped ++ groups ++ instructions) (heap st).

(** [recipeParser.Transform], on the document's top-level children. *)
Definition Transform (doc : list Node) : Recipe := build (run doc).

(** *** The JSON renderer of the extension *)

Inductive IngredientGroupData :=
  mkGroupData (gd_title : gostring) (gd_ingredients : list Ingredient)
              (gd_groups : list IngredientGroupData).

Record RecipeData := mkRecipeData
  { data_Title : gostring;
    data_Description : option gostring;
    data_Tags : list gostring;
    data_Yields : list Yield;
    data_Ingredients : list Ingredient;
    data_IngredientGroups : list IngredientGroupData;
    data_Instructions : option gostring }.

(** [buildIngredientGroup].  The Go recursion follows child pointers of a
    tree; here [fuel] bounds the depth.  The heap's size is fuel enough for
    what a parse builds ([export_needs_no_more_fuel] below). *)
Fixpoint buildIngredientGroup (fuel : nat) (h : Heap) (p : ptr)
  : IngredientGroupData :=
  let g := deref h p in
  match fuel with
  | O => mkGroupData (Title g) [] []
  | S fuel' =>
      mkGroupData (Title g)
        (flat_map (fun c => match c with ChildIngredient i => [i] | _ => [] end)
                  (group_children g))
        (flat_map (fun c => match c with
                            | ChildGroup q => [buildIngredientGroup fuel' h q]
                            | _ => []
                            end)
                  (group_children g))
  end.

Definition nonempty (s : gostring) : option gostring :=
  if is_empty s then None else Some s.

Definition data_step (h : Heap) (data : RecipeData) (child : RecipeChild)
  : RecipeData :=
  match child with
  | RecipeMetadata t d tags yields =>
      mkRecipeData t
        (match nonempty d with Some d' => Some d' | None => data_Description data end)
        (match tags with Some ts => ts | None => data_Tags data end)
        (data_Yields data ++ match yields with Some ys => ys | None => [] end)
        (data_Ingredients data) (data_IngredientGroups data)
        (data_Instructions data)
  | IngredientList items =>
      mkRecipeData (data_Title data) (data_Description data) (data_Tags data)
        (data_Yields data) (data_Ingredients data ++ items)
        (data_IngredientGroups data) (data_Instructions data)
  | IngredientGroupNode p =>
      mkRecipeData (data_Title data) (data_Description data) (data_Tags data)
        (data_Yields data) (data_Ingredients data)
        (data_IngredientGroups data ++ [buildIngredientGroup (List.length h) h p])
        (data_Instructions data)
  | Instructions c =>
      mkRecipeData (data_Title data) (data_Description data) (data_Tags data)
        (data_Yields data) (data_Ingredients data)
        (data_IngredientGroups data)
        (match nonempty c with Some c' => Some c' | None => data_Instructions data end)
  end.

(** [buildRecipeData]. *)
Definition buildRecipeData (r : Recipe) : RecipeData :=
  fold_left (data_step (recipe_heap r)) (recipe_children r)
            (mkRecipeData [] None [] [] [] [] None).

(** Shapes of top-level nodes that the statements below speak of. *)
Definition nonbreak (n : Node) : Prop := isThematicBreak n = false.

Definition tagsParagraph (cs : list Node) : Node :=
  gast.Paragraph [gast.Emphasis 1 cs].

Definition yieldsParagraph (cs : list Node) : Node :=
  gast.Paragraph [gast.Emphasis 2 cs].

Definition isTagsParagraph (n : Node) : bool :=
  match node_kind n with KParagraph => isFullyItalic n | _ => false end.

Definition isYieldsParagraph (n : Node) : bool :=
  match node_kind n with KParagraph => isFullyBold n | _ => false end.

(** A level-1 heading with some text: it sets the title. *)
Definition titled (n : Node) : bool :=
  isLevel1Heading n && negb (is_empty (extractText n)).

(** No tags (yields) paragraph among the nodes up to the next thematic
    break. *)
Fixpoint no_later_tags (l : list Node) : bool :=
  match l with
  | [] => true
  | n :: rest =>
      if isThematicBreak n then true
      else negb (isTagsParagraph n) && no_later_tags rest
  end.

Fixpoint no_later_yields (l : list Node) : bool :=
  match l with
  | [] => true
  | n :: rest =>
      if isThematicBreak n then true
      else negb (isYieldsParagraph n) && no_later_yields rest
  end.

Definition isIngredientList (c : RecipeChild) : bool :=
  match c with IngredientList _ => true | _ => false end.

(** Child pointers lead to cells allocated later, within the heap. *)
Definition heap_ordered (h : Heap) : Prop :=
  forall p g q, nth_error h p = Some g -> In (ChildGroup q) (group_children g) ->
                (p < q < List.length h)%nat.

(** The pointers the parser holds are allocated, and the heap is ordered. *)
Definition pointers_ok (st : State) : Prop :=
  Forall (fun p => (p < List.length (heap st))%nat) (ingredientGroupStack st)
  /\ Forall (fun p => (p < List.length (heap st))%nat) (topLevelGroups st)
  /\ heap_ordered (heap st).

(** More shapes of top-level nodes. *)
Definition nonbreakb (n : Node) : bool := negb (isThematicBreak n).

(** The cases of the switch that do something between the two dividers. *)
Definition ingredient_kind (n : Node) : bool :=
  match node_kind n with
  | KHeading _ | KList | KThematicBreak => true
  | _ => false
  end.

Definition heading_or_list (n : Node) : bool :=
  match node_kind n with
  | KHeading _ | KList => true
  | _ => false
  end.

(** The nodes that reach [descriptionParts] in the metadata of a titled
    document. *)
Definition description_node (n : Node) : bool :=
  match node_kind n with
  | KHeading _ | KList | KThematicBreak => false
  | KParagraph => negb (isFullyItalic n) && negb (isFullyBold n)
  | _ => true
  end.

(** The text of a unit pointer: nothing for nil. *)
Definition unit_text (u : option gostring) : gostring :=
  match u with Some u => u | None => [] end.

(** Inline nodes that are links, and the destinations of those among [l]. *)
Definition isLink (n : Node) : bool :=
  match node_kind n with KLink _ => true | _ => false end.

Definition link_destinations (l : list Node) : list gostring :=
  flat_map (fun n => match node_kind n with KLink d => [d] | _ => [] end) l.

(** No comma of the text stands between two digits: the test of the loop
    of [splitTags] at every comma, [prev] being the rune before [rest]. *)
Fixpoint plain_commas (prev : option rune) (rest : gostring) : bool :=
  match rest with
  | [] => true
  | r :: rest' =>
      (if r =? comma then
         negb ((match prev with Some p => IsDigit p | None => false end)
               && (match rest' with n :: _ => IsDigit n | [] => false end))
       else true)
      && plain_commas (Some r) rest'
  end.

(** The ingredients and the group pointers among the children of a group
    node, and all the ingredients of an exported group, those of its
    subgroups after its own. *)
Definition own_ingredients (g : IngredientGroup) : list Ingredient :=
  flat_map (fun c => match c with ChildIngredient i => [i] | _ => [] end)
           (group_children g).

Definition child_ptrs (g : IngredientGroup) : list ptr :=
  flat_map (fun c => match c with ChildGroup q => [q] | _ => [] end)
           (group_children g).

Fixpoint gd_all (d : IngredientGroupData) : list Ingredient :=
  match d with
  | mkGroupData _ ings groups => ings ++ flat_map gd_all groups
  end.

(** The ingredients of the lists that follow a heading ([opened]: a heading
    has been met). *)
Fixpoint grouped (opened : bool) (nodes : list Node) : list Ingredient :=
  match nodes with
  | [] => []
  | n :: rest =>
      match node_kind n with
      | KHeading _ => grouped true rest
      | KList => (if opened then parseIngredients n else []) ++ grouped opened rest
      | _ => grouped opened rest
      end
  end.

(** The top-level pointers and the child pointers together are the cells of
    the heap, each once. *)
Definition forest (st : State) : Prop :=
  Permutation (topLevelGroups st ++ flat_map child_ptrs (heap st))
              (seq 0 (List.length (heap st))).

(** The ingredients exported for the group at [p]. *)
Definition all_of (h : Heap) (p : ptr) : list Ingredient :=
  gd_all (buildIngredientGroup (List.length h) h p).

(** A group is on the stack. *)
Definition opened (st : State) : bool :=
  match ingredientGroupStack st with [] => false | _ => true end.

End Extension.

(* ================================================================== *)
(** ** pkg/goldmark-recipemd/parser: the recipe transformer *)

Module Parser.

(** [extractText] of this package: a text node gives its segment, any other
    node the text of its children. *)
Fixpoint extractText (node : Node) : gostring :=
  match node with
  | mkNode (KText v) _ => v
  | mkNode _ cs => flat_map extractText cs
  end.

(** [isAllEmphasis] and [isAllStrong]. *)
Definition isAllEmphasis (p : Node) : bool :=
  match node_children p with
  | [mkNode (KEmphasis l) _] => l =? 1
  | _ => false
  end.

Definition isAllStrong (p : Node) : bool :=
  match node_children p with
  | [mkNode (KEmphasis l) _] => l =? 2
  | _ => false
  end.

(** [ast.Ingredient] of this package: two strings. *)
Record Ingredient := mkIngredient { Amount : gostring; Name : gostring }.

(** State of the loop of [parseIngredientContent]. *)
Record ContentAcc := mkContentAcc
  { amountParts : list gostring; nameParts : list gostring; inAmount : bool }.

Definition content_step (a : ContentAcc) (child : Node) : ContentAcc :=
  match node_kind child with
  | KEmphasis l =>
      if inAmount a && (l =? 1)
      then mkContentAcc (amountParts a ++ [extractText child]) (nameParts a) (inAmount a)
      else mkContentAcc (amountParts a) (nameParts a ++ [extractText child]) (inAmount a)
  | KText v => mkContentAcc (amountParts a) (nameParts a ++ [v]) false
  | _ => mkContentAcc (amountParts a) (nameParts a ++ [extractText child]) (inAmount a)
  end.

(** The first child of the item that is a text block or a paragraph. *)
Fixpoint textContainer (cs : list Node) : option Node :=
  match cs with
  | [] => None
  | c :: rest =>
      match node_kind c with
      | KTextBlock | KParagraph => Some c
      | _ => textContainer rest
      end
  end.

(** [parseIngredientContent], on a fresh [ast.NewIngredient()]. *)
Definition parseIngredientContent (item : Node) : Ingredient :=
  match textContainer (node_children item) with
  | None => mkIngredient [] []
  | Some tc =>
      let a := fold_left content_step (node_children tc) (mkContentAcc [] [] true) in
      mkIngredient (TrimSpace (Join (amountParts a) [space]))
                   (TrimSpace (Join (nameParts a) []))
  end.

(** The ingredients a list contributes ([processIngredientList]). *)
Definition list_ingredients (lst : Node) : list Ingredient :=
  flat_map (fun item => match node_kind item with
                        | KListItem => [parseIngredientContent item]
                        | _ => []
                        end)
           (node_children lst).

(** Children of an [ast.IngredientGroup]: the heading it was made from, then
    its ingredients. *)
Inductive GroupChild :=
| GHeading (h : Node)
| GIngredient (i : Ingredient).

(** Children of the [ast.Ingredients] node. *)
Inductive IngredientsChild :=
| IIngredient (i : Ingredient)
| IGroup (name : gostring) (children : list GroupChild).

(** Children of the [ast.Recipe] node. *)
Inductive RecipeChild :=
| Title (heading : Node)
| Tags (para : Node)
| Yields (para : Node)
| Description (paras : list Node)
| Ingredients (children : list IngredientsChild)
| Instructions (nodes : list Node).

Definition Recipe := list RecipeChild.

Fixpoint update_at {A} (l : list A) (i : nat) (f : A -> A) : list A :=
  match l, i with
  | [], _ => []
  | x :: rest, O => f x :: rest
  | x :: rest, S i' => x :: update_at rest i' f
  end.

(** [processMetadata].  [description] points at the [ast.Description] node
    once it exists: its position among the recipe's children. *)
Definition metadata_step (acc : Recipe * option nat) (node : Node)
  : Recipe * option nat :=
  let '(recipe, description) := acc in
  match node_kind node with
  | KHeading l =>
      if l =? 1 then (recipe ++ [Title node], description) else acc
  | KParagraph =>
      if isAllEmphasis node then (recipe ++ [Tags node], description)
      else if isAllStrong node then (recipe ++ [Yields node], description)
      else
        match description with
        | None => (recipe ++ [Description [node]], Some (List.length recipe))
        | Some d =>
            (update_at recipe d
               (fun c => match c with
                         | Description ps => Description (ps ++ [node])
                         | other => other
                         end),
             description)
        end
  | _ => acc
  end.

Definition processMetadata (recipe : Recipe) (nodes : list Node) : Recipe :=
  fst (fold_left metadata_step nodes (recipe, None)).

(** [processIngredients].  [currentGroup] points at the group node last
    appended to [ingredients]: its position among the children. *)
Definition ingredients_step (acc : list IngredientsChild * option nat)
    (node : Node) : list IngredientsChild * option nat :=
  let '(ingredients, currentGroup) := acc in
  match node_kind node with
  | KHeading _ =>
      (ingredients ++ [IGroup (extractText node) [GHeading node]],
       Some (List.length ingredients))
  | KList =>
      match currentGroup with
      | Some g =>
          (update_at ingredients g
             (fun c => match c with
                       | IGroup name cs =>
                           IGroup name (cs ++ map GIngredient (list_ingredients node))
                       | other => other
                       end),
           currentGroup)
      | None => (ingredients ++ map IIngredient (list_ingredients node), currentGroup)
      end
  | _ => acc
  end.

Definition processIngredients (recipe : Recipe) (nodes : list Node) : Recipe :=
  recipe ++ [Ingredients (fst (fold_left ingredients_step nodes ([], None)))].

(** [processInstructions]. *)
Definition processInstructions (recipe : Recipe) (nodes : list Node) : Recipe :=
  recipe ++ [Instructions nodes].

(** "Determine section boundaries": the loop over [children] at index [i],
    with its [break] once the second thematic break is found.  [-1] is the
    code's "not found". *)
Fixpoint find_breaks (i : Z) (children : list Node)
    (firstBreakIdx secondBreakIdx : Z) : Z * Z :=
  match children with
  | [] => (firstBreakIdx, secondBreakIdx)
  | child :: rest =>
      if isThematicBreak child then
        if firstBreakIdx =? -1 then find_breaks (i + 1) rest i secondBreakIdx
        else if secondBreakIdx =? -1 then (firstBreakIdx, i)
        else find_breaks (i + 1) rest firstBreakIdx secondBreakIdx
      else find_breaks (i + 1) rest firstBreakIdx secondBreakIdx
  end.

Definition breaks (children : list Node) : Z * Z :=
  find_breaks 0 children (-1) (-1).

(** The slice expression [l[lo:hi]], for [0 <= lo <= hi <= len(l)]. *)
Definition slice (l : list Node) (lo hi : Z) : list Node :=
  firstn (Z.to_nat (hi - lo)) (skipn (Z.to_nat lo) l).

Definition len (l : list Node) : Z := Z.of_nat (List.length l).

(** [recipeTransformer.Transform], on the document's top-level children; the
    result is the children of the recipe node that replaces them. *)
Definition Transform (children : list Node) : Recipe :=
  let '(firstBreakIdx, secondBreakIdx) := breaks children in
  let metaEnd := if firstBreakIdx =? -1 then len children else firstBreakIdx in
  let recipe := processMetadata [] (slice children 0 metaEnd) in
  let recipe :=
    if negb (firstBreakIdx =? -1) then
      let ingredientsStart := firstBreakIdx + 1 in
      let ingredientsEnd :=
        if secondBreakIdx =? -1 then len children else secondBreakIdx in
      if ingredientsStart <? ingredientsEnd
      then processIngredients recipe (slice children ingredientsStart ingredientsEnd)
      else recipe
    else recipe in
  if negb (secondBreakIdx =? -1) && (secondBreakIdx + 1 <? len children)
  then processInstructions recipe (slice children (secondBreakIdx + 1) (len children))
  else recipe.

(** The three slices [Transform] hands to [processMetadata],
    [processIngredients] and [processInstructions]; an empty slice stands
    for a call that is not made. *)
Definition metadata_nodes (children : list Node) : list Node :=
  let '(firstBreakIdx, _) := breaks children in
  slice children 0 (if firstBreakIdx =? -1 then len children else firstBreakIdx).

Definition ingredient_nodes (children : list Node) : list Node :=
  let '(firstBreakIdx, secondBreakIdx) := breaks children in
  if negb (firstBreakIdx =? -1) then
    slice children (firstBreakIdx + 1)
          (if secondBreakIdx =? -1 then len children else secondBreakIdx)
  else [].

Definition instruction_nodes (children : list Node) : list Node :=
  let '(_, secondBreakIdx) := breaks children in
  if negb (secondBreakIdx =? -1)
  then slice children (secondBreakIdx + 1) (len children)
  else [].

Definition nonbreak (n : Node) : Prop := isThematicBreak n = false.

(** What [Transform] does with three given slices: the calls it makes, an
    empty ingredient or instruction slice standing for no call. *)
Definition assemble (meta ingr instr : list Node) : Recipe :=
  let recipe := processMetadata [] meta in
  let recipe := match ingr with
                | [] => recipe
                | _ => processIngredients recipe ingr
                end in
  match instr with
  | [] => recipe
  | _ => processInstructions recipe instr
  end.

(** Children that stand for a section after a divider. *)
Definition section_child (c : RecipeChild) : bool :=
  match c with
  | Ingredients _ | Instructions _ => true
  | _ => false
  end.

(** [Transform] as an instance of the interface the specification gives a
    parse: a mode in, a fatal error or a recipe with warnings out.  The Go
    method has the signature [Transform(doc, reader, pc)] with no result; it
    reads no option, returns no error and keeps no warning list.  Seen
    through that interface it is therefore this function. *)
Inductive Mode := Strict | Permissive.
Inductive StructureError := MissingDivider | MissingTitle.
Definition Warning := gostring.

Definition parse (m : Mode) (children : list Node)
  : StructureError + Recipe * list Warning :=
  inr (Transform children, []).

(** What the statements on [processIngredients] and [processMetadata] speak
    of: the children built from a slice, the ingredients of its lists, and
    its description paragraphs. *)
Definition ingredients_of (nodes : list Node) : list IngredientsChild :=
  fst (fold_left ingredients_step nodes ([], None)).

Definition isHeading (n : Node) : bool :=
  match node_kind n with KHeading _ => true | _ => false end.

Definition listed (nodes : list Node) : list Ingredient :=
  flat_map (fun n => match node_kind n with
                     | KList => list_ingredients n
                     | _ => []
                     end) nodes.

Definition isDescriptionParagraph (n : Node) : bool :=
  match node_kind n with
  | KParagraph => negb (isAllEmphasis n) && negb (isAllStrong n)
  | _ => false
  end.

(** The children of the metadata without the pointer: the nodes in order,
    each level-1 heading a title, each wholly emphasised paragraph tags or
    yields, and one description holding [descs] where the first other
    paragraph stands ([seen]: a description has been placed). *)
Fixpoint placed (seen : bool) (descs : list Node) (nodes : list Node) : Recipe :=
  match nodes with
  | [] => []
  | n :: rest =>
      match node_kind n with
      | KHeading l =>
          if l =? 1 then Title n :: placed seen descs rest
          else placed seen descs rest
      | KParagraph =>
          if isAllEmphasis n then Tags n :: placed seen descs rest
          else if isAllStrong n then Yields n :: placed seen descs rest
          else if seen then placed seen descs rest
          else Description descs :: placed true descs rest
      | _ => placed seen descs rest
      end
  end.

(** An emphasis of level 1. *)
Definition isItalic (n : Node) : bool :=
  match node_kind n with KEmphasis l => l =? 1 | _ => false end.

End Parser.

(* ================================================================== *)
(** ** pkg/goldmark-recipemd/renderer: the JSON and Markdown renderers *)

Module Renderer.
Import Parser.

(** [extractText] of this package also reads [ast.String] nodes. *)
Fixpoint extractText (node : Node) : gostring :=
  match node with
  | mkNode (KText v) _ => v
  | mkNode (KString v) _ => v
  | mkNode _ cs => flat_map extractText cs
  end.

(** Text of a wrapper node ([ast.Title], [ast.Tags], [ast.Yields]) around
    one node: the wrapper itself is neither text nor string. *)
Definition wrapperText (inner : Node) : gostring := extractText inner.

(** *** MarkdownRenderer

    The walk visits the recipe's children in order.  Only the kinds of
    [RegisterFuncs] have a function; the heading kept inside a group has
    none and is walked without output. *)

Definition paragraphs (nodes : list Node) : gostring :=
  flat_map (fun child =>
              let text := TrimSpace (extractText child) in
              if is_empty text then [] else text ++ [10; 10])
           nodes.

Definition renderIngredient (ing : Ingredient) : gostring :=
  str "- "
  ++ (if is_empty (Amount ing) then [] else str "*" ++ Amount ing ++ str "* ")
  ++ Name ing ++ [10].

Definition renderGroupChild (c : GroupChild) : gostring :=
  match c with
  | GHeading _ => []
  | GIngredient i => renderIngredient i
  end.

Definition renderIngredientsChild (c : IngredientsChild) : gostring :=
  match c with
  | IIngredient i => renderIngredient i
  | IGroup name cs =>
      [10] ++ str "## " ++ name ++ [10; 10] ++ flat_map renderGroupChild cs
  end.

Definition renderChild (c : RecipeChild) : gostring :=
  match c with
  | Title h => str "# " ++ wrapperText h ++ [10; 10]
  | Description ps => paragraphs ps
  | Tags p => str "*" ++ wrapperText p ++ str "*" ++ [10; 10]
  | Yields p => str "**" ++ wrapperText p ++ str "**" ++ [10; 10]
  | Ingredients cs =>
      str "---" ++ [10; 10] ++ flat_map renderIngredientsChild cs ++ [10]
  | Instructions nodes => str "---" ++ [10; 10] ++ paragraphs nodes
  end.

(** The text [MarkdownRenderer] writes for a recipe. *)
Definition Markdown (recipe : Recipe) : gostring := flat_map renderChild recipe.

(** *** JSONRenderer *)

Record jsonGroup := mkJsonGroup
  { jg_Name : gostring; jg_Ingredients : list Ingredient }.

Record jsonRecipe := mkJsonRecipe
  { j_Title : gostring;
    j_Description : gostring;
    j_Tags : list gostring;
    j_Yields : list gostring;
    j_Ingredients : list Ingredient;
    j_Groups : list jsonGroup;
    j_Instructions : gostring }.

(** The loop of [renderTags] and of [renderYields]: split at every comma,
    trim, keep what is not empty. *)
Definition comma_fields (text : gostring) : list gostring :=
  filter (fun t => negb (is_empty t)) (map TrimSpace (Split text comma)).

Definition joined (nodes : list Node) : gostring :=
  Join (map (fun child => TrimSpace (extractText child)) nodes) [10; 10].

Definition json_step (r : jsonRecipe) (c : RecipeChild) : jsonRecipe :=
  match c with
  | Title h =>
      mkJsonRecipe (wrapperText h) (j_Description r) (j_Tags r) (j_Yields r)
                   (j_Ingredients r) (j_Groups r) (j_Instructions r)
  | Description ps =>
      mkJsonRecipe (j_Title r) (joined ps) (j_Tags r) (j_Yields r)
                   (j_Ingredients r) (j_Groups r) (j_Instructions r)
  | Tags p =>
      mkJsonRecipe (j_Title r) (j_Description r)
                   (j_Tags r ++ comma_fields (wrapperText p)) (j_Yields r)
                   (j_Ingredients r) (j_Groups r) (j_Instructions r)
  | Yields p =>
      mkJsonRecipe (j_Title r) (j_Description r) (j_Tags r)
                   (j_Yields r ++ comma_fields (wrapperText p))
                   (j_Ingredients r) (j_Groups r) (j_Instructions r)
  | Ingredients cs =>
      mkJsonRecipe (j_Title r) (j_Description r) (j_Tags r) (j_Yields r)
        (j_Ingredients r
         ++ flat_map (fun c => match c with IIngredient i => [i] | _ => [] end) cs)
        (j_Groups r
         ++ flat_map (fun c =>
                        match c with
                        | IGroup name gcs =>
                            [mkJsonGroup name
                               (flat_map (fun g => match g with
                                                   | GIngredient i => [i]
                                                   | _ => []
                                                   end) gcs)]
                        | _ => []
                        end) cs)
        (j_Instructions r)
  | Instructions nodes =>
      mkJsonRecipe (j_Title r) (j_Description r) (j_Tags r) (j_Yields r)
                   (j_Ingredients r) (j_Groups r) (joined nodes)
  end.

(** The value [JSONRenderer] marshals when it leaves the recipe node. *)
Definition JSON (recipe : Recipe) : jsonRecipe :=
  fold_left json_step recipe (mkJsonRecipe [] [] [] [] [] [] []).

(** The fields a round trip is compared on: title, tags, yields and the
    ingredients with their groups. *)
Definition compared (j : jsonRecipe) :=
  (j_Title j, j_Tags j, j_Yields j, j_Ingredients j, j_Groups j).

(** Export, reconstruct the source, parse it again with [reparse] (the
    CommonMark parser followed by [Transform]), export: the same on the
    compared fields. *)
Definition round_trip (reparse : gostring -> list Node) (doc : list Node) : Prop :=
  compared (JSON (Transform (reparse (Markdown (Transform doc)))))
  = compared (JSON (Transform doc)).

End Renderer.

(* ================================================================== *)
(** ** pkg/recipe.go: the Recipe struct and ExtractRecipe *)

Module Recipemd.

Record Yield := mkYield { y_Amount : gostring; y_Unit : gostring }.
Record Amount := mkAmount { Quantity : gostring; Unit : gostring }.
Record Ingredient := mkIngredient { ing_Amount : option Amount; ing_Name : gostring }.

Inductive IngredientEntry :=
| EIngredient (i : Ingredient)
| EIngredientGroup (name : gostring) (ingredients : list Ingredient).

Record Recipe := mkRecipe
  { Title : gostring;
    Description : gostring;
    Tags : list gostring;
    Yields : list Yield;
    Ingredients : list IngredientEntry;
    Instructions : gostring }.

(** [parseYield] and [parseAmount]: cut at the first space. *)
Definition parseYield (s : gostring) : Yield :=
  match SplitN2 s space with
  | [a] => mkYield a []
  | a :: u :: _ => mkYield a u
  | [] => mkYield [] []
  end.

Definition parseAmount (s : gostring) : Amount :=
  match SplitN2 s space with
  | [q] => mkAmount q []
  | q :: u :: _ => mkAmount q u
  | [] => mkAmount [] []
  end.

(** The loop of the [*ast.Tags] case: every comma separates. *)
Definition extractTags (tagsText : gostring) : list gostring :=
  filter (fun t => negb (is_empty t)) (map TrimSpace (Split tagsText comma)).

(** The loop of the [*ast.Yields] case. *)
Definition extractYields (yieldsText : gostring) : list Yield :=
  map parseYield
      (filter (fun y => negb (is_empty y)) (map TrimSpace (Split yieldsText comma))).

Definition extractIngredient (n : Parser.Ingredient) : Ingredient :=
  mkIngredient
    (if is_empty (Parser.Amount n) then None
     else Some (parseAmount (Parser.Amount n)))
    (Parser.Name n).

Definition extractIngredients (cs : list Parser.IngredientsChild)
  : list IngredientEntry :=
  map (fun c =>
         match c with
         | Parser.IIngredient n => EIngredient (extractIngredient n)
         | Parser.IGroup name gcs =>
             EIngredientGroup name
               (flat_map (fun g => match g with
                                   | Parser.GIngredient i => [extractIngredient i]
                                   | _ => []
                                   end) gcs)
         end) cs.

Definition extract_step (r : Recipe) (c : Parser.RecipeChild) : Recipe :=
  match c with
  | Parser.Title h =>
      mkRecipe (Renderer.wrapperText h) (Description r) (Tags r) (Yields r)
               (Ingredients r) (Instructions r)
  | Parser.Description ps =>
      mkRecipe (Title r) (Renderer.joined ps) (Tags r) (Yields r)
               (Ingredients r) (Instructions r)
  | Parser.Tags p =>
      mkRecipe (Title r) (Description r)
               (Tags r ++ extractTags (Renderer.wrapperText p)) (Yields r)
               (Ingredients r) (Instructions r)
  | Parser.Yields p =>
      mkRecipe (Title r) (Description r) (Tags r)
               (Yields r ++ extractYields (Renderer.wrapperText p))
               (Ingredients r) (Instructions r)
  | Parser.Ingredients cs =>
      mkRecipe (Title r) (Description r) (Tags r) (Yields r)
               (extractIngredients cs) (Instructions r)
  | Parser.Instructions nodes =>
      mkRecipe (Title r) (Description r) (Tags r) (Yields r)
               (Ingredients r) (Renderer.joined nodes)
  end.

(** [ExtractRecipe], on the children of the recipe node.  Its [extractText]
    is the same function as the renderer's. *)
Definition ExtractRecipe (recipe : Parser.Recipe) : Recipe :=
  fold_left extract_step recipe (mkRecipe [] [] [] [] [] []).

(** [Yield.String] and [Amount.String]: [fmt.Sprintf("%s %s", ...)] unless
    the unit is empty. *)
Definition Yield_String (y : Yield) : gostring :=
  if is_empty (y_Unit y) then y_Amount y
  else y_Amount y ++ [space] ++ y_Unit y.

Definition Amount_String (a : Amount) : gostring :=
  if is_empty (Unit a) then Quantity a
  else Quantity a ++ [space] ++ Unit a.

(** [gast.NewString]. *)
Definition NewString (value : gostring) : Node := mkNode (KString value) [].

(** The [ast.Ingredient] node [BuildAST] makes of an ingredient. *)
Definition buildIngredient (i : Ingredient) : Parser.Ingredient :=
  Parser.mkIngredient
    (match ing_Amount i with Some a => Amount_String a | None => [] end)
    (ing_Name i).

Definition buildEntry (e : IngredientEntry) : Parser.IngredientsChild :=
  match e with
  | EIngredient i => Parser.IIngredient (buildIngredient i)
  | EIngredientGroup name ingredients =>
      Parser.IGroup name
        (map (fun i => Parser.GIngredient (buildIngredient i)) ingredients)
  end.

(** One paragraph with a string node for each part of [s] between blank
    lines. *)
Definition buildParagraphs (s : gostring) : list Node :=
  map (fun p => gast.Paragraph [NewString p]) (Split2 s 10 10).

(** [BuildAST]: the children of the recipe node it appends to the new
    document. *)
Definition BuildAST (recipe : Recipe) : Parser.Recipe :=
  (if is_empty (Title recipe) then []
   else [Parser.Title (gast.Heading 1 [NewString (Title recipe)])])
  ++ (if is_empty (Description recipe) then []
      else [Parser.Description (buildParagraphs (Description recipe))])
  ++ (match Tags recipe with
      | [] => []
      | tags =>
          [Parser.Tags
             (gast.Paragraph [gast.Emphasis 1 [NewString (Join tags (str ", "))]])]
      end)
  ++ (match Yields recipe with
      | [] => []
      | yields =>
          [Parser.Yields
             (gast.Paragraph
                [gast.Emphasis 2
                   [NewString (Join (map Yield_String yields) (str ", "))]])]
      end)
  ++ (match Ingredients recipe with
      | [] => []
      | entries => [Parser.Ingredients (map buildEntry entries)]
      end)
  ++ (if is_empty (Instructions recipe) then []
      else [Parser.Instructions (buildParagraphs (Instructions recipe))]).

(** [UpdateAST] and [updateTextContent].  The new text is used through its
    length only: the first text node below the given node gets the segment
    [text.NewSegment(0, len(newText))], so that its text becomes what the
    source holds there.  [len] is Go's [len] of a string, and [Value start
    stop] is [text.NewSegment(start, stop).Value(source)] for the source at
    hand. *)
Section Update.

Variable len : gostring -> nat.
Variable Value : nat -> nat -> gostring.

(** [findText] followed by the assignment to [t.Segment]: the node with its
    first text node, in document order, re-pointed; [None] when there is no
    text node. *)
Fixpoint setFirstText (stop : nat) (n : Node) : option Node :=
  match n with
  | mkNode (KText _) cs => Some (mkNode (KText (Value 0 stop)) cs)
  | mkNode k cs =>
      option_map (mkNode k)
        ((fix first (l : list Node) : option (list Node) :=
            match l with
            | [] => None
            | c :: rest =>
                match setFirstText stop c with
                | Some c' => Some (c' :: rest)
                | None => option_map (cons c) (first rest)
                end
            end) cs)
  end.

Definition updateTextContent (node : Node) (newText : gostring) : Node :=
  match setFirstText (len newText) node with
  | Some node' => node'
  | None => node
  end.

Definition update_step (recipe : Recipe) (c : Parser.RecipeChild)
  : Parser.RecipeChild :=
  match c with
  | Parser.Title h => Parser.Title (updateTextContent h (Title recipe))
  | Parser.Tags p =>
      match Tags recipe with
      | [] => c
      | tags => Parser.Tags (updateTextContent p (Join tags (str ", ")))
      end
  | Parser.Yields p =>
      match Yields recipe with
      | [] => c
      | yields =>
          Parser.Yields
            (updateTextContent p (Join (map Yield_String yields) (str ", ")))
      end
  | _ => c
  end.

(** [UpdateAST], on the children of the recipe node. *)
Definition UpdateAST (tree : Parser.Recipe) (recipe : Recipe) : Parser.Recipe :=
  map (update_step recipe) tree.

End Update.

Definition isTitle (c : Parser.RecipeChild) : bool :=
  match c with Parser.Title _ => true | _ => false end.

End Recipemd.

(* ================================================================== *)
(** ** Amount literals, as the specification lists them *)

Module Literal.
Import Extension.

(** The six forms of section 4.3.  A run of decimal digits is the list of
    its digit values; the white space of a mixed number is a run of the
    blanks the number pattern accepts. *)
Inductive AmountLiteral :=
| LInteger (n : list Z)
| LDecimal (sep : rune) (ip fp : list Z)
| LFraction (n m : list Z)
| LMixed (w : list Z) (ws : gostring) (n m : list Z)
| LVulgar (c : rune).

Definition digits_text (ds : list Z) : gostring := map (fun d => 48 + d) ds.

Definition digits_value (ds : list Z) : Z :=
  fold_left (fun acc d => 10 * acc + d) ds 0.

Definition wf_digits (ds : list Z) : Prop :=
  ds <> [] /\ Forall (fun d => 0 <= d <= 9) ds.

(** The Unicode vulgar fractions and their values. *)
Definition vulgar_fractions : list (rune * Q) :=
  [ (0xBC, Qmake 1 4); (0xBD, Qmake 1 2); (0xBE, Qmake 3 4);
    (0x2150, Qmake 1 7); (0x2151, Qmake 1 9); (0x2152, Qmake 1 10);
    (0x2153, Qmake 1 3); (0x2154, Qmake 2 3);
    (0x2155, Qmake 1 5); (0x2156, Qmake 2 5); (0x2157, Qmake 3 5); (0x2158, Qmake 4 5);
    (0x2159, Qmake 1 6); (0x215A, Qmake 5 6);
    (0x215B, Qmake 1 8); (0x215C, Qmake 3 8); (0x215D, Qmake 5 8); (0x215E, Qmake 7 8);
    (0x2189, Qmake 0 3) ].

Definition literal_text (l : AmountLiteral) : gostring :=
  match l with
  | LInteger n => digits_text n
  | LDecimal sep ip fp => digits_text ip ++ [sep] ++ digits_text fp
  | LFraction n m => digits_text n ++ [47] ++ digits_text m
  | LMixed w ws n m =>
      digits_text w ++ ws ++ digits_text n ++ [47] ++ digits_text m
  | LVulgar c => [c]
  end.

Definition wf_literal (l : AmountLiteral) : Prop :=
  match l with
  | LInteger n => wf_digits n
  | LDecimal sep ip fp => (sep = 46 \/ sep = 44) /\ wf_digits ip /\ wf_digits fp
  | LFraction n m => wf_digits n /\ wf_digits m /\ digits_value m <> 0
  | LMixed w ws n m =>
      wf_digits w /\ ws <> [] /\ Forall (fun r => re_space r = true) ws
      /\ wf_digits n /\ wf_digits m /\ digits_value m <> 0
  | LVulgar c => In c (map fst vulgar_fractions)
  end.

Definition ratio (n m : list Z) : Q :=
  (digits_value n # Z.to_pos (digits_value m))%Q.

(** The number a literal denotes. *)
Definition literal_value (l : AmountLiteral) : Q :=
  match l with
  | LInteger n => inject_Z (digits_value n)
  | LDecimal _ ip fp =>
      (inject_Z (digits_value ip)
       + (digits_value fp # Z.to_pos (10 ^ Z.of_nat (List.length fp))))%Q
  | LFraction n m => ratio n m
  | LMixed w _ n m => (inject_Z (digits_value w) + ratio n m)%Q
  | LVulgar c =>
      match find (fun p => fst p =? c) vulgar_fractions with
      | Some p => snd p
      | None => 0%Q
      end
  end.

(** White space only; and a text that begins and ends with something else. *)
Definition blank (s : gostring) : Prop := Forall (fun r => IsSpace r = true) s.

Definition solid (t : gostring) : Prop :=
  t <> [] /\ IsSpace (hd 0 t) = false /\ IsSpace (last t 0) = false.

End Literal.

(* ================================================================== *)
(** ** The comma splitter, as the specification words it *)

Module CommaSplit.

Section WithDigit.

(** What counts as a decimal digit next to a comma. *)
Variable digit : rune -> bool.

Definition digit_at (text : gostring) (i : option nat) : bool :=
  match i with
  | Some i => match nth_error text i with Some r => digit r | None => false end
  | None => false
  end.

(** The rune at index [i] is a split boundary: a comma, unless both the
    rune before it and the rune after it are digits. *)
Definition boundary (text : gostring) (i : nat) : bool :=
  match nth_error text i with
  | Some r =>
      (r =? comma)
      && negb (digit_at text (match i with O => None | S j => Some j end)
               && digit_at text (Some (S i)))
  | None => false
  end.

(** The runs between the boundaries of [text], from index [i] on, where
    [rest] is what is left of the text and [cur] the run so far. *)
Fixpoint cut (text : gostring) (i : nat) (rest : gostring) (cur : gostring)
  : list gostring :=
  match rest with
  | [] => [cur]
  | r :: rest' =>
      if boundary text i then cur :: cut text (S i) rest' []
      else cut text (S i) rest' (cur ++ [r])
  end.

Definition runs (text : gostring) : list gostring := cut text 0 text [].

End WithDigit.

(** Trim each run and discard the empty results. *)
Definition kept (rs : list gostring) : list gostring :=
  filter (fun t => negb (is_empty t)) (map TrimSpace rs).

Definition last_rune (done : gostring) : option rune :=
  match rev done with [] => None | x :: _ => Some x end.

End CommaSplit.

(* ================================================================== *)
(** ** Documents used in the statements below *)

Module Examples.

Definition T (s : string) : Node := gast.Text (str s).

(** A tight list item holding the plain text [s]. *)
Definition plain_item (s : string) : Node := gast.ListItem [gast.TextBlock [T s]].

(** [- *2 1/4 cups* all-purpose flour] *)
Definition flour_item : Node :=
  gast.ListItem [gast.TextBlock [gast.Emphasis 1 [T "2 1/4 cups"]; T " all-purpose flour"]].

(** [- [pie crust](./pie-crust.md)] *)
Definition pie_crust_item : Node :=
  gast.ListItem [gast.TextBlock [gast.Link (str "./pie-crust.md") [T "pie crust"]]].

(** [- *2 cups*]: an amount and no name. *)
Definition nameless_item : Node :=
  gast.ListItem [gast.TextBlock [gast.Emphasis 1 [T "2 cups"]]].

(** [- *2* <br>]: after the amount only a blank and inline HTML. *)
Definition blank_name_item : Node :=
  gast.ListItem [gast.TextBlock [gast.Emphasis 1 [T "2"]; T " "; gast.RawHTML [str "<br>"]]].

(** The sequence [list, h2, list, h3, list, h2, list] in the ingredient
    section of a titled document. *)
Definition grouped_doc : list Node :=
  [ gast.Heading 1 [T "Title"]; gast.ThematicBreak;
    gast.List [plain_item "ingredient 0"];
    gast.Heading 2 [T "Group 1"]; gast.List [plain_item "ingredient 1"];
    gast.Heading 3 [T "Subgroup 1.1"]; gast.List [plain_item "ingredient 3"];
    gast.Heading 2 [T "Group 2"]; gast.List [plain_item "ingredient 7"] ].

(** Two tags paragraphs and two yields paragraphs in the metadata. *)
Definition twice_doc : list Node :=
  [ gast.Heading 1 [T "Title"];
    gast.Paragraph [gast.Emphasis 1 [T "first, tags"]];
    gast.Paragraph [gast.Emphasis 2 [T "1 loaf"]];
    gast.Paragraph [gast.Emphasis 1 [T "second"]];
    gast.Paragraph [gast.Emphasis 2 [T "2 loaves"]];
    gast.ThematicBreak ].

(** A document without any thematic break. *)
Definition undivided_doc : list Node :=
  [ gast.Heading 1 [T "Title"]; gast.Paragraph [T "Just a description."] ].

(** A document with three thematic breaks. *)
Definition three_breaks_doc : list Node :=
  [ gast.Heading 1 [T "Title"]; gast.Paragraph [T "About."];
    gast.ThematicBreak; gast.List [plain_item "salt"];
    gast.ThematicBreak; gast.Paragraph [T "Mix."];
    gast.ThematicBreak; gast.Paragraph [T "Serve."] ].

(** [- `*2* x`]: a code span is the whole item. *)
Definition code_span_doc : list Node :=
  [ gast.Heading 1 [T "T"]; gast.ThematicBreak;
    gast.List [gast.ListItem [gast.TextBlock [gast.CodeSpan [T "*2* x"]]]] ].

(** [- *2* x]: an amount and a name. *)
Definition amount_doc : list Node :=
  [ gast.Heading 1 [T "T"]; gast.ThematicBreak;
    gast.List [gast.ListItem [gast.TextBlock [gast.Emphasis 1 [T "2"]; T " x"]]] ].

(** Yields [**4 servings, 1,5 kg**] in the metadata. *)
Definition yields_doc : list Node :=
  [ gast.Heading 1 [T "T"];
    gast.Paragraph [gast.Emphasis 2 [T "4 servings, 1,5 kg"]];
    gast.ThematicBreak ].

(** An ingredient list with a nameless item between two others. *)
Definition nameless_doc (with_item : bool) : list Node :=
  [ gast.Heading 1 [T "T"]; gast.ThematicBreak;
    gast.List ([plain_item "salt"]
               ++ (if with_item then [nameless_item] else [])
               ++ [plain_item "pepper"]) ].

End Examples.

(* ================================================================== *)
(** ** Recipes that [BuildAST] writes without loss *)

Module Writable.
Import Recipemd Literal.

(** A tag or yield as [ExtractRecipe] reads it back from a comma-separated
    line: no comma inside, no white space at its ends, not empty. *)
Definition field (t : gostring) : Prop := solid t /\ ~ In comma t.

(** The first word of a yield or an amount holds no space. *)
Definition wf_yield (y : Yield) : Prop :=
  ~ In space (y_Amount y) /\ field (Yield_String y).

Definition wf_amount (a : Amount) : Prop :=
  ~ In space (Quantity a) /\ Amount_String a <> [].

Definition wf_ingredient (i : Ingredient) : Prop :=
  match ing_Amount i with Some a => wf_amount a | None => True end.

Definition wf_entry (e : IngredientEntry) : Prop :=
  match e with
  | EIngredient i => wf_ingredient i
  | EIngredientGroup _ ingredients => Forall wf_ingredient ingredients
  end.

(** Every paragraph of a text is as [TrimSpace] leaves it. *)
Definition wf_text (s : gostring) : Prop :=
  Forall (fun p => TrimSpace p = p) (Split2 s 10 10).

Definition wf_recipe (r : Recipe) : Prop :=
  wf_text (Description r)
  /\ Forall field (Tags r)
  /\ Forall wf_yield (Yields r)
  /\ Forall wf_entry (Ingredients r)
  /\ wf_text (Instructions r).

(** A recipe of that kind. *)
Definition pancakes : Recipe :=
  mkRecipe (str "Pancakes")
           [87; 97; 114; 109; 46; 10; 10; 70; 97; 115; 116; 46]
           [str "breakfast"; str "sweet"]
           [mkYield (str "4") (str "servings"); mkYield (str "1.5") (str "kg")]
           [EIngredient (mkIngredient (Some (mkAmount (str "2") (str "cups")))
                                      (str "flour"));
            EIngredient (mkIngredient None (str "salt"));
            EIngredientGroup (str "Topping")
              [mkIngredient (Some (mkAmount (str "1") [])) (str "lemon")]]
           (str "Mix. Fry.").

(** The fields the JSON renderer and [ExtractRecipe] both read: equal, the
    yields of the first being the strings of the yields of the second. *)
Definition same_fields (j : Renderer.jsonRecipe) (r : Recipe) : Prop :=
  Renderer.j_Title j = Title r
  /\ Renderer.j_Description j = Description r
  /\ Renderer.j_Tags j = Tags r
  /\ Renderer.j_Yields j = map Yield_String (Yields r)
  /\ Renderer.j_Instructions j = Instructions r.

End Writable.

(* ================================================================== *)
(** ** pkg/goldmark-recipemd/renderer: the HTML renderer

    The functions that write a node without walking its children: title,
    tags, yields, ingredient, and the opening of an ingredient group. *)

Module HTMLRenderer.
Import Parser.

(** [html.EscapeString]. *)
Definition escape_rune (r : rune) : gostring :=
  if r =? 38 then str "&amp;"
  else if r =? 39 then str "&#39;"
  else if r =? 60 then str "&lt;"
  else if r =? 62 then str "&gt;"
  else if r =? 34 then str "&#34;"
  else [r].

Definition EscapeString (s : gostring) : gostring := flat_map escape_rune s.

Record HTMLRendererConfig := mkConfig { SchemaOrg : bool }.

(** An attribute value between double quotes. *)
Definition quoted (s : string) : gostring := [34] ++ str s ++ [34].

Definition renderTitle (config : HTMLRendererConfig) (heading : Node) : gostring :=
  (if SchemaOrg config then str "<h1 itemprop=" ++ quoted "name" ++ str ">"
   else str "<h1>")
  ++ EscapeString (Renderer.wrapperText heading) ++ str "</h1>" ++ [10].

(** The loop of [renderTags] and of [renderYields] at index [i]: an empty
    field is skipped, and the separator is written before a field when
    [i > 0]. *)
Fixpoint fields_loop (sep : gostring) (span : gostring -> gostring) (i : nat)
    (fields : list gostring) : gostring :=
  match fields with
  | [] => []
  | f :: rest =>
      let t := TrimSpace f in
      (if is_empty t then []
       else (if (0 <? i)%nat then sep else []) ++ span t)
      ++ fields_loop sep span (S i) rest
  end.

Definition tag_span (config : HTMLRendererConfig) (tag : gostring) : gostring :=
  (if SchemaOrg config
   then str "<span class=" ++ quoted "tag" ++ str " itemprop=" ++ quoted "keywords"
        ++ str ">"
   else str "<span class=" ++ quoted "tag" ++ str ">")
  ++ EscapeString tag ++ str "</span>".

Definition renderTags (config : HTMLRendererConfig) (para : Node) : gostring :=
  str "<div class=" ++ quoted "tags" ++ str ">"
  ++ fields_loop (str " ") (tag_span config) 0
       (Split (Renderer.wrapperText para) comma)
  ++ str "</div>" ++ [10].

Definition yield_span (config : HTMLRendererConfig) (yield : gostring) : gostring :=
  (if SchemaOrg config then str "<span itemprop=" ++ quoted "recipeYield" ++ str ">"
   else str "<span>")
  ++ EscapeString yield ++ str "</span>".

Definition renderYields (config : HTMLRendererConfig) (para : Node) : gostring :=
  str "<div class=" ++ quoted "yields" ++ str ">"
  ++ fields_loop (str ", ") (yield_span config) 0
       (Split (Renderer.wrapperText para) comma)
  ++ str "</div>" ++ [10].

Definition renderIngredient (config : HTMLRendererConfig) (ing : Ingredient)
  : gostring :=
  (if SchemaOrg config then str "<li itemprop=" ++ quoted "recipeIngredient" ++ str ">"
   else str "<li>")
  ++ (if is_empty (Amount ing) then []
      else str "<em>" ++ EscapeString (Amount ing) ++ str "</em> ")
  ++ EscapeString (Name ing) ++ str "</li>" ++ [10].

(** What [renderIngredientGroup] writes on entering a group. *)
Definition renderIngredientGroup (name : gostring) : gostring :=
  str "</ul>" ++ [10] ++ str "<h3>" ++ EscapeString name ++ str "</h3>" ++ [10]
  ++ str "<ul>" ++ [10].

(** How often the rune [r] stands in [s]; the runes [html.EscapeString]
    replaces, but for the ampersand; and the numbers of ['<'] and ['>'] in
    a text. *)
Definition occurrences (r : rune) (s : gostring) : nat := count_occ Z.eq_dec s r.

Definition markup (r : rune) : Prop := r = 60 \/ r = 62 \/ r = 34 \/ r = 39.

Definition angle_brackets (s : gostring) : nat * nat :=
  (occurrences 60 s, occurrences 62 s).

(** The fields the loop writes, and the text it writes between the opening
    and the closing tag when every span is preceded by the separator. *)
Definition written (fields : list gostring) : list gostring :=
  filter (fun t => negb (is_empty t)) (map TrimSpace fields).

Definition separated (sep : gostring) (span : gostring -> gostring)
    (fields : list gostring) : gostring :=
  flat_map (fun t => sep ++ span t) fields.

End HTMLRenderer.

(* ================================================================== *)
(** * Properties *)

(* ------------------------------------------------------------------ *)
(** ** The section segmenter of [recipeTransformer.Transform] *)

Module ParserFacts.
Import Parser.

Lemma find_breaks_none : forall l i f s,
  Forall nonbreak l -> find_breaks i l f s = (f, s).
Proof.
  induction l as [|c l IH]; intros i f s H; simpl; [reflexivity|].
  inversion H as [|? ? Hc Hl]; subst. unfold nonbreak in Hc. rewrite Hc. now apply IH.
Qed.

Lemma find_breaks_first : forall meta i b1 rest,
  Forall nonbreak meta -> isThematicBreak b1 = true ->
  find_breaks i (meta ++ b1 :: rest) (-1) (-1)
  = find_breaks (i + len meta + 1) rest (i + len meta) (-1).
Proof.
  induction meta as [|c meta IH]; intros i b1 rest Hm Hb; simpl.
  - rewrite Hb. unfold len; simpl. now rewrite Z.add_0_r.
  - inversion Hm as [|? ? Hc Hl]; subst. unfold nonbreak in Hc. rewrite Hc.
    rewrite IH by assumption. unfold len. simpl List.length.
    rewrite Nat2Z.inj_succ. f_equal; lia.
Qed.

Lemma find_breaks_second : forall ingr i f b2 instr,
  f <> -1 -> Forall nonbreak ingr -> isThematicBreak b2 = true ->
  find_breaks i (ingr ++ b2 :: instr) f (-1) = (f, i + len ingr).
Proof.
  induction ingr as [|c ingr IH]; intros i f b2 instr Hf Hi Hb; simpl.
  - rewrite Hb. apply Z.eqb_neq in Hf. rewrite Hf. simpl. unfold len; simpl.
    now rewrite Z.add_0_r.
  - inversion Hi as [|? ? Hc Hl]; subst. unfold nonbreak in Hc. rewrite Hc.
    rewrite IH by assumption. unfold len. simpl List.length.
    rewrite Nat2Z.inj_succ. f_equal; lia.
Qed.

Lemma first_split : forall l : list Node,
  existsb isThematicBreak l = true ->
  exists a x b, l = a ++ x :: b /\ isThematicBreak x = true /\ Forall nonbreak a.
Proof.
  induction l as [|c l IH]; simpl; intros H; [discriminate|].
  destruct (isThematicBreak c) eqn:Hc.
  - exists [], c, l. repeat split; auto.
  - simpl in H. destruct (IH H) as (a & x & b & -> & Hx & Ha).
    exists (c :: a), x, b. repeat split; auto.
Qed.

Lemma split_or_none : forall l : list Node,
  Forall nonbreak l \/
  exists a x b, l = a ++ x :: b /\ isThematicBreak x = true /\ Forall nonbreak a.
Proof.
  intros l. destruct (existsb isThematicBreak l) eqn:E.
  - right. now apply first_split.
  - left. apply Forall_forall. intros x Hx. unfold nonbreak.
    destruct (isThematicBreak x) eqn:Hb; [|reflexivity].
    assert (existsb isThematicBreak l = true) by (apply existsb_exists; eauto).
    congruence.
Qed.

Lemma slice_prefix : forall a b, slice (a ++ b) 0 (len a) = a.
Proof.
  intros a b. unfold slice, len. simpl. rewrite Z.sub_0_r, Nat2Z.id.
  rewrite firstn_app, Nat.sub_diag, firstn_all. simpl. now rewrite app_nil_r.
Qed.

Lemma slice_mid : forall a b c lo hi,
  lo = len a -> hi = len a + len b -> slice (a ++ b ++ c) lo hi = b.
Proof.
  intros a b c lo hi -> ->. unfold slice, len.
  replace (Z.of_nat (List.length a) + Z.of_nat (List.length b) - Z.of_nat (List.length a))
    with (Z.of_nat (List.length b)) by lia.
  rewrite !Nat2Z.id. rewrite skipn_app, skipn_all, Nat.sub_diag. simpl.
  rewrite firstn_app, Nat.sub_diag, firstn_all. simpl. now rewrite app_nil_r.
Qed.

Lemma slice_suffix : forall a b lo hi,
  lo = len a -> hi = len (a ++ b) -> slice (a ++ b) lo hi = b.
Proof.
  intros a b lo hi -> ->. 
  replace (a ++ b) with (a ++ b ++ []) at 1 by now rewrite app_nil_r.
  apply slice_mid; [reflexivity|]. unfold len. rewrite length_app. lia.
Qed.

Lemma breaks_none : forall l, Forall nonbreak l -> breaks l = (-1, -1).
Proof. intros l H. unfold breaks. now apply find_breaks_none. Qed.

Lemma breaks_one : forall meta b1 ingr,
  Forall nonbreak meta -> isThematicBreak b1 = true -> Forall nonbreak ingr ->
  breaks (meta ++ b1 :: ingr) = (len meta, -1).
Proof.
  intros meta b1 ingr Hm Hb Hi. unfold breaks.
  rewrite find_breaks_first by assumption. now rewrite find_breaks_none.
Qed.

Lemma len_nonneg : forall l, 0 <= len l.
Proof. intros l. unfold len. lia. Qed.

Lemma breaks_two : forall meta b1 ingr b2 instr,
  Forall nonbreak meta -> isThematicBreak b1 = true ->
  Forall nonbreak ingr -> isThematicBreak b2 = true ->
  breaks (meta ++ b1 :: ingr ++ b2 :: instr) = (len meta, len meta + 1 + len ingr).
Proof.
  intros meta b1 ingr b2 instr Hm Hb1 Hi Hb2. unfold breaks.
  rewrite find_breaks_first by assumption.
  rewrite find_breaks_second; auto. pose proof (len_nonneg meta). lia.
Qed.

Ltac len_solve :=
  unfold len; repeat (rewrite length_app || cbn [List.length]); lia.

Lemma len_app : forall a b, len (a ++ b) = len a + len b.
Proof. intros. unfold len. rewrite length_app. lia. Qed.

Lemma len_cons : forall x a, len (x :: a) = 1 + len a.
Proof. intros. unfold len. simpl List.length. lia. Qed.

Lemma neq_m1 : forall l, (len l =? -1) = false.
Proof. intros l. apply Z.eqb_neq. pose proof (len_nonneg l). lia. Qed.

Lemma neq_m1' : forall l k, 0 <= k -> (len l + k =? -1) = false.
Proof. intros l k Hk. apply Z.eqb_neq. pose proof (len_nonneg l). lia. Qed.

(** The three slices in each of the three shapes a document can have. *)
Lemma sections_none : forall l, Forall nonbreak l ->
  metadata_nodes l = l /\ ingredient_nodes l = [] /\ instruction_nodes l = [].
Proof.
  intros l H. unfold metadata_nodes, ingredient_nodes, instruction_nodes.
  rewrite (breaks_none l H). simpl. repeat split.
  replace l with (l ++ []) at 1 by apply app_nil_r. apply slice_prefix.
Qed.

Lemma sections_one : forall meta b1 ingr,
  Forall nonbreak meta -> isThematicBreak b1 = true -> Forall nonbreak ingr ->
  let l := meta ++ b1 :: ingr in
  metadata_nodes l = meta /\ ingredient_nodes l = ingr /\ instruction_nodes l = [].
Proof.
  intros meta b1 ingr Hm Hb Hi l.
  unfold metadata_nodes, ingredient_nodes, instruction_nodes.
  unfold l. rewrite (breaks_one meta b1 ingr Hm Hb Hi). rewrite neq_m1. simpl.
  repeat split.
  - apply slice_prefix.
  - replace (meta ++ b1 :: ingr) with ((meta ++ [b1]) ++ ingr)
      by (rewrite <- app_assoc; reflexivity).
    apply slice_suffix; [|reflexivity]. len_solve.
Qed.

Lemma sections_two : forall meta b1 ingr b2 instr,
  Forall nonbreak meta -> isThematicBreak b1 = true ->
  Forall nonbreak ingr -> isThematicBreak b2 = true ->
  let l := meta ++ b1 :: ingr ++ b2 :: instr in
  metadata_nodes l = meta /\ ingredient_nodes l = ingr /\ instruction_nodes l = instr.
Proof.
  intros meta b1 ingr b2 instr Hm Hb1 Hi Hb2 l.
  unfold metadata_nodes, ingredient_nodes, instruction_nodes.
  unfold l. rewrite (breaks_two meta b1 ingr b2 instr Hm Hb1 Hi Hb2).
  rewrite neq_m1.
  assert (E : (len meta + 1 + len ingr =? -1) = false).
  { apply Z.eqb_neq. pose proof (len_nonneg meta). pose proof (len_nonneg ingr). lia. }
  rewrite E. simpl. repeat split.
  - apply slice_prefix.
  - replace (meta ++ b1 :: ingr ++ b2 :: instr)
      with ((meta ++ [b1]) ++ ingr ++ (b2 :: instr))
      by (rewrite <- app_assoc; reflexivity).
    apply slice_mid; len_solve.
  - replace (meta ++ b1 :: ingr ++ b2 :: instr)
      with ((meta ++ b1 :: ingr ++ [b2]) ++ instr)
      by (rewrite <- !app_assoc; simpl; rewrite <- app_assoc; reflexivity).
    apply slice_suffix; [|reflexivity]. len_solve.
Qed.

Lemma slice_empty : forall l lo hi, hi <= lo -> slice l lo hi = [].
Proof.
  intros l lo hi H. unfold slice.
  replace (Z.to_nat (hi - lo)) with 0%nat by lia. reflexivity.
Qed.

Lemma Transform_none : forall l, Forall nonbreak l ->
  Transform l = processMetadata [] l.
Proof.
  intros l H. unfold Transform. rewrite (breaks_none l H). simpl.
  replace l with (l ++ []) at 1 by apply app_nil_r.
  rewrite slice_prefix. reflexivity.
Qed.

Lemma Transform_one : forall meta b1 ingr,
  Forall nonbreak meta -> isThematicBreak b1 = true -> Forall nonbreak ingr ->
  Transform (meta ++ b1 :: ingr) = assemble meta ingr [].
Proof.
  intros meta b1 ingr Hm Hb Hi.
  destruct (sections_one meta b1 ingr Hm Hb Hi) as (Em & Ei & _).
  unfold metadata_nodes, ingredient_nodes in Em, Ei.
  unfold Transform, assemble.
  rewrite (breaks_one meta b1 ingr Hm Hb Hi) in *.
  rewrite neq_m1 in *. rewrite Z.eqb_refl in *. cbn [negb andb] in *.
  rewrite Em, Ei.
  destruct ingr as [|i ingr].
  - replace (len meta + 1 <? len (meta ++ [b1])) with false; [reflexivity|].
    symmetry. apply Z.ltb_ge. len_solve.
  - replace (len meta + 1 <? len (meta ++ b1 :: i :: ingr)) with true; [reflexivity|].
    symmetry. apply Z.ltb_lt. len_solve.
Qed.

Lemma Transform_two : forall meta b1 ingr b2 instr,
  Forall nonbreak meta -> isThematicBreak b1 = true ->
  Forall nonbreak ingr -> isThematicBreak b2 = true ->
  Transform (meta ++ b1 :: ingr ++ b2 :: instr) = assemble meta ingr instr.
Proof.
  intros meta b1 ingr b2 instr Hm Hb1 Hi Hb2.
  destruct (sections_two meta b1 ingr b2 instr Hm Hb1 Hi Hb2) as (Em & Ei & En).
  unfold metadata_nodes, ingredient_nodes, instruction_nodes in Em, Ei, En.
  unfold Transform, assemble.
  rewrite (breaks_two meta b1 ingr b2 instr Hm Hb1 Hi Hb2) in *.
  rewrite neq_m1 in *.
  assert (E : (len meta + 1 + len ingr =? -1) = false).
  { apply Z.eqb_neq. pose proof (len_nonneg meta). pose proof (len_nonneg ingr). lia. }
  rewrite E in *. cbn [negb andb] in *.
  rewrite Em, Ei, En.
  assert (E1 : (len meta + 1 <? len meta + 1 + len ingr)
               = match ingr with [] => false | _ => true end).
  { destruct ingr; [apply Z.ltb_ge | apply Z.ltb_lt]; len_solve. }
  assert (E2 : (len meta + 1 + len ingr + 1 <? len (meta ++ b1 :: ingr ++ b2 :: instr))
               = match instr with [] => false | _ => true end).
  { destruct instr; [apply Z.ltb_ge | apply Z.ltb_lt]; len_solve. }
  rewrite E1, E2. destruct ingr, instr; reflexivity.
Qed.

(** X2.  [Transform] processes exactly the three slices: the metadata
    nodes, then the ingredient nodes when there are any, then the
    instruction nodes when there are any. *)
Lemma Transform_sections : forall children,
  Transform children
  = assemble (metadata_nodes children) (ingredient_nodes children)
             (instruction_nodes children).
Proof.
  intros children.
  destruct (split_or_none children) as [H | (meta & b1 & rest & -> & Hb1 & Hm)].
  - destruct (sections_none children H) as (-> & -> & ->).
    now apply Transform_none.
  - destruct (split_or_none rest) as [Hr | (ingr & b2 & instr & -> & Hb2 & Hi)].
    + destruct (sections_one meta b1 rest Hm Hb1 Hr) as (-> & -> & ->).
      now apply Transform_one.
    + destruct (sections_two meta b1 ingr b2 instr Hm Hb1 Hi Hb2) as (-> & -> & ->).
      now apply Transform_two.
Qed.

(** C6.  A document with at least one thematic break is cut into three
    slices in input order: the metadata nodes before the first break, the
    ingredient nodes between the first and the second break (up to the end
    when there is no second one) and the instruction nodes after the second
    break.  Only the one or two dividing breaks are left out and nothing is
    repeated; the instruction slice is the whole rest of the document, so a
    third or later break lies in it as ordinary content. *)
Theorem sections_partition : forall children,
  existsb isThematicBreak children = true ->
  exists b1, isThematicBreak b1 = true
    /\ Forall nonbreak (metadata_nodes children)
    /\ Forall nonbreak (ingredient_nodes children)
    /\ ((children = metadata_nodes children ++ b1 :: ingredient_nodes children
         /\ instruction_nodes children = [])
        \/ exists b2, isThematicBreak b2 = true
             /\ children = metadata_nodes children ++ b1 :: ingredient_nodes children
                           ++ b2 :: instruction_nodes children).
Proof.
  intros children H.
  destruct (first_split children H) as (meta & b1 & rest & -> & Hb1 & Hm).
  exists b1. split; [assumption|].
  destruct (split_or_none rest) as [Hr | (ingr & b2 & instr & -> & Hb2 & Hi)].
  - destruct (sections_one meta b1 rest Hm Hb1 Hr) as (-> & -> & ->).
    repeat split; auto.
  - destruct (sections_two meta b1 ingr b2 instr Hm Hb1 Hi Hb2) as (-> & -> & ->).
    repeat split; auto. right. exists b2. split; auto.
Qed.

Lemma sections_partition_witness :
  existsb isThematicBreak Examples.three_breaks_doc = true
  /\ exists b1, isThematicBreak b1 = true
       /\ Forall nonbreak (metadata_nodes Examples.three_breaks_doc)
       /\ Forall nonbreak (ingredient_nodes Examples.three_breaks_doc)
       /\ ((Examples.three_breaks_doc
            = metadata_nodes Examples.three_breaks_doc
              ++ b1 :: ingredient_nodes Examples.three_breaks_doc
            /\ instruction_nodes Examples.three_breaks_doc = [])
           \/ exists b2, isThematicBreak b2 = true
                /\ Examples.three_breaks_doc
                   = metadata_nodes Examples.three_breaks_doc
                     ++ b1 :: ingredient_nodes Examples.three_breaks_doc
                     ++ b2 :: instruction_nodes Examples.three_breaks_doc).
Proof.
  split; [reflexivity|].
  apply (sections_partition Examples.three_breaks_doc). reflexivity.
Defined.

(** The third break of [three_breaks_doc] ends up among the instruction
    nodes, which [processInstructions] keeps as they are. *)
Example third_break_is_instruction_content :
  instruction_nodes Examples.three_breaks_doc
  = [ gast.Paragraph [Examples.T "Mix."]; gast.ThematicBreak;
      gast.Paragraph [Examples.T "Serve."] ]
  /\ In (Instructions (instruction_nodes Examples.three_breaks_doc))
        (Transform Examples.three_breaks_doc).
Proof. split; [reflexivity|]. vm_compute. auto 10. Qed.

(** [processIngredients] knows no heading levels: on [list, h2, list, h3,
    list, h2, list] it keeps the ungrouped ingredient and makes three
    sibling groups, the level-3 heading among them. *)
Example groups_are_flat :
  Renderer.j_Ingredients (Renderer.JSON (Transform Examples.grouped_doc))
  = [mkIngredient [] (str "ingredient 0")]
  /\ Renderer.j_Groups (Renderer.JSON (Transform Examples.grouped_doc))
     = [ Renderer.mkJsonGroup (str "Group 1") [mkIngredient [] (str "ingredient 1")];
         Renderer.mkJsonGroup (str "Subgroup 1.1") [mkIngredient [] (str "ingredient 3")];
         Renderer.mkJsonGroup (str "Group 2") [mkIngredient [] (str "ingredient 7")] ].
Proof. split; reflexivity. Qed.

(** *** Documents without a thematic break *)

Lemma update_at_Forall : forall {A} (P : A -> Prop) (f : A -> A) l i,
  (forall x, P x -> P (f x)) -> Forall P l -> Forall P (update_at l i f).
Proof.
  intros A P f l. induction l as [|x l IH]; intros i Hf Hl; simpl.
  - destruct i; constructor.
  - inversion Hl; subst. destruct i; constructor; auto.
Qed.

Lemma metadata_step_no_section : forall node recipe d,
  Forall (fun c => section_child c = false) recipe ->
  Forall (fun c => section_child c = false) (fst (metadata_step (recipe, d) node)).
Proof.
  intros [k cs] recipe d H. unfold metadata_step. cbn [node_kind].
  destruct k; try exact H.
  - destruct (level =? 1); [|exact H]. cbn [fst].
    apply Forall_app. split; [exact H | repeat constructor].
  - destruct (isAllEmphasis _).
    { cbn [fst]. apply Forall_app. split; [exact H | repeat constructor]. }
    destruct (isAllStrong _).
    { cbn [fst]. apply Forall_app. split; [exact H | repeat constructor]. }
    destruct d as [d|]; cbn [fst].
    + apply update_at_Forall; [|exact H]. intros [] Hx; auto.
    + apply Forall_app. split; [exact H | repeat constructor].
Qed.

Lemma processMetadata_no_section : forall nodes recipe,
  Forall (fun c => section_child c = false) recipe ->
  Forall (fun c => section_child c = false) (processMetadata recipe nodes).
Proof.
  intros nodes recipe. unfold processMetadata. generalize (@None nat).
  revert recipe. induction nodes as [|n nodes IH]; intros recipe d H;
    cbn [fold_left].
  - exact H.
  - pose proof (metadata_step_no_section n recipe d H) as H'.
    set (x := metadata_step _ n) in *. destruct x as [recipe' d'].
    apply IH. exact H'.
Qed.

(** C9, as the code has it.  A document without a thematic break is never
    refused: [Transform] has no strict mode and no error result.  All of its
    nodes are metadata nodes, the ingredient and instruction slices are
    empty, the recipe is what [processMetadata] makes of the whole document,
    with no ingredients and no instructions node, and no warning is
    recorded. *)
Theorem undivided_is_all_metadata : forall children,
  Forall nonbreak children ->
  metadata_nodes children = children
  /\ ingredient_nodes children = []
  /\ instruction_nodes children = []
  /\ Transform children = processMetadata [] children
  /\ Forall (fun c => section_child c = false) (Transform children)
  /\ forall m, parse m children = inr (processMetadata [] children, []).
Proof.
  intros children H.
  destruct (sections_none children H) as (Hm & Hi & Hn).
  pose proof (Transform_none children H) as Ht.
  repeat split; auto.
  - rewrite Ht. apply processMetadata_no_section. constructor.
  - intros m. unfold parse. now rewrite Ht.
Qed.

Lemma undivided_is_all_metadata_witness :
  Forall nonbreak Examples.undivided_doc
  /\ (metadata_nodes Examples.undivided_doc = Examples.undivided_doc
      /\ ingredient_nodes Examples.undivided_doc = []
      /\ instruction_nodes Examples.undivided_doc = []
      /\ Transform Examples.undivided_doc = processMetadata [] Examples.undivided_doc
      /\ Forall (fun c => section_child c = false) (Transform Examples.undivided_doc)
      /\ forall m, parse m Examples.undivided_doc
                   = inr (processMetadata [] Examples.undivided_doc, [])).
Proof.
  assert (H : Forall nonbreak Examples.undivided_doc)
    by (repeat constructor).
  split; [exact H | exact (undivided_is_all_metadata Examples.undivided_doc H)].
Defined.

(** C9 as stated fails on [undivided_doc]: in strict mode the parse is not
    a [MissingDivider] error but the recipe with title and description, and
    in permissive mode the warning list does not hold one warning. *)
Lemma undivided_parse_neither_fails_nor_warns :
  parse Strict Examples.undivided_doc
  = inr ([ Title (gast.Heading 1 [Examples.T "Title"]);
           Description [gast.Paragraph [Examples.T "Just a description."]] ],
         [])
  /\ parse Strict Examples.undivided_doc <> inl MissingDivider
  /\ forall recipe w, parse Permissive Examples.undivided_doc <> inr (recipe, [w]).
Proof.
  split; [reflexivity|]. split; [discriminate|]. intros recipe w. discriminate.
Qed.

End ParserFacts.

(* ------------------------------------------------------------------ *)
(** ** The extension parser: [recipeParser.Transform] *)

Module ExtensionFacts.
Import Extension.

Lemma run_app : forall a b, run (a ++ b) = fold_left step b (run a).
Proof. intros. unfold run. apply fold_left_app. Qed.

Lemma addIngredientGroup_fields : forall st g h,
  title (addIngredientGroup st g h) = title st
  /\ descriptionParts (addIngredientGroup st g h) = descriptionParts st
  /\ tagsNode (addIngredientGroup st g h) = tagsNode st
  /\ yieldsNode (addIngredientGroup st g h) = yieldsNode st
  /\ firstDividerFound (addIngredientGroup st g h) = firstDividerFound st
  /\ secondDividerFound (addIngredientGroup st g h) = secondDividerFound st
  /\ instructionParts (addIngredientGroup st g h) = instructionParts st.
Proof.
  intros st g h. unfold addIngredientGroup.
  destruct (addIngredientGroup_loop h g _ _) as [[h' s'] t']. cbn. auto 10.
Qed.

(** A paragraph met while no title is set leaves the state as it is. *)
Lemma step_paragraph_untitled : forall st cs,
  title st = [] -> step st (gast.Paragraph cs) = st.
Proof. intros st cs H. unfold step. cbn. rewrite H. reflexivity. Qed.

Lemma add_ingredients_fields : forall st ings,
  title (add_ingredients st ings) = title st
  /\ descriptionParts (add_ingredients st ings) = descriptionParts st
  /\ tagsNode (add_ingredients st ings) = tagsNode st
  /\ yieldsNode (add_ingredients st ings) = yieldsNode st
  /\ firstDividerFound (add_ingredients st ings) = firstDividerFound st
  /\ secondDividerFound (add_ingredients st ings) = secondDividerFound st
  /\ instructionParts (add_ingredients st ings) = instructionParts st.
Proof.
  intros st ings. unfold add_ingredients.
  destruct (ingredientGroupStack st); cbn; auto 10.
Qed.

(** Splits on every test of [step], keeping the group and list updates
    folded. *)
Ltac step_cases :=
  unfold step; cbn [node_kind];
  repeat match goal with
         | |- context [if ?c then _ else _] => destruct c eqn:?
         | |- context [match ?k with KHeading _ => _ | _ => _ end] => destruct k
         | |- context [let '(_, _) := ?p in _] => destruct p
         end.

(** Only a level-1 heading sets the title. *)
Lemma step_title : forall st n,
  isLevel1Heading n = false -> title (step st n) = title st.
Proof.
  intros st [k cs] H. unfold isLevel1Heading in H. cbn [node_kind] in H.
  destruct k; try (rewrite H); step_cases;
    try reflexivity; try discriminate;
    try apply addIngredientGroup_fields; try apply add_ingredients_fields.
  rewrite H in *. discriminate.
Qed.

Lemma run_untitled : forall pre st,
  Forall (fun n => isLevel1Heading n = false) pre ->
  title (fold_left step pre st) = title st.
Proof.
  induction pre as [|n pre IH]; intros st H; cbn [fold_left]; [reflexivity|].
  inversion H; subst. rewrite IH by assumption. now apply step_title.
Qed.

(** C10.  In the extension parser a paragraph that stands before the first
    level-1 heading is discarded: the recipe is the one of the document
    without that paragraph, so it reaches no field of it. *)
Theorem paragraph_before_title_is_discarded : forall pre cs post,
  Forall (fun n => isLevel1Heading n = false) pre ->
  Transform (pre ++ gast.Paragraph cs :: post) = Transform (pre ++ post).
Proof.
  intros pre cs post H. unfold Transform. rewrite !run_app. cbn [fold_left].
  rewrite step_paragraph_untitled; [reflexivity|].
  unfold run. now rewrite run_untitled.
Qed.


Lemma paragraph_before_title_is_discarded_witness :
  Forall (fun n => isLevel1Heading n = false) [gast.Heading 2 [Examples.T "Preface"]]
  /\ Transform ([gast.Heading 2 [Examples.T "Preface"]]
                ++ gast.Paragraph [Examples.T "Lost words."]
                :: Examples.grouped_doc)
     = Transform ([gast.Heading 2 [Examples.T "Preface"]] ++ Examples.grouped_doc).
Proof.
  assert (H : Forall (fun n => isLevel1Heading n = false)
                     [gast.Heading 2 [Examples.T "Preface"]])
    by (repeat constructor).
  split; [exact H|].
  exact (paragraph_before_title_is_discarded
           [gast.Heading 2 [Examples.T "Preface"]] [Examples.T "Lost words."]
           Examples.grouped_doc H).
Defined.

(** *** Tags and yields paragraphs *)

Lemma step_title_kept : forall st n, title st <> [] -> title (step st n) = title st.
Proof.
  intros st [k cs] H.
  destruct k; step_cases;
    try reflexivity;
    try apply addIngredientGroup_fields; try apply add_ingredients_fields.
  apply andb_prop in Heqb as [_ E]. destruct (title st); [congruence|discriminate].
Qed.

Lemma fold_title_kept : forall l st,
  title st <> [] -> title (fold_left step l st) = title st.
Proof.
  induction l as [|n l IH]; intros st H; cbn [fold_left]; [reflexivity|].
  rewrite IH; rewrite step_title_kept; auto.
Qed.

Lemma titled_sets_title : forall l st,
  existsb titled l = true -> title (fold_left step l st) <> [].
Proof.
  induction l as [|n l IH]; intros st H; cbn [existsb fold_left] in *; [discriminate|].
  destruct (titled n) eqn:Hn.
  - assert (Ht : title (step st n) <> []).
    { destruct (title st) as [|r t] eqn:Et.
      - destruct n as [k cs]. unfold titled, isLevel1Heading in Hn.
        cbn [node_kind] in Hn. destruct k; try discriminate.
        apply andb_prop in Hn as [Hl He].
        unfold step. cbn [node_kind]. rewrite Hl, Et. cbn [andb is_empty].
        unfold set_title. cbn [title].
        destruct (extractText (mkNode (KHeading level) cs)); [discriminate|congruence].
      - rewrite step_title_kept; rewrite Et; congruence. }
    rewrite fold_title_kept; auto.
  - apply IH. exact H.
Qed.

Lemma step_dividers : forall st n,
  nonbreak n ->
  firstDividerFound (step st n) = firstDividerFound st
  /\ secondDividerFound (step st n) = secondDividerFound st.
Proof.
  intros st [k cs] H. unfold nonbreak, isThematicBreak in H. cbn [node_kind] in H.
  destruct k; try discriminate; step_cases;
    split;
    first [ reflexivity
          | cbn; congruence
          | etransitivity; [apply addIngredientGroup_fields | congruence]
          | etransitivity; [apply add_ingredients_fields | congruence] ].
Qed.

Lemma fold_dividers : forall l st,
  Forall nonbreak l ->
  firstDividerFound (fold_left step l st) = firstDividerFound st
  /\ secondDividerFound (fold_left step l st) = secondDividerFound st.
Proof.
  induction l as [|n l IH]; intros st H; cbn [fold_left]; [auto|].
  inversion H; subst. destruct (IH (step st n)) as [-> ->]; auto.
  now apply step_dividers.
Qed.

(** In the metadata of a titled document a wholly italic paragraph sets the
    tags, a wholly bold one the yields. *)
Lemma step_tagsParagraph : forall st cs,
  title st <> [] -> firstDividerFound st = false ->
  step st (tagsParagraph cs)
  = set_tags st (splitTags (extractText (tagsParagraph cs))).
Proof.
  intros st cs Ht Hf. unfold step, tagsParagraph. cbn [node_kind gast.Paragraph].
  destruct (title st); [congruence|]. cbn [is_empty]. rewrite Hf. reflexivity.
Qed.

Lemma step_yieldsParagraph : forall st cs,
  title st <> [] -> firstDividerFound st = false ->
  step st (yieldsParagraph cs)
  = set_yields st (parseYields (extractText (yieldsParagraph cs))).
Proof.
  intros st cs Ht Hf. unfold step, yieldsParagraph. cbn [node_kind gast.Paragraph].
  destruct (title st); [congruence|]. cbn [is_empty]. rewrite Hf. reflexivity.
Qed.

(** [step] does not read the tags: states that differ in them only keep
    doing so. *)
Lemma step_modulo_tags : forall st st' n,
  set_tags st [] = set_tags st' [] ->
  set_tags (step st n) [] = set_tags (step st' n) [].
Proof.
  intros [t d tg y f1 f2 c s tl i h] [t' d' tg' y' f1' f2' c' s' tl' i' h'] [k cs] H.
  unfold set_tags in H. cbn in H. injection H as -> -> -> -> -> -> -> -> -> ->.
  destruct k; unfold step, set_tags, addIngredientGroup, add_ingredients;
    cbn [node_kind title descriptionParts tagsNode yieldsNode firstDividerFound
         secondDividerFound currentIngredientList ingredientGroupStack
         topLevelGroups instructionParts heap];
    repeat match goal with
           | |- context [if ?c then _ else _] => destruct c
           | |- context [let '(_, _) := ?p in _] => destruct p
           | |- context [match ?l with [] => _ | _ :: _ => _ end] => destruct l
           end; reflexivity.
Qed.

Lemma fold_modulo_tags : forall l st st',
  set_tags st [] = set_tags st' [] ->
  set_tags (fold_left step l st) [] = set_tags (fold_left step l st') [].
Proof.
  induction l as [|n l IH]; intros st st' H; cbn [fold_left]; [exact H|].
  apply IH. now apply step_modulo_tags.
Qed.

Lemma step_modulo_yields : forall st st' n,
  set_yields st [] = set_yields st' [] ->
  set_yields (step st n) [] = set_yields (step st' n) [].
Proof.
  intros [t d tg y f1 f2 c s tl i h] [t' d' tg' y' f1' f2' c' s' tl' i' h'] [k cs] H.
  unfold set_yields in H. cbn in H. injection H as -> -> -> -> -> -> -> -> -> ->.
  destruct k; unfold step, set_yields, addIngredientGroup, add_ingredients;
    cbn [node_kind title descriptionParts tagsNode yieldsNode firstDividerFound
         secondDividerFound currentIngredientList ingredientGroupStack
         topLevelGroups instructionParts heap];
    repeat match goal with
           | |- context [if ?c then _ else _] => destruct c
           | |- context [let '(_, _) := ?p in _] => destruct p
           | |- context [match ?l with [] => _ | _ :: _ => _ end] => destruct l
           end; reflexivity.
Qed.

Lemma fold_modulo_yields : forall l st st',
  set_yields st [] = set_yields st' [] ->
  set_yields (fold_left step l st) [] = set_yields (fold_left step l st') [].
Proof.
  induction l as [|n l IH]; intros st st' H; cbn [fold_left]; [exact H|].
  apply IH. now apply step_modulo_yields.
Qed.


Lemma earlier_tags_irrelevant : forall pre mid post cs1 cs2,
  existsb titled pre = true -> Forall nonbreak (pre ++ mid) ->
  Transform (pre ++ tagsParagraph cs1 :: mid ++ tagsParagraph cs2 :: post)
  = Transform (pre ++ mid ++ tagsParagraph cs2 :: post).
Proof.
  intros pre mid post cs1 cs2 Ht Hb. apply Forall_app in Hb as [Hpre Hmid].
  unfold Transform. f_equal.
  rewrite !run_app. cbn [fold_left]. rewrite !fold_left_app. cbn [fold_left].
  f_equal.
  set (s0 := run pre).
  assert (T0 : title s0 <> []) by (apply titled_sets_title; exact Ht).
  assert (F0 : firstDividerFound s0 = false)
    by (unfold s0, run; now rewrite (proj1 (fold_dividers pre init Hpre))).
  rewrite (step_tagsParagraph s0 cs1 T0 F0).
  set (t1 := splitTags _).
  set (A := fold_left step mid (set_tags s0 t1)).
  set (B := fold_left step mid s0).
  assert (R : set_tags A [] = set_tags B [])
    by (apply fold_modulo_tags; reflexivity).
  assert (TB : title B <> []) by (unfold B; rewrite fold_title_kept; auto).
  assert (FB : firstDividerFound B = false)
    by (unfold B; now rewrite (proj1 (fold_dividers mid s0 Hmid))).
  assert (TA : title A <> [])
    by (change (title A) with (title (set_tags A [])); rewrite R; exact TB).
  assert (FA : firstDividerFound A = false)
    by (change (firstDividerFound A) with (firstDividerFound (set_tags A []));
        rewrite R; exact FB).
  rewrite (step_tagsParagraph A cs2 TA FA), (step_tagsParagraph B cs2 TB FB).
  set (t2 := splitTags _).
  change (set_tags A t2) with (set_tags (set_tags A []) t2).
  rewrite R. reflexivity.
Qed.

Lemma earlier_yields_irrelevant : forall pre mid post cs1 cs2,
  existsb titled pre = true -> Forall nonbreak (pre ++ mid) ->
  Transform (pre ++ yieldsParagraph cs1 :: mid ++ yieldsParagraph cs2 :: post)
  = Transform (pre ++ mid ++ yieldsParagraph cs2 :: post).
Proof.
  intros pre mid post cs1 cs2 Ht Hb. apply Forall_app in Hb as [Hpre Hmid].
  unfold Transform. f_equal.
  rewrite !run_app. cbn [fold_left]. rewrite !fold_left_app. cbn [fold_left].
  f_equal.
  set (s0 := run pre).
  assert (T0 : title s0 <> []) by (apply titled_sets_title; exact Ht).
  assert (F0 : firstDividerFound s0 = false)
    by (unfold s0, run; now rewrite (proj1 (fold_dividers pre init Hpre))).
  rewrite (step_yieldsParagraph s0 cs1 T0 F0).
  set (t1 := parseYields _).
  set (A := fold_left step mid (set_yields s0 t1)).
  set (B := fold_left step mid s0).
  assert (R : set_yields A [] = set_yields B [])
    by (apply fold_modulo_yields; reflexivity).
  assert (TB : title B <> []) by (unfold B; rewrite fold_title_kept; auto).
  assert (FB : firstDividerFound B = false)
    by (unfold B; now rewrite (proj1 (fold_dividers mid s0 Hmid))).
  assert (TA : title A <> [])
    by (change (title A) with (title (set_yields A [])); rewrite R; exact TB).
  assert (FA : firstDividerFound A = false)
    by (change (firstDividerFound A) with (firstDividerFound (set_yields A []));
        rewrite R; exact FB).
  rewrite (step_yieldsParagraph A cs2 TA FA), (step_yieldsParagraph B cs2 TB FB).
  set (t2 := parseYields _).
  change (set_yields A t2) with (set_yields (set_yields A []) t2).
  rewrite R. reflexivity.
Qed.


(** After the first divider, and at any node that is not a tags (yields)
    paragraph, the tags (yields) stay as they are. *)
Lemma step_tags_kept : forall st n,
  isTagsParagraph n = false \/ firstDividerFound st = true ->
  tagsNode (step st n) = tagsNode st.
Proof.
  intros st [k cs] H. unfold isTagsParagraph in H. cbn [node_kind] in H.
  destruct k; step_cases;
    first [ reflexivity
          | apply addIngredientGroup_fields
          | apply add_ingredients_fields
          | destruct H as [H|H]; [discriminate | rewrite H in *; discriminate] ].
Qed.

Lemma step_yields_kept : forall st n,
  isYieldsParagraph n = false \/ firstDividerFound st = true ->
  yieldsNode (step st n) = yieldsNode st.
Proof.
  intros st [k cs] H. unfold isYieldsParagraph in H. cbn [node_kind] in H.
  destruct k; step_cases;
    first [ reflexivity
          | apply addIngredientGroup_fields
          | apply add_ingredients_fields
          | destruct H as [H|H]; [discriminate | rewrite H in *; discriminate] ].
Qed.

Lemma step_first_divider : forall st n,
  firstDividerFound st = true \/ isThematicBreak n = true ->
  firstDividerFound (step st n) = true.
Proof.
  intros st [k cs] H. unfold isThematicBreak in H. cbn [node_kind] in H.
  destruct k; step_cases;
    first [ destruct H; cbn in *; congruence
          | etransitivity; [apply addIngredientGroup_fields | destruct H; congruence]
          | etransitivity; [apply add_ingredients_fields | destruct H; congruence]
          | cbn; destruct (firstDividerFound st); [reflexivity | discriminate] ].
Qed.

Lemma fold_after_divider : forall l st,
  firstDividerFound st = true ->
  tagsNode (fold_left step l st) = tagsNode st
  /\ yieldsNode (fold_left step l st) = yieldsNode st.
Proof.
  induction l as [|n l IH]; intros st H; cbn [fold_left]; [auto|].
  destruct (IH (step st n)) as [-> ->].
  - apply step_first_divider. auto.
  - split; [apply step_tags_kept | apply step_yields_kept]; auto.
Qed.

Lemma fold_tags_kept : forall l st,
  no_later_tags l = true -> tagsNode (fold_left step l st) = tagsNode st.
Proof.
  induction l as [|n l IH]; intros st H; cbn [fold_left no_later_tags] in *;
    [reflexivity|].
  destruct (isThematicBreak n) eqn:Hb.
  - rewrite (proj1 (fold_after_divider l (step st n)
                      (step_first_divider st n (or_intror Hb)))).
    apply step_tags_kept. left. unfold isTagsParagraph.
    unfold isThematicBreak in Hb. destruct (node_kind n); congruence.
  - apply andb_prop in H as [Hn Hl]. rewrite IH by exact Hl.
    apply step_tags_kept. left. now destruct (isTagsParagraph n).
Qed.

Lemma fold_yields_kept : forall l st,
  no_later_yields l = true -> yieldsNode (fold_left step l st) = yieldsNode st.
Proof.
  induction l as [|n l IH]; intros st H; cbn [fold_left no_later_yields] in *;
    [reflexivity|].
  destruct (isThematicBreak n) eqn:Hb.
  - rewrite (proj2 (fold_after_divider l (step st n)
                      (step_first_divider st n (or_intror Hb)))).
    apply step_yields_kept. left. unfold isYieldsParagraph.
    unfold isThematicBreak in Hb. destruct (node_kind n); congruence.
  - apply andb_prop in H as [Hn Hl]. rewrite IH by exact Hl.
    apply step_yields_kept. left. now destruct (isYieldsParagraph n).
Qed.

(** What the JSON renderer reads back from the built recipe. *)
Lemma data_fold_kept : forall h cs data,
  Forall (fun c => match c with RecipeMetadata _ _ _ _ => False | _ => True end) cs ->
  data_Title (fold_left (data_step h) cs data) = data_Title data
  /\ data_Tags (fold_left (data_step h) cs data) = data_Tags data
  /\ data_Yields (fold_left (data_step h) cs data) = data_Yields data
  /\ data_Description (fold_left (data_step h) cs data) = data_Description data.
Proof.
  intros h cs. induction cs as [|c cs IH]; intros data H; cbn [fold_left]; [auto|].
  inversion H as [|? ? Hc Hcs]; subst.
  destruct (IH (data_step h data c) Hcs) as (-> & -> & -> & ->).
  destruct c; cbn; auto. contradiction.
Qed.

Lemma exported_metadata : forall st,
  let data := buildRecipeData (build st) in
  data_Title data = title st
  /\ data_Tags data = match tagsNode st with Some ts => ts | None => [] end
  /\ data_Yields data = match yieldsNode st with Some ys => ys | None => [] end
  /\ data_Description data
     = nonempty (TrimSpace (Join (descriptionParts st) nl2)).
Proof.
  intros st. unfold buildRecipeData, build.
  cbn [recipe_children recipe_heap app fold_left].
  edestruct data_fold_kept as (-> & -> & -> & ->).
  - apply Forall_app. split.
    + destruct (currentIngredientList st) as [[|i l]|]; repeat constructor.
    + apply Forall_app. split.
      * apply Forall_forall. intros c Hc. apply in_map_iff in Hc as (p & <- & _). exact I.
      * destruct (instructionParts st); repeat constructor.
  - cbn. repeat split.
    destruct (nonempty _); reflexivity.
Qed.

(** C5, as the code has it.  Among several tags paragraphs (yields
    paragraphs) in the metadata of a titled document the later one wins: an
    earlier one leaves no trace, the recipe being that of the document
    without it, so it is neither kept nor folded into the description, and
    the exported tags (yields) are those of the last such paragraph before
    the first divider. *)
Theorem later_paragraph_wins : forall pre mid post cs1 cs2,
  existsb titled pre = true -> Forall nonbreak (pre ++ mid) ->
  Transform (pre ++ tagsParagraph cs1 :: mid ++ tagsParagraph cs2 :: post)
  = Transform (pre ++ mid ++ tagsParagraph cs2 :: post)
  /\ Transform (pre ++ yieldsParagraph cs1 :: mid ++ yieldsParagraph cs2 :: post)
     = Transform (pre ++ mid ++ yieldsParagraph cs2 :: post)
  /\ (no_later_tags post = true ->
      data_Tags (buildRecipeData
                   (Transform (pre ++ mid ++ tagsParagraph cs2 :: post)))
      = splitTags (extractText (tagsParagraph cs2)))
  /\ (no_later_yields post = true ->
      data_Yields (buildRecipeData
                     (Transform (pre ++ mid ++ yieldsParagraph cs2 :: post)))
      = parseYields (extractText (yieldsParagraph cs2))).
Proof.
  intros pre mid post cs1 cs2 Ht Hb.
  split; [now apply earlier_tags_irrelevant|].
  split; [now apply earlier_yields_irrelevant|].
  assert (T : title (run (pre ++ mid)) <> []).
  { rewrite run_app. rewrite fold_title_kept; apply titled_sets_title; exact Ht. }
  assert (F : firstDividerFound (run (pre ++ mid)) = false).
  { unfold run. now rewrite (proj1 (fold_dividers _ init Hb)). }
  split; intros Hp; unfold Transform.
  - rewrite (proj1 (proj2 (exported_metadata _))).
    rewrite app_assoc, run_app. cbn [fold_left].
    rewrite fold_tags_kept by exact Hp.
    rewrite step_tagsParagraph by assumption. reflexivity.
  - rewrite (proj1 (proj2 (proj2 (exported_metadata _)))).
    rewrite app_assoc, run_app. cbn [fold_left].
    rewrite fold_yields_kept by exact Hp.
    rewrite step_yieldsParagraph by assumption. reflexivity.
Qed.
Lemma later_paragraph_wins_witness :
  let pre := [gast.Heading 1 [Examples.T "Title"]] in
  let mid := [gast.Paragraph [Examples.T "About."]] in
  let post := [gast.ThematicBreak; gast.List [Examples.plain_item "salt"]] in
  let cs1 := [Examples.T "first, tags"] in
  let cs2 := [Examples.T "second"] in
  existsb titled pre = true /\ Forall nonbreak (pre ++ mid)
  /\ no_later_tags post = true /\ no_later_yields post = true
  /\ Transform (pre ++ tagsParagraph cs1 :: mid ++ tagsParagraph cs2 :: post)
     = Transform (pre ++ mid ++ tagsParagraph cs2 :: post)
  /\ Transform (pre ++ yieldsParagraph cs1 :: mid ++ yieldsParagraph cs2 :: post)
     = Transform (pre ++ mid ++ yieldsParagraph cs2 :: post)
  /\ data_Tags (buildRecipeData
                  (Transform (pre ++ mid ++ tagsParagraph cs2 :: post)))
     = splitTags (extractText (tagsParagraph cs2))
  /\ data_Yields (buildRecipeData
                    (Transform (pre ++ mid ++ yieldsParagraph cs2 :: post)))
     = parseYields (extractText (yieldsParagraph cs2)).
Proof.
  intros pre mid post cs1 cs2.
  assert (Ht : existsb titled pre = true) by reflexivity.
  assert (Hb : Forall nonbreak (pre ++ mid)) by (repeat constructor).
  destruct (later_paragraph_wins pre mid post cs1 cs2 Ht Hb) as (E1 & E2 & E3 & E4).
  split; [exact Ht|]. split; [exact Hb|].
  split; [reflexivity|]. split; [reflexivity|].
  split; [exact E1|]. split; [exact E2|].
  split; [exact (E3 eq_refl) | exact (E4 eq_refl)].
Defined.

(** C5 as stated fails on [twice_doc]: the exported tags and yields are
    those of the second paragraph of each kind, not of the first, and no
    paragraph has been folded into the description. *)
Lemma first_paragraph_does_not_win :
  let data := buildRecipeData (Transform Examples.twice_doc) in
  data_Tags data = [str "second"]
  /\ data_Tags data <> [str "first"; str "tags"]
  /\ data_Yields data = [mkYield (str "2") (Some (str "loaves"))]
  /\ data_Yields data <> [mkYield (str "1") (Some (str "loaf"))]
  /\ data_Description data = None.
Proof. vm_compute. repeat split; discriminate. Qed.

(** *** Ingredient lines *)

Lemma parseIngredient_nameless : forall item,
  collected_name item = [] -> parseIngredient item = None.
Proof.
  intros item H. unfold collected_name in H. unfold parseIngredient.
  destruct (leading_amount (item_inlines item)) as [amt rest].
  cbn [snd] in H. cbv zeta in *.
  set (a := fold_left collect_step rest _) in *.
  destruct (is_empty (acc_name a)); rewrite H; reflexivity.
Qed.

Lemma parseIngredients_items_drop : forall item pre post,
  parseIngredient item = None ->
  parseIngredients_items (pre ++ item :: post) = parseIngredients_items (pre ++ post).
Proof.
  intros item pre post H. induction pre as [|c pre IH]; cbn [app parseIngredients_items].
  - rewrite H. now destruct (node_kind item).
  - rewrite IH. reflexivity.
Qed.

(** Between the first and the second divider a list is parsed as
    ingredients. *)
Lemma step_ingredient_list : forall st items,
  firstDividerFound st = true -> secondDividerFound st = false ->
  step st (gast.List items) = add_ingredients st (parseIngredients (gast.List items)).
Proof.
  intros st items H1 H2. unfold step. cbn [node_kind gast.List].
  rewrite H1, H2. reflexivity.
Qed.

Lemma in_ingredient_section : forall meta b ingr,
  Forall nonbreak meta -> isThematicBreak b = true -> Forall nonbreak ingr ->
  firstDividerFound (run (meta ++ b :: ingr)) = true
  /\ secondDividerFound (run (meta ++ b :: ingr)) = false.
Proof.
  intros meta b ingr Hm Hb Hi. rewrite run_app. cbn [fold_left].
  destruct (fold_dividers ingr (step (run meta) b) Hi) as [-> ->].
  destruct (fold_dividers meta init Hm) as [F1 F2]. fold (run meta) in F1, F2.
  cbn in F1, F2.
  destruct b as [k cs]. unfold isThematicBreak in Hb. cbn [node_kind] in Hb.
  destruct k; try discriminate.
  unfold step. cbn [node_kind]. rewrite F1. cbn. auto.
Qed.

(** C8, as the code has it.  A list item whose collected name is empty
    (the test [name == ""] comes before the trimming) parses to nil: the
    item is left out, the other items of the list are parsed as before, and
    in the ingredient section the recipe is the one of the document without
    the item.  The parse does not fail and nothing is recorded about the
    item. *)
Theorem nameless_item_is_dropped : forall item,
  collected_name item = [] ->
  parseIngredient item = None
  /\ (forall pre post,
        parseIngredients (gast.List (pre ++ item :: post))
        = parseIngredients (gast.List (pre ++ post)))
  /\ (forall meta b ingr pre post rest,
        Forall nonbreak meta -> isThematicBreak b = true -> Forall nonbreak ingr ->
        Transform (meta ++ b :: ingr ++ gast.List (pre ++ item :: post) :: rest)
        = Transform (meta ++ b :: ingr ++ gast.List (pre ++ post) :: rest)).
Proof.
  intros item H. pose proof (parseIngredient_nameless item H) as Hn.
  split; [exact Hn|].
  assert (Hl : forall pre post,
             parseIngredients (gast.List (pre ++ item :: post))
             = parseIngredients (gast.List (pre ++ post))).
  { intros pre post. unfold parseIngredients. cbn [node_children gast.List].
    now apply parseIngredients_items_drop. }
  split; [exact Hl|].
  intros meta b ingr pre post rest Hm Hb Hi. unfold Transform. f_equal.
  replace (meta ++ b :: ingr ++ gast.List (pre ++ item :: post) :: rest)
    with ((meta ++ b :: ingr) ++ gast.List (pre ++ item :: post) :: rest)
    by (rewrite <- app_assoc; reflexivity).
  replace (meta ++ b :: ingr ++ gast.List (pre ++ post) :: rest)
    with ((meta ++ b :: ingr) ++ gast.List (pre ++ post) :: rest)
    by (rewrite <- app_assoc; reflexivity).
  rewrite !(run_app (meta ++ b :: ingr)). cbn [fold_left]. f_equal.
  destruct (in_ingredient_section meta b ingr Hm Hb Hi) as [F1 F2].
  rewrite !step_ingredient_list by assumption. now rewrite Hl.
Qed.

Lemma nameless_item_is_dropped_witness :
  collected_name Examples.nameless_item = []
  /\ parseIngredient Examples.nameless_item = None
  /\ Transform (Examples.nameless_doc true) = Transform (Examples.nameless_doc false).
Proof.
  assert (H : collected_name Examples.nameless_item = []) by reflexivity.
  destruct (nameless_item_is_dropped Examples.nameless_item H) as (E1 & _ & E3).
  split; [exact H|]. split; [exact E1|].
  assert (Hm : Forall nonbreak [gast.Heading 1 [Examples.T "T"]])
    by (repeat constructor).
  exact (E3 [gast.Heading 1 [Examples.T "T"]] gast.ThematicBreak []
            [Examples.plain_item "salt"] [Examples.plain_item "pepper"] []
            Hm eq_refl (Forall_nil _)).
Defined.

(** C8 as stated fails: the item [- *2* <br>] has a name that is empty
    after trimming and is kept, with the empty name; and where an item is
    dropped the whole result of the parse is the same as without it, so no
    warning has been recorded. *)
Lemma blank_name_is_kept_and_nothing_is_recorded :
  parseIngredient Examples.blank_name_item
  = Some (mkIngredient [] None (Some (mkAmount (str "2") None)))
  /\ TrimSpace (collected_name Examples.blank_name_item) = []
  /\ Transform (Examples.nameless_doc true) = Transform (Examples.nameless_doc false).
Proof. repeat split. Qed.

(** C7, as the code has it.  [*2 1/4 cups* all-purpose flour] parses to the
    name "all-purpose flour" without link and with the amount of factor
    "2 1/4" (the text, not a number) and unit "cups"; the amount keeps no
    original text.  [[pie crust](./pie-crust.md)] parses to the name
    "pie crust" with link "./pie-crust.md" and no amount. *)
Theorem ingredient_line_examples :
  parseIngredient Examples.flour_item
  = Some (mkIngredient (str "all-purpose flour") None
            (Some (mkAmount (str "2 1/4") (Some (str "cups")))))
  /\ parseIngredient Examples.pie_crust_item
     = Some (mkIngredient (str "pie crust") (Some (str "./pie-crust.md")) None).
Proof. split; reflexivity. Qed.

(** C7 as stated fails: the amount of the flour item has the factor
    "2 1/4", which is neither the numeral 2.25 nor the original text
    "2 1/4 cups"; its only other field is the unit. *)
Lemma flour_amount_is_its_text :
  option_map amount (parseIngredient Examples.flour_item)
  = Some (Some (mkAmount (str "2 1/4") (Some (str "cups"))))
  /\ str "2 1/4" <> str "2.25"
  /\ str "2 1/4" <> str "2 1/4 cups".
Proof. split; [reflexivity|]. split; discriminate. Qed.

(** *** Ingredient groups *)

(** X1.  [addIngredientGroup] pops the stack while the group on top has a level
    greater than or equal to the new group's, makes the new group a child of
    the group then on top, or a top-level group when the stack is empty, and
    pushes it. *)
Lemma addIngredientGroup_pops : forall h group stack topLevel,
  addIngredientGroup_loop h group stack topLevel
  = match drop_while (fun p => Level (deref h p) >=? Level (deref h group)) stack with
    | [] => (h, [group], topLevel ++ [group])
    | parent :: below =>
        (AppendChild h parent (ChildGroup group), group :: parent :: below, topLevel)
    end.
Proof.
  intros h group stack topLevel. induction stack as [|parent below IH];
    cbn [addIngredientGroup_loop drop_while]; [reflexivity|].
  rewrite Z.gtb_ltb, Z.geb_leb, Z.ltb_antisym.
  destruct (Level (deref h group) <=? Level (deref h parent)); cbn [negb];
    [exact IH | reflexivity].
Qed.

(** The extension parser passes over a third or later thematic break: it
    starts no section and adds nothing to the instructions. *)
Lemma later_break_is_passed_over : forall st,
  firstDividerFound st = true -> secondDividerFound st = true ->
  step st gast.ThematicBreak = st.
Proof.
  intros st H1 H2. unfold step. cbn [node_kind gast.ThematicBreak].
  rewrite H1, H2. reflexivity.
Qed.

Lemma later_break_is_passed_over_witness :
  step (run [gast.ThematicBreak; gast.ThematicBreak]) gast.ThematicBreak
  = run [gast.ThematicBreak; gast.ThematicBreak].
Proof.
  exact (later_break_is_passed_over
           (run [gast.ThematicBreak; gast.ThematicBreak]) eq_refl eq_refl).
Defined.

Lemma addIngredientGroup_loop_stack : forall h group stack topLevel,
  snd (fst (addIngredientGroup_loop h group stack topLevel)) <> [].
Proof.
  intros h group stack topLevel. induction stack as [|parent below IH];
    cbn [addIngredientGroup_loop]; [discriminate|].
  destruct (_ >? _); [discriminate | exact IH].
Qed.

(** Once a group is open the stack stays non-empty and there is no
    ingredient list node. *)
Lemma group_open_kept : forall st n,
  ingredientGroupStack st <> [] /\ currentIngredientList st = None ->
  ingredientGroupStack (step st n) <> []
  /\ currentIngredientList (step st n) = None.
Proof.
  intros st [k cs] [Hs Hc].
  assert (G : forall g h,
             ingredientGroupStack (addIngredientGroup st g h) <> []
             /\ currentIngredientList (addIngredientGroup st g h) = None).
  { intros g h. unfold addIngredientGroup.
    pose proof (addIngredientGroup_loop_stack h g (ingredientGroupStack st)
                  (topLevelGroups st)) as L.
    destruct (addIngredientGroup_loop _ _ _ _) as [[h' s'] t']. cbn in *. auto. }
  assert (A : forall ings,
             ingredientGroupStack (add_ingredients st ings) <> []
             /\ currentIngredientList (add_ingredients st ings) = None).
  { intros ings. unfold add_ingredients.
    destruct (ingredientGroupStack st) eqn:E; [congruence|]. cbn.
    split; [discriminate | exact Hc]. }
  destruct k; step_cases; auto.
Qed.

Lemma fold_group_open_kept : forall l st,
  ingredientGroupStack st <> [] /\ currentIngredientList st = None ->
  ingredientGroupStack (fold_left step l st) <> []
  /\ currentIngredientList (fold_left step l st) = None.
Proof.
  induction l as [|n l IH]; intros st H; cbn [fold_left]; [exact H|].
  apply IH. now apply group_open_kept.
Qed.

Lemma group_heading_opens : forall st level cs,
  level <> 1 -> firstDividerFound st = true -> secondDividerFound st = false ->
  ingredientGroupStack (step st (gast.Heading level cs)) <> []
  /\ currentIngredientList (step st (gast.Heading level cs)) = None.
Proof.
  intros st level cs Hl H1 H2. unfold step. cbn [node_kind gast.Heading].
  apply Z.eqb_neq in Hl. rewrite Hl, H1, H2. cbn [andb negb].
  unfold NewIngredientGroup, addIngredientGroup.
  match goal with
  | |- context [addIngredientGroup_loop ?h ?g ?s ?t] =>
      pose proof (addIngredientGroup_loop_stack h g s t) as L;
      destruct (addIngredientGroup_loop h g s t) as [[h' s'] t']
  end.
  cbn in *. auto.
Qed.

(** X5.  In the ingredient section a heading of a level other than 1 leaves
    the recipe without any ungrouped ingredient list, whatever lists came
    before it and whatever follows. *)
Theorem group_heading_loses_ungrouped : forall meta b ingr level cs rest,
  Forall nonbreak meta -> isThematicBreak b = true -> Forall nonbreak ingr ->
  level <> 1 ->
  existsb isIngredientList
    (recipe_children (Transform (meta ++ b :: ingr ++ gast.Heading level cs :: rest)))
  = false.
Proof.
  intros meta b ingr level cs rest Hm Hb Hi Hl.
  replace (meta ++ b :: ingr ++ gast.Heading level cs :: rest)
    with ((meta ++ b :: ingr) ++ gast.Heading level cs :: rest)
    by (rewrite <- app_assoc; reflexivity).
  unfold Transform. rewrite run_app. cbn [fold_left].
  destruct (in_ingredient_section meta b ingr Hm Hb Hi) as [F1 F2].
  destruct (fold_group_open_kept rest _
              (group_heading_opens _ level cs Hl F1 F2)) as [_ Hc].
  set (st := fold_left step rest _) in *.
  unfold build. rewrite Hc. cbn [recipe_children app existsb isIngredientList].
  rewrite existsb_app.
  replace (existsb isIngredientList (map IngredientGroupNode (topLevelGroups st)))
    with false
    by (induction (topLevelGroups st) as [|p l IH]; [reflexivity | exact IH]).
  destruct (instructionParts st); reflexivity.
Qed.

Lemma group_heading_loses_ungrouped_witness :
  existsb isIngredientList (recipe_children (Transform Examples.grouped_doc)) = false.
Proof.
  assert (Hm : Forall nonbreak [gast.Heading 1 [Examples.T "Title"]])
    by (repeat constructor).
  assert (Hi : Forall nonbreak [gast.List [Examples.plain_item "ingredient 0"]])
    by (repeat constructor).
  assert (Hl : 2 <> 1) by discriminate.
  exact (group_heading_loses_ungrouped
           [gast.Heading 1 [Examples.T "Title"]] gast.ThematicBreak
           [gast.List [Examples.plain_item "ingredient 0"]] 2
           [Examples.T "Group 1"] _ Hm eq_refl Hi Hl).
Defined.
(** *** The heap of groups *)

Lemma update_length : forall h p f, List.length (update h p f) = List.length h.
Proof.
  induction h as [|g h IH]; intros [|p] f; cbn; auto.
Qed.

Lemma nth_error_update : forall h p f p',
  nth_error (update h p f) p'
  = if Nat.eqb p' p then option_map f (nth_error h p) else nth_error h p'.
Proof.
  induction h as [|g h IH]; intros [|p] f [|p']; cbn; auto.
  now destruct (Nat.eqb p' p).
Qed.

Lemma AppendChild_ordered : forall h parent c,
  heap_ordered h ->
  (forall q, c = ChildGroup q -> (parent < q < List.length h)%nat) ->
  heap_ordered (AppendChild h parent c).
Proof.
  intros h parent c H Hc p g q Hp Hq. unfold AppendChild in *.
  rewrite update_length. rewrite nth_error_update in Hp.
  destruct (Nat.eqb p parent) eqn:E.
  - apply Nat.eqb_eq in E. subst p.
    destruct (nth_error h parent) as [g0|] eqn:E0; [|discriminate].
    cbn in Hp. injection Hp as <-. cbn in Hq.
    apply in_app_or in Hq as [Hq|[Hq|[]]].
    + exact (H parent g0 q E0 Hq).
    + now apply Hc.
  - exact (H p g q Hp Hq).
Qed.

Lemma add_ingredients_ok : forall st ings,
  pointers_ok st -> pointers_ok (add_ingredients st ings).
Proof.
  intros st ings (Hs & Ht & Ho). unfold add_ingredients.
  destruct (ingredientGroupStack st) as [|cur below] eqn:E.
  - unfold pointers_ok. cbn. auto.
  - assert (F : forall l h,
               heap_ordered h ->
               let h' := fold_left (fun h ing => AppendChild h cur (ChildIngredient ing)) l h in
               List.length h' = List.length h /\ heap_ordered h').
    { induction l as [|i l IH]; intros h Hh; cbn [fold_left]; [auto|].
      destruct (IH (AppendChild h cur (ChildIngredient i))) as [L O].
      - apply AppendChild_ordered; [exact Hh | discriminate].
      - split; [|exact O]. rewrite L. unfold AppendChild. apply update_length. }
    destruct (F ings (heap st) Ho) as [L O].
    unfold pointers_ok. cbn. rewrite L. auto.
Qed.

Lemma addIngredientGroup_loop_ok : forall h group stack topLevel,
  group = Nat.pred (List.length h) -> (0 < List.length h)%nat ->
  heap_ordered h ->
  Forall (fun p => (p < group)%nat) stack ->
  Forall (fun p => (p < List.length h)%nat) topLevel ->
  let '(h', stack', top') := addIngredientGroup_loop h group stack topLevel in
  Forall (fun p => (p < List.length h')%nat) stack'
  /\ Forall (fun p => (p < List.length h')%nat) top'
  /\ heap_ordered h'.
Proof.
  intros h group stack topLevel Hg Hpos Ho.
  induction stack as [|parent below IH]; intros Hs Ht; cbn [addIngredientGroup_loop].
  - split; [|split].
    + constructor; [lia|constructor].
    + apply Forall_app. split; [exact Ht|]. constructor; [lia|constructor].
    + exact Ho.
  - inversion Hs as [|? ? Hp Hb]; subst.
    destruct (_ >? _).
    + unfold AppendChild. rewrite update_length. split; [|split].
      * constructor; [lia|]. eapply Forall_impl; [|exact Hs]. cbv beta. lia.
      * exact Ht.
      * apply AppendChild_ordered; [exact Ho|]. intros q [= <-]. lia.
    + apply IH; assumption.
Qed.

Lemma nth_error_snoc_old : forall {A} (h : list A) x p g,
  nth_error (h ++ [x]) p = Some g ->
  (p < List.length h)%nat /\ nth_error h p = Some g \/ p = List.length h /\ g = x.
Proof.
  intros A h x p g H. destruct (Nat.lt_ge_cases p (List.length h)) as [L|L].
  - left. split; [exact L|]. now rewrite nth_error_app1 in H.
  - right. rewrite nth_error_app2 in H by exact L.
    destruct (p - List.length h)%nat as [|k] eqn:E.
    + cbn in H. injection H as <-. split; [lia|reflexivity].
    + cbn in H. destruct k; discriminate.
Qed.

Lemma step_ok : forall st n, pointers_ok st -> pointers_ok (step st n).
Proof.
  intros st [k cs] H.
  assert (G : forall title level,
             pointers_ok (addIngredientGroup st (List.length (heap st))
                            (heap st ++ [mkIngredientGroup title level []]))).
  { intros t l. destruct H as (Hs & Ht & Ho). unfold addIngredientGroup.
    pose proof (addIngredientGroup_loop_ok
                  (heap st ++ [mkIngredientGroup t l []]) (List.length (heap st))
                  (ingredientGroupStack st) (topLevelGroups st)) as L.
    destruct (addIngredientGroup_loop _ _ _ _) as [[h' s'] t'].
    unfold pointers_ok. cbn. apply L.
    - rewrite length_app. cbn. lia.
    - rewrite length_app. cbn. lia.
    - intros p g q Hp Hq. rewrite length_app. cbn [List.length].
      apply nth_error_snoc_old in Hp as [[Lp Hp]|[-> ->]].
      + pose proof (Ho p g q Hp Hq). lia.
      + destruct Hq.
    - exact Hs.
    - eapply Forall_impl; [|exact Ht]. cbv beta. intros p Hp.
      rewrite length_app. cbn. lia. }
  pose proof (add_ingredients_ok st) as A.
  destruct k; unfold step, NewIngredientGroup; cbn [node_kind];
    repeat match goal with
           | |- context [if ?c then _ else _] => destruct c
           end;
    first [exact H | apply G | apply A; exact H].
Qed.

Lemma run_ok : forall doc, pointers_ok (run doc).
Proof.
  intros doc. unfold run.
  assert (I : pointers_ok init).
  { unfold pointers_ok, init. cbn. split; [constructor | split; [constructor|]].
    intros [|p] g q Hp; discriminate. }
  revert I. generalize init. induction doc as [|n doc IH]; intros st I; cbn [fold_left];
    [exact I|]. apply IH. now apply step_ok.
Qed.

(** With ordered pointers the depth below [p] is less than the number of
    cells after it: more fuel than that changes nothing. *)
Lemma buildIngredientGroup_fuel : forall h, heap_ordered h ->
  forall fuel fuel' p,
    (List.length h - p <= fuel)%nat -> (List.length h - p <= fuel')%nat ->
    buildIngredientGroup fuel h p = buildIngredientGroup fuel' h p.
Proof.
  intros h Ho. induction fuel as [|fuel IH]; intros fuel' p H H'.
  - destruct fuel'; cbn [buildIngredientGroup]; [reflexivity|].
    unfold deref. rewrite (nth_overflow h) by lia. reflexivity.
  - destruct fuel' as [|fuel'].
    + cbn [buildIngredientGroup]. unfold deref. rewrite (nth_overflow h) by lia.
      reflexivity.
    + cbn [buildIngredientGroup]. f_equal.
      destruct (Nat.lt_ge_cases p (List.length h)) as [L|L].
      * unfold deref. destruct (nth_error h p) as [g|] eqn:E;
          [|apply nth_error_None in E; lia].
        rewrite (nth_error_nth h p _ E).
        assert (C : forall q, In (ChildGroup q) (group_children g) ->
                              (p < q < List.length h)%nat)
          by (intros q; apply (Ho p g q E)).
        induction (group_children g) as [|c cs IHc]; [reflexivity|].
        cbn [flat_map]. rewrite IHc by (intros q Hq; apply C; now right).
        destruct c as [i|q]; [reflexivity|].
        rewrite (IH fuel' q); [reflexivity| |];
          pose proof (C q (or_introl eq_refl)); lia.
      * unfold deref. rewrite (nth_overflow h) by lia. reflexivity.
Qed.

(** X6.  On the heap a parse leaves, [buildIngredientGroup] has fuel
    enough with the heap's size: more fuel gives the same group. *)
Theorem export_needs_no_more_fuel : forall doc p k,
  buildIngredientGroup (List.length (heap (run doc)) + k) (heap (run doc)) p
  = buildIngredientGroup (List.length (heap (run doc))) (heap (run doc)) p.
Proof.
  intros doc p k. destruct (run_ok doc) as (_ & _ & Ho).
  apply buildIngredientGroup_fuel; [exact Ho | lia | lia].
Qed.

(** C3 on [list, h2, list, h3, list, h2, list].  The groups nest as the
    specification says (levels 2, 3 below it, 2 beside it), but the
    ingredient of the first list is lost: it is in [currentIngredientList]
    after the list, the first heading resets that variable to nil in
    [addIngredientGroup] before the list node was attached to the recipe,
    and the recipe ends up without any ungrouped ingredient. *)
Theorem ungrouped_ingredients_are_lost :
  currentIngredientList (run (firstn 3 Examples.grouped_doc))
  = Some [mkIngredient (str "ingredient 0") None None]
  /\ currentIngredientList (run (firstn 4 Examples.grouped_doc)) = None
  /\ Transform Examples.grouped_doc
     = mkRecipe
         [ RecipeMetadata (str "Title") [] None None;
           IngredientGroupNode 0%nat; IngredientGroupNode 2%nat ]
         [ mkIngredientGroup (str "Group 1") 2
             [ ChildIngredient (mkIngredient (str "ingredient 1") None None);
               ChildGroup 1%nat ];
           mkIngredientGroup (str "Subgroup 1.1") 3
             [ ChildIngredient (mkIngredient (str "ingredient 3") None None) ];
           mkIngredientGroup (str "Group 2") 2
             [ ChildIngredient (mkIngredient (str "ingredient 7") None None) ] ]
  /\ data_Ingredients (buildRecipeData (Transform Examples.grouped_doc)) = []
  /\ data_IngredientGroups (buildRecipeData (Transform Examples.grouped_doc))
     = [ mkGroupData (str "Group 1")
           [mkIngredient (str "ingredient 1") None None]
           [mkGroupData (str "Subgroup 1.1")
              [mkIngredient (str "ingredient 3") None None] []];
         mkGroupData (str "Group 2")
           [mkIngredient (str "ingredient 7") None None] [] ].
Proof. repeat split. Qed.

End ExtensionFacts.

(* ------------------------------------------------------------------ *)
(** ** The amount parser of the extension *)

Module AmountFacts.
Import Extension Literal.

Lemma drop_while_all : forall {A} (p : A -> bool) a l,
  Forall (fun x => p x = true) a -> drop_while p (a ++ l) = drop_while p l.
Proof.
  intros A p a l H. induction H as [|x a Hx Ha IH]; cbn; [reflexivity|].
  now rewrite Hx.
Qed.

Lemma take_while_all : forall {A} (p : A -> bool) l,
  Forall (fun x => p x = true) l -> take_while p l = l.
Proof.
  intros A p l H. induction H as [|x l Hx Hl IH]; cbn; [reflexivity|].
  now rewrite Hx, IH.
Qed.

Lemma last_app_nonempty : forall {A} (a b : list A) d,
  b <> [] -> last (a ++ b) d = last b d.
Proof.
  intros A a b d Hb. induction a as [|x a IH]; [reflexivity|].
  cbn [app]. destruct (a ++ b) eqn:E.
  - destruct a; destruct b; cbn in E; congruence.
  - exact IH.
Qed.

Lemma hd_app_nonempty : forall {A} (a b : list A) d,
  a <> [] -> hd d (a ++ b) = hd d a.
Proof. intros A [|x a] b d H; [congruence|reflexivity]. Qed.

(** [TrimSpace] strips the padding of a solid text and nothing else. *)
Lemma TrimSpace_solid : forall pre t post,
  blank pre -> blank post -> solid t -> TrimSpace (pre ++ t ++ post) = t.
Proof.
  intros pre t post Hpre Hpost (Hne & Hh & Hl). unfold TrimSpace.
  rewrite drop_while_all by exact Hpre.
  destruct t as [|x t]; [congruence|]. cbn [hd] in Hh.
  cbn [app drop_while]. rewrite Hh.
  change (x :: t ++ post) with ((x :: t) ++ post).
  rewrite rev_app_distr.
  rewrite drop_while_all by (apply Forall_rev; exact Hpost).
  destruct (exists_last Hne) as (t' & y & E). rewrite E in *.
  rewrite last_last in Hl. rewrite rev_app_distr. cbn [rev app drop_while].
  rewrite Hl. cbn [rev]. now rewrite rev_involutive.
Qed.

Lemma TrimSpace_solid_id : forall t, solid t -> TrimSpace t = t.
Proof.
  intros t H.
  pose proof (TrimSpace_solid [] t [] (Forall_nil _) (Forall_nil _) H) as E.
  cbn [app] in E. now rewrite app_nil_r in E.
Qed.

Lemma digit_not_space : forall r, ascii_digit r = true -> IsSpace r = false.
Proof.
  intros r H. unfold ascii_digit, in_range in H. apply andb_prop in H as [H1 H2].
  apply Z.leb_le in H1, H2. unfold IsSpace, MaxLatin1.
  replace (0 <=? r) with true by (symmetry; apply Z.leb_le; lia).
  replace (r <=? 255) with true by (symmetry; apply Z.leb_le; lia).
  cbn [andb].
  repeat match goal with
         | |- context [r =? ?k] =>
             replace (r =? k) with false by (symmetry; apply Z.eqb_neq; lia)
         end.
  reflexivity.
Qed.

Lemma digit_in_class : forall r, ascii_digit r = true -> numberClass r = true.
Proof. intros r H. unfold numberClass. now rewrite H. Qed.

Lemma digits_text_digit : forall ds,
  Forall (fun d => 0 <= d <= 9) ds ->
  Forall (fun r => ascii_digit r = true) (digits_text ds).
Proof.
  intros ds H. unfold digits_text. apply Forall_map.
  eapply Forall_impl; [|exact H]. intros d Hd. cbv beta in *.
  unfold ascii_digit, in_range. apply andb_true_intro.
  split; apply Z.leb_le; lia.
Qed.

Lemma digits_text_nonempty : forall ds, ds <> [] -> digits_text ds <> [].
Proof. intros [|d ds] H; [congruence|discriminate]. Qed.

Lemma Forall_hd : forall {A} (P : A -> Prop) l d, l <> [] -> Forall P l -> P (hd d l).
Proof. intros A P [|x l] d Hne H; [congruence|]. now inversion H. Qed.

Lemma Forall_last : forall {A} (P : A -> Prop) l d, l <> [] -> Forall P l -> P (last l d).
Proof.
  intros A P l d Hne H. destruct (exists_last Hne) as (l' & y & ->).
  rewrite last_last. apply Forall_app in H as [_ H]. now inversion H.
Qed.

(** A text between two digit runs is solid and, when what is between is of
    the number class, wholly of that class. *)
Lemma between_digits : forall a mid b,
  wf_digits a -> wf_digits b ->
  Forall (fun r => numberClass r = true) mid ->
  let t := digits_text a ++ mid ++ digits_text b in
  solid t /\ Forall (fun r => numberClass r = true) t.
Proof.
  intros a mid b [Ha Da] [Hb Db] Hmid t.
  pose proof (digits_text_digit a Da) as Ta.
  pose proof (digits_text_digit b Db) as Tb.
  pose proof (digits_text_nonempty a Ha) as Na.
  pose proof (digits_text_nonempty b Hb) as Nb.
  split; [split; [|split]|].
  - unfold t. intros E. apply app_eq_nil in E as [E _]. contradiction.
  - unfold t. rewrite hd_app_nonempty by exact Na.
    apply digit_not_space. now apply (Forall_hd _ _ 0 Na Ta).
  - unfold t. rewrite app_assoc, last_app_nonempty by exact Nb.
    apply digit_not_space. now apply (Forall_last _ _ 0 Nb Tb).
  - unfold t. repeat (apply Forall_app; split); auto;
      (eapply Forall_impl; [|eassumption]); intros r; apply digit_in_class.
Qed.

Lemma digits_solid : forall a,
  wf_digits a ->
  solid (digits_text a) /\ Forall (fun r => numberClass r = true) (digits_text a).
Proof.
  intros a [Ha Da].
  pose proof (digits_text_digit a Da) as Ta.
  pose proof (digits_text_nonempty a Ha) as Na.
  split; [split; [|split]|]; auto.
  - apply digit_not_space. now apply (Forall_hd _ _ 0 Na Ta).
  - apply digit_not_space. now apply (Forall_last _ _ 0 Na Ta).
  - eapply Forall_impl; [|exact Ta]. intros r; apply digit_in_class.
Qed.

(** On a solid text of the number class [parseAmount] returns the text
    itself as factor and no unit. *)
Lemma parseAmount_number : forall pre t post,
  blank pre -> blank post -> solid t ->
  Forall (fun r => numberClass r = true) t ->
  parseAmount (pre ++ t ++ post) = (t, None).
Proof.
  intros pre t post Hpre Hpost Hs Hc. unfold parseAmount.
  rewrite (TrimSpace_solid pre t post Hpre Hpost Hs).
  rewrite (take_while_all numberClass t Hc).
  replace (is_empty t) with false
    by (destruct t; [destruct Hs; congruence | reflexivity]).
  rewrite skipn_all. rewrite (TrimSpace_solid_id t Hs). reflexivity.
Qed.

Lemma vulgar_not_number : forall c,
  In c (map fst vulgar_fractions) -> numberClass c = false /\ IsSpace c = false.
Proof.
  intros c H. cbn in H.
  repeat (destruct H as [H|H]; [subst c; split; reflexivity|]).
  contradiction.
Qed.

(** C1, as the code has it.  For a span whose trimmed content is one of the
    six literal forms, [parseAmount] returns that literal's text unchanged as
    the factor, and no unit.  The factor is a string: no number is computed
    from it. *)
Theorem parseAmount_keeps_literal_text : forall l pre post,
  wf_literal l -> blank pre -> blank post ->
  parseAmount (pre ++ literal_text l ++ post) = (literal_text l, None).
Proof.
  intros l pre post Hwf Hpre Hpost. destruct l as [n|sep ip fp|n m|w ws n m|c];
    cbn [wf_literal literal_text] in *.
  - destruct (digits_solid n Hwf). now apply parseAmount_number.
  - destruct Hwf as (Hsep & Hip & Hfp).
    destruct (between_digits ip [sep] fp Hip Hfp) as [Hs Hc].
    { constructor; [|constructor]. destruct Hsep; subst; reflexivity. }
    now apply parseAmount_number.
  - destruct Hwf as (Hn & Hm & _).
    destruct (between_digits n [47] m Hn Hm) as [Hs Hc].
    { constructor; [reflexivity|constructor]. }
    now apply parseAmount_number.
  - destruct Hwf as (Hw & _ & Hws & Hn & Hm & _).
    destruct (between_digits w (ws ++ digits_text n ++ [47]) m Hw Hm) as [Hs Hc].
    { repeat (apply Forall_app; split).
      - eapply Forall_impl; [|exact Hws]. intros r Hr. unfold numberClass.
        rewrite Hr. now rewrite !orb_true_r.
      - apply digits_solid. exact Hn.
      - constructor; [reflexivity|constructor]. }
    rewrite <- !app_assoc in Hs, Hc. cbn [app] in Hs, Hc.
    now apply parseAmount_number.
  - destruct (vulgar_not_number c Hwf) as [Hc Hsp].
    unfold parseAmount.
    rewrite (TrimSpace_solid pre [c] post Hpre Hpost)
      by (split; [discriminate | split; exact Hsp]).
    cbn [take_while]. rewrite Hc. reflexivity.
Qed.
Lemma parseAmount_keeps_literal_text_witness :
  wf_literal (LMixed [2] [32] [1] [4]) /\ blank [32] /\ blank [32; 10]
  /\ parseAmount ([32] ++ literal_text (LMixed [2] [32] [1] [4]) ++ [32; 10])
     = (str "2 1/4", None).
Proof.
  assert (D : forall d, 0 <= d <= 9 -> wf_digits [d]).
  { intros d Hd. split; [discriminate | repeat constructor; lia]. }
  assert (W : wf_literal (LMixed [2] [32] [1] [4])).
  { cbn [wf_literal]. split; [apply D; lia|]. split; [discriminate|].
    split; [repeat constructor|]. split; [apply D; lia|].
    split; [apply D; lia | discriminate]. }
  assert (B1 : blank [32]) by (repeat constructor).
  assert (B2 : blank [32; 10]) by (repeat constructor).
  split; [exact W|]. split; [exact B1|]. split; [exact B2|].
  exact (parseAmount_keeps_literal_text (LMixed [2] [32] [1] [4]) [32] [32; 10] W B1 B2).
Defined.

(** C1 as stated fails.  For "2 1/4" the factor is the text "2 1/4" (and
    [parseAmount] of [pkg/recipe.go] gives quantity "2" with unit "1/4"),
    not 2.25; "1/2" and "0.5" denote the same number and get different
    factors, so under no way of writing numbers is the factor the value of
    the literal. *)
Lemma factor_is_not_the_value :
  parseAmount (str "2 1/4") = (str "2 1/4", None)
  /\ Qeq (literal_value (LMixed [2] [32] [1] [4])) (Qmake 9 4)
  /\ Recipemd.parseAmount (str "2 1/4") = Recipemd.mkAmount (str "2") (str "1/4")
  /\ Qeq (literal_value (LFraction [1] [2])) (literal_value (LDecimal 46 [0] [5]))
  /\ fst (parseAmount (literal_text (LFraction [1] [2])))
     <> fst (parseAmount (literal_text (LDecimal 46 [0] [5])))
  /\ ~ (exists enc : Q -> gostring,
          (forall p q, Qeq p q -> enc p = enc q)
          /\ forall l, wf_literal l ->
                fst (parseAmount (literal_text l)) = enc (literal_value l)).
Proof.
  assert (D : forall d, 0 <= d <= 9 -> wf_digits [d]).
  { intros d Hd. split; [discriminate | repeat constructor; lia]. }
  assert (V : Qeq (literal_value (LFraction [1] [2]))
                  (literal_value (LDecimal 46 [0] [5]))) by reflexivity.
  assert (N : fst (parseAmount (literal_text (LFraction [1] [2])))
              <> fst (parseAmount (literal_text (LDecimal 46 [0] [5]))))
    by (vm_compute; discriminate).
  split; [reflexivity|]. split; [reflexivity|]. split; [reflexivity|].
  split; [exact V|]. split; [exact N|].
  intros (enc & Henc & H). apply N.
  rewrite (H (LFraction [1] [2])), (H (LDecimal 46 [0] [5])).
  - apply Henc. exact V.
  - cbn [wf_literal]. split; [now left|]. split; apply D; lia.
  - cbn [wf_literal]. split; [apply D; lia|]. split; [apply D; lia | discriminate].
Qed.

End AmountFacts.

(* ------------------------------------------------------------------ *)
(** ** The comma splitter [splitTags] *)

Module CommaFacts.
Import Extension CommaSplit.

Lemma flush_kept : forall cur tags, flush cur tags = tags ++ kept [cur].
Proof.
  intros cur tags. unfold flush, kept. cbn [map filter].
  destruct (is_empty (TrimSpace cur)); cbn [negb]; [now rewrite app_nil_r|reflexivity].
Qed.

Lemma kept_cons : forall cur l, kept (cur :: l) = kept [cur] ++ kept l.
Proof.
  intros cur l. unfold kept. cbn [map filter].
  destruct (negb (is_empty (TrimSpace cur))); reflexivity.
Qed.

Lemma boundary_at : forall done r rest,
  boundary IsDigit (done ++ r :: rest) (List.length done)
  = (r =? comma)
    && negb (match last_rune done with Some p => IsDigit p | None => false end
             && match rest with n :: _ => IsDigit n | [] => false end).
Proof.
  intros done r rest. unfold boundary.
  rewrite nth_error_app2, Nat.sub_diag by lia. cbn [nth_error].
  f_equal. f_equal. f_equal.
  - destruct done as [|d0 done0] eqn:E; [reflexivity|]. rewrite <- E.
    assert (Hne : done <> []) by (rewrite E; discriminate).
    destruct (exists_last Hne) as (d' & x & Ex). rewrite Ex.
    unfold last_rune. rewrite rev_app_distr. cbn [rev app].
    rewrite length_app. cbn [List.length]. rewrite Nat.add_1_r.
    unfold digit_at. rewrite <- app_assoc. cbn [app].
    rewrite nth_error_app2, Nat.sub_diag by lia. reflexivity.
  - unfold digit_at.
    replace (S (List.length done)) with (List.length (done ++ [r]))
      by (rewrite length_app; cbn; lia).
    replace (done ++ r :: rest) with ((done ++ [r]) ++ rest)
      by (rewrite <- app_assoc; reflexivity).
    rewrite nth_error_app2, Nat.sub_diag by lia. now destruct rest.
Qed.

Lemma last_rune_snoc : forall done r, last_rune (done ++ [r]) = Some r.
Proof. intros. unfold last_rune. now rewrite rev_app_distr. Qed.

Lemma splitTags_loop_cut : forall rest done cur tags,
  splitTags_loop (last_rune done) rest cur tags
  = tags ++ kept (cut IsDigit (done ++ rest) (List.length done) rest cur).
Proof.
  induction rest as [|r rest IH]; intros done cur tags.
  - cbn [splitTags_loop cut]. apply flush_kept.
  - cbn [splitTags_loop cut]. rewrite boundary_at.
    replace (done ++ r :: rest) with ((done ++ [r]) ++ rest)
      by (rewrite <- app_assoc; reflexivity).
    replace (S (List.length done)) with (List.length (done ++ [r]))
      by (rewrite length_app; cbn; lia).
    rewrite <- (last_rune_snoc done r).
    destruct (r =? comma); cbn [andb].
    + destruct (_ && _); cbn [negb].
      * apply IH.
      * rewrite IH, flush_kept, (kept_cons cur (cut _ _ _ _ _)), app_assoc.
        reflexivity.
    + apply IH.
Qed.

Lemma splitTags_runs : forall text, splitTags text = kept (runs IsDigit text).
Proof.
  intros text. unfold splitTags, runs.
  exact (splitTags_loop_cut text [] [] []).
Qed.

(** Cutting removes the boundary commas and nothing else. *)
Lemma cut_nonempty : forall text rest i cur, cut IsDigit text i rest cur <> [].
Proof.
  intros text rest. induction rest as [|r rest IH]; intros i cur; cbn [cut].
  - discriminate.
  - destruct (boundary IsDigit text i); [discriminate | apply IH].
Qed.

Lemma Join_cons : forall p rest sep, rest <> [] -> Join (p :: rest) sep = p ++ sep ++ Join rest sep.
Proof. intros p [|q rest] sep H; [congruence|reflexivity]. Qed.

Lemma Join_cut : forall rest done cur,
  Join (cut IsDigit (done ++ rest) (List.length done) rest cur) [comma] = cur ++ rest.
Proof.
  induction rest as [|r rest IH]; intros done cur; cbn [cut].
  - cbn. now rewrite app_nil_r.
  - pose proof (boundary_at done r rest) as B.
    replace (done ++ r :: rest) with ((done ++ [r]) ++ rest) in *
      by (rewrite <- app_assoc; reflexivity).
    replace (S (List.length done)) with (List.length (done ++ [r]))
      by (rewrite length_app; cbn; lia).
    destruct (boundary _ _ _).
    + rewrite Join_cons by apply cut_nonempty. rewrite IH.
      symmetry in B. apply andb_prop in B as [B _]. apply Z.eqb_eq in B. now subst r.
    + rewrite IH. now rewrite <- app_assoc.
Qed.

Lemma Join_runs : forall text, Join (runs IsDigit text) [comma] = text.
Proof. intros text. exact (Join_cut text [] []). Qed.
Lemma boundary_agree : forall text i,
  Forall (fun r => IsDigit r = ascii_digit r) text ->
  boundary IsDigit text i = boundary ascii_digit text i.
Proof.
  intros text i H. unfold boundary.
  assert (D : forall j, digit_at IsDigit text j = digit_at ascii_digit text j).
  { intros [j|]; [|reflexivity]. unfold digit_at.
    destruct (nth_error text j) as [r|] eqn:E; [|reflexivity].
    apply nth_error_In in E. rewrite Forall_forall in H. now apply H. }
  destruct (nth_error text i); [|reflexivity]. now rewrite !D.
Qed.

Lemma cut_agree : forall text rest i cur,
  Forall (fun r => IsDigit r = ascii_digit r) text ->
  cut IsDigit text i rest cur = cut ascii_digit text i rest cur.
Proof.
  intros text rest. induction rest as [|r rest IH]; intros i cur H; cbn [cut];
    [reflexivity|].
  rewrite (boundary_agree text i H). now rewrite !IH.
Qed.

Lemma latin1_digits : forall text,
  Forall (fun r => r <= MaxLatin1) text ->
  Forall (fun r => IsDigit r = ascii_digit r) text.
Proof.
  intros text H. eapply Forall_impl; [|exact H]. intros r Hr. cbv beta in *.
  unfold IsDigit. apply Z.leb_le in Hr. now rewrite Hr.
Qed.

(** On Latin-1 text only the ASCII digits are digits. *)
Lemma splitTags_latin1 : forall text,
  Forall (fun r => r <= MaxLatin1) text ->
  splitTags text = kept (runs ascii_digit text).
Proof.
  intros text H. rewrite splitTags_runs. unfold runs.
  now rewrite (cut_agree text text 0%nat [] (latin1_digits text H)).
Qed.
(** C2, as the code has it.  [splitTags] cuts the text at exactly the
    commas that do not stand between two decimal digits, digits being those
    of [unicode.IsDigit] (the ASCII digits and the other digits of Unicode);
    the runs, joined by commas, give the text back; each run is trimmed and
    the empty results are left out.  [parseYields] splits with the same
    function.  On text within Latin-1 the digits are the ASCII digits.
    So "4 servings, 1,5 kg" gives the two segments
    "4 servings" and "1,5 kg", and "tag1, tag2, tag3" gives three. *)
Theorem splitTags_cuts_where_no_digits_meet :
  (forall text,
      splitTags text = kept (runs IsDigit text)
      /\ Join (runs IsDigit text) [comma] = text
      /\ parseYields text
         = map (fun part => let '(factor, unit) := parseAmount (TrimSpace part) in
                            mkYield factor unit)
               (kept (runs IsDigit text)))
  /\ (forall text,
        Forall (fun r => r <= MaxLatin1) text ->
        splitTags text = kept (runs ascii_digit text))
  /\ splitTags (str "4 servings, 1,5 kg") = [str "4 servings"; str "1,5 kg"]
  /\ splitTags (str "tag1, tag2, tag3") = [str "tag1"; str "tag2"; str "tag3"].
Proof.
  split; [|split; [exact splitTags_latin1 | split; reflexivity]].
  intros text. split; [apply splitTags_runs|]. split; [apply Join_runs|].
  unfold parseYields. now rewrite splitTags_runs.
Qed.

(** C2 as stated fails.  Between two Arabic-Indic digits, which are not
    ASCII digits, [splitTags] does not split; and [ExtractRecipe] of
    [pkg/recipe.go] splits at every comma, so that the yields
    "4 servings, 1,5 kg" become three. *)
Lemma comma_between_other_digits_is_kept :
  ascii_digit 0x661 = false /\ ascii_digit 0x662 = false
  /\ splitTags [0x661; comma; 0x662] = [[0x661; comma; 0x662]]
  /\ kept (runs ascii_digit [0x661; comma; 0x662]) = [[0x661]; [0x662]]
  /\ splitTags [0x661; comma; 0x662] <> kept (runs ascii_digit [0x661; comma; 0x662])
  /\ Recipemd.Yields (Recipemd.ExtractRecipe (Parser.Transform Examples.yields_doc))
     = [ Recipemd.mkYield (str "4") (str "servings");
         Recipemd.mkYield (str "1") [];
         Recipemd.mkYield (str "5") (str "kg") ].
Proof.
  split; [reflexivity|]. split; [reflexivity|]. split; [reflexivity|].
  split; [reflexivity|]. split; [vm_compute; discriminate | reflexivity].
Qed.

End CommaFacts.

(* ------------------------------------------------------------------ *)
(** ** Export, reconstruction and parse again *)

Module RoundTripFacts.
Import Parser Renderer.

(** C4.  [MarkdownRenderer] writes names and amounts as they are.  The item
    [`*2* x`] (the name "*2* x", no amount) and the item [*2* x] (amount
    "2", name "x") are written as the same line [- *2* x], while their
    exports differ; so whatever parses the text again, the round trip cannot
    give back both exports, and with a parser that reads [- *2* x] as an
    amount and a name it changes the first. *)
Theorem markdown_does_not_tell_name_from_amount :
  Markdown (Transform Examples.code_span_doc)
  = str "# T" ++ [10; 10] ++ str "---" ++ [10; 10] ++ str "- *2* x" ++ [10; 10]
  /\ Markdown (Transform Examples.amount_doc)
     = Markdown (Transform Examples.code_span_doc)
  /\ j_Ingredients (JSON (Transform Examples.code_span_doc))
     = [mkIngredient [] (str "*2* x")]
  /\ j_Ingredients (JSON (Transform Examples.amount_doc))
     = [mkIngredient (str "2") (str "x")]
  /\ (forall reparse,
        ~ (round_trip reparse Examples.code_span_doc
           /\ round_trip reparse Examples.amount_doc))
  /\ (forall reparse,
        reparse (Markdown (Transform Examples.code_span_doc)) = Examples.amount_doc ->
        ~ round_trip reparse Examples.code_span_doc).
Proof.
  assert (M : Markdown (Transform Examples.amount_doc)
              = Markdown (Transform Examples.code_span_doc)) by reflexivity.
  assert (N : compared (JSON (Transform Examples.code_span_doc))
              <> compared (JSON (Transform Examples.amount_doc)))
    by (vm_compute; discriminate).
  split; [reflexivity|]. split; [exact M|].
  split; [reflexivity|]. split; [reflexivity|]. split.
  - intros reparse [R1 R2]. unfold round_trip in R1, R2. rewrite M in R2.
    apply N. rewrite <- R1, <- R2. reflexivity.
  - intros reparse E R. unfold round_trip in R. rewrite E in R.
    apply N. now rewrite <- R.
Qed.
End RoundTripFacts.

(* ================================================================== *)
(** ** The extension parser: what each section keeps *)

Module TransformFacts.
Import Extension ExtensionFacts.

(** *** The title *)

Lemma step_untitled : forall st n,
  titled n = false -> title st = [] -> title (step st n) = [].
Proof.
  intros st [k cs] Hn Ht. unfold titled, isLevel1Heading in Hn. cbn [node_kind] in Hn.
  destruct k; step_cases;
    first [ exact Ht
          | etransitivity; [apply addIngredientGroup_fields | exact Ht]
          | etransitivity; [apply add_ingredients_fields | exact Ht]
          | idtac ].
  apply andb_prop in Heqb as [Hl _]. rewrite Hl in Hn. cbn [andb] in Hn.
  unfold set_title. cbn [title].
  destruct (extractText (mkNode (KHeading level) cs)); [reflexivity|discriminate].
Qed.

Lemma fold_untitled : forall l st,
  Forall (fun n => titled n = false) l -> title st = [] ->
  title (fold_left step l st) = [].
Proof.
  induction l as [|n l IH]; intros st H Ht; cbn [fold_left]; [exact Ht|].
  inversion H; subst. apply IH; [assumption|]. now apply step_untitled.
Qed.

Lemma step_titled : forall st n,
  titled n = true -> title st = [] -> title (step st n) = extractText n.
Proof.
  intros st [k cs] Hn Ht. unfold titled, isLevel1Heading in Hn. cbn [node_kind] in Hn.
  destruct k; try discriminate. apply andb_prop in Hn as [Hl He].
  unfold step. cbn [node_kind]. rewrite Hl, Ht. reflexivity.
Qed.

(** X7.  The extension parser takes the title from the first level-1
    heading that has text: headings without text before it set nothing, and
    no later heading replaces it. *)
Theorem first_titled_heading_is_title : forall pre n post,
  Forall (fun m => titled m = false) pre -> titled n = true ->
  data_Title (buildRecipeData (Transform (pre ++ n :: post))) = extractText n.
Proof.
  intros pre n post Hpre Hn. unfold Transform.
  rewrite (proj1 (exported_metadata _)). rewrite run_app. cbn [fold_left].
  assert (E : title (step (run pre) n) = extractText n).
  { apply step_titled; [exact Hn|]. unfold run. now apply fold_untitled. }
  rewrite fold_title_kept; rewrite E; [reflexivity|].
  unfold titled in Hn. apply andb_prop in Hn as [_ Hn].
  destruct (extractText n); [discriminate|congruence].
Qed.

Lemma first_titled_heading_is_title_witness :
  data_Title (buildRecipeData
                (Transform ([gast.Paragraph [Examples.T "Intro"]; gast.Heading 1 []]
                            ++ gast.Heading 1 [Examples.T "Soup"]
                            :: [gast.Heading 1 [Examples.T "Stew"]])))
  = str "Soup".
Proof.
  assert (H : Forall (fun m => titled m = false)
                [gast.Paragraph [Examples.T "Intro"]; gast.Heading 1 []])
    by (repeat constructor).
  exact (first_titled_heading_is_title _ (gast.Heading 1 [Examples.T "Soup"])
           [gast.Heading 1 [Examples.T "Stew"]] H eq_refl).
Defined.

(** *** Nodes that leave no trace *)

Lemma step_ingredient_section_other : forall st n,
  firstDividerFound st = true -> secondDividerFound st = false ->
  ingredient_kind n = false -> step st n = st.
Proof.
  intros st [k cs] H1 H2 Hk. unfold ingredient_kind in Hk. cbn [node_kind] in Hk.
  destruct k; try discriminate; unfold step; cbn [node_kind];
    rewrite ?H1, ?H2; cbn [negb andb];
    repeat match goal with
           | |- context [if ?c then _ else _] => destruct c
           end; reflexivity.
Qed.

(** X9.  Between the two dividers the extension parser reads headings and
    lists only: a paragraph, a code block or any other node there leaves
    the recipe as it is without it. *)
Theorem ingredient_section_keeps_headings_and_lists_only :
  forall meta b ingr n rest,
    Forall nonbreak meta -> isThematicBreak b = true -> Forall nonbreak ingr ->
    ingredient_kind n = false ->
    Transform (meta ++ b :: ingr ++ n :: rest) = Transform (meta ++ b :: ingr ++ rest).
Proof.
  intros meta b ingr n rest Hm Hb Hi Hn. unfold Transform. f_equal.
  replace (meta ++ b :: ingr ++ n :: rest) with ((meta ++ b :: ingr) ++ n :: rest)
    by (rewrite <- app_assoc; reflexivity).
  replace (meta ++ b :: ingr ++ rest) with ((meta ++ b :: ingr) ++ rest)
    by (rewrite <- app_assoc; reflexivity).
  rewrite !(run_app (meta ++ b :: ingr)). cbn [fold_left].
  destruct (in_ingredient_section meta b ingr Hm Hb Hi) as [F1 F2].
  now rewrite step_ingredient_section_other.
Qed.

Lemma ingredient_section_keeps_headings_and_lists_only_witness :
  Transform ([gast.Heading 1 [Examples.T "Soup"]] ++ gast.ThematicBreak
             :: [gast.List [Examples.plain_item "salt"]]
             ++ gast.Paragraph [Examples.T "to taste"]
             :: [gast.List [Examples.plain_item "pepper"]])
  = Transform ([gast.Heading 1 [Examples.T "Soup"]] ++ gast.ThematicBreak
               :: [gast.List [Examples.plain_item "salt"]]
               ++ [gast.List [Examples.plain_item "pepper"]]).
Proof.
  assert (Hm : Forall nonbreak [gast.Heading 1 [Examples.T "Soup"]])
    by (repeat constructor).
  assert (Hi : Forall nonbreak [gast.List [Examples.plain_item "salt"]])
    by (repeat constructor).
  exact (ingredient_section_keeps_headings_and_lists_only
           [gast.Heading 1 [Examples.T "Soup"]] gast.ThematicBreak
           [gast.List [Examples.plain_item "salt"]]
           (gast.Paragraph [Examples.T "to taste"])
           [gast.List [Examples.plain_item "pepper"]] Hm eq_refl Hi eq_refl).
Defined.

(** X8.  In the metadata of a titled document a further heading, of any
    level, and a list are dropped by the extension parser: they set no
    field and do not reach the description. *)
Theorem titled_metadata_drops_headings_and_lists : forall pre n post,
  existsb titled pre = true -> Forall nonbreak pre -> heading_or_list n = true ->
  Transform (pre ++ n :: post) = Transform (pre ++ post).
Proof.
  intros pre n post Ht Hb Hn. unfold Transform. f_equal.
  rewrite !run_app. cbn [fold_left]. f_equal.
  assert (T : title (run pre) <> []) by (apply titled_sets_title; exact Ht).
  destruct (fold_dividers pre init Hb) as [F1 F2]. fold (run pre) in F1, F2.
  cbn in F1, F2.
  destruct n as [k cs]. unfold heading_or_list in Hn. cbn [node_kind] in Hn.
  destruct k; try discriminate; unfold step; cbn [node_kind]; rewrite F1, F2;
    cbn [negb andb].
  - destruct (title (run pre)); [congruence|]. cbn [is_empty].
    now rewrite andb_false_r.
  - reflexivity.
Qed.

Lemma titled_metadata_drops_headings_and_lists_witness :
  Transform ([gast.Heading 1 [Examples.T "Soup"]]
             ++ gast.Heading 2 [Examples.T "History"]
             :: [gast.Paragraph [Examples.T "Warm."]])
  = Transform ([gast.Heading 1 [Examples.T "Soup"]]
               ++ [gast.Paragraph [Examples.T "Warm."]]).
Proof.
  assert (Hb : Forall nonbreak [gast.Heading 1 [Examples.T "Soup"]])
    by (repeat constructor).
  exact (titled_metadata_drops_headings_and_lists
           [gast.Heading 1 [Examples.T "Soup"]] (gast.Heading 2 [Examples.T "History"])
           [gast.Paragraph [Examples.T "Warm."]] eq_refl Hb eq_refl).
Defined.


(** *** Dividers *)

Lemma step_second_divider : forall st n,
  secondDividerFound st = true -> secondDividerFound (step st n) = true.
Proof.
  intros st [k cs] H.
  destruct k; step_cases;
    first [ exact H
          | cbn; congruence
          | etransitivity; [apply addIngredientGroup_fields | exact H]
          | etransitivity; [apply add_ingredients_fields | exact H] ].
Qed.

Lemma step_break_second : forall st b,
  isThematicBreak b = true -> firstDividerFound st = true ->
  firstDividerFound (step st b) = true /\ secondDividerFound (step st b) = true.
Proof.
  intros st [k cs] Hb H1. unfold isThematicBreak in Hb. cbn [node_kind] in Hb.
  destruct k; try discriminate. unfold step. cbn [node_kind]. rewrite H1.
  cbn [negb]. destruct (secondDividerFound st) eqn:H2; cbn; auto.
Qed.

Lemma fold_second_divider : forall l st,
  firstDividerFound st = true -> secondDividerFound st = true ->
  firstDividerFound (fold_left step l st) = true
  /\ secondDividerFound (fold_left step l st) = true.
Proof.
  induction l as [|n l IH]; intros st H1 H2; cbn [fold_left]; [auto|].
  apply IH; [apply step_first_divider; auto | now apply step_second_divider].
Qed.

Lemma step_later_break : forall st b,
  isThematicBreak b = true ->
  firstDividerFound st = true -> secondDividerFound st = true -> step st b = st.
Proof.
  intros st [k cs] Hb H1 H2. unfold isThematicBreak in Hb. cbn [node_kind] in Hb.
  destruct k; try discriminate. unfold step. cbn [node_kind].
  rewrite H1, H2. reflexivity.
Qed.

Lemma fold_first_divider : forall l st,
  firstDividerFound st = true -> firstDividerFound (fold_left step l st) = true.
Proof.
  induction l as [|n l IH]; intros st F; cbn [fold_left]; [exact F|].
  apply IH. apply step_first_divider. auto.
Qed.

Lemma after_two_breaks : forall a b1 c b2 d,
  isThematicBreak b1 = true -> isThematicBreak b2 = true ->
  firstDividerFound (run (a ++ b1 :: c ++ b2 :: d)) = true
  /\ secondDividerFound (run (a ++ b1 :: c ++ b2 :: d)) = true.
Proof.
  intros a b1 c b2 d Hb1 Hb2. rewrite run_app. cbn [fold_left].
  rewrite fold_left_app. cbn [fold_left].
  assert (F : firstDividerFound (fold_left step c (step (run a) b1)) = true)
    by (apply fold_first_divider, step_first_divider; auto).
  destruct (step_break_second _ b2 Hb2 F) as [G1 G2].
  now apply fold_second_divider.
Qed.

(** X3.  A thematic break after the second one changes nothing in what the
    extension parser builds: it opens no section and is no part of the
    instructions. *)
Theorem breaks_after_the_second_change_nothing : forall a b1 c b2 d b rest,
  isThematicBreak b1 = true -> isThematicBreak b2 = true ->
  isThematicBreak b = true ->
  Transform (a ++ b1 :: c ++ b2 :: d ++ b :: rest)
  = Transform (a ++ b1 :: c ++ b2 :: d ++ rest).
Proof.
  intros a b1 c b2 d b rest Hb1 Hb2 Hb. unfold Transform. f_equal.
  replace (a ++ b1 :: c ++ b2 :: d ++ b :: rest)
    with ((a ++ b1 :: c ++ b2 :: d) ++ b :: rest)
    by (rewrite <- !app_assoc; cbn; rewrite <- app_assoc; reflexivity).
  replace (a ++ b1 :: c ++ b2 :: d ++ rest)
    with ((a ++ b1 :: c ++ b2 :: d) ++ rest)
    by (rewrite <- !app_assoc; cbn; rewrite <- app_assoc; reflexivity).
  rewrite !(run_app (a ++ b1 :: c ++ b2 :: d)). cbn [fold_left].
  destruct (after_two_breaks a b1 c b2 d Hb1 Hb2) as [F1 F2].
  now rewrite step_later_break.
Qed.

Lemma breaks_after_the_second_change_nothing_witness :
  Transform ([gast.Heading 1 [Examples.T "Soup"]] ++ gast.ThematicBreak
             :: [gast.List [Examples.plain_item "salt"]] ++ gast.ThematicBreak
             :: [gast.Paragraph [Examples.T "Boil."]] ++ gast.ThematicBreak
             :: [gast.Paragraph [Examples.T "Serve."]])
  = Transform ([gast.Heading 1 [Examples.T "Soup"]] ++ gast.ThematicBreak
               :: [gast.List [Examples.plain_item "salt"]] ++ gast.ThematicBreak
               :: [gast.Paragraph [Examples.T "Boil."]]
               ++ [gast.Paragraph [Examples.T "Serve."]]).
Proof.
  exact (breaks_after_the_second_change_nothing
           [gast.Heading 1 [Examples.T "Soup"]] gast.ThematicBreak
           [gast.List [Examples.plain_item "salt"]] gast.ThematicBreak
           [gast.Paragraph [Examples.T "Boil."]] gast.ThematicBreak
           [gast.Paragraph [Examples.T "Serve."]] eq_refl eq_refl eq_refl).
Defined.

(** *** Instructions *)

Lemma step_no_instruction : forall st n,
  secondDividerFound st = false ->
  instructionParts (step st n) = instructionParts st.
Proof.
  intros st [k cs] H.
  destruct k; step_cases;
    first [ reflexivity
          | congruence
          | etransitivity; [apply addIngredientGroup_fields | reflexivity]
          | etransitivity; [apply add_ingredients_fields | reflexivity]
          | rewrite H in *; cbn in *; rewrite ?andb_false_r in *; discriminate ].
Qed.

Lemma no_instruction_before_second_divider : forall l,
  secondDividerFound (run l) = false -> instructionParts (run l) = [].
Proof.
  induction l as [|n l IH] using rev_ind; intros H; [reflexivity|].
  rewrite run_app in *. cbn [fold_left] in *.
  assert (H' : secondDividerFound (run l) = false).
  { destruct (secondDividerFound (run l)) eqn:E; [|reflexivity].
    rewrite step_second_divider in H; [discriminate | exact E]. }
  rewrite step_no_instruction by exact H'. auto.
Qed.

Lemma step_instruction_section : forall st n,
  title st <> [] -> firstDividerFound st = true -> secondDividerFound st = true ->
  step st n = if isThematicBreak n then st else add_instruction st n.
Proof.
  intros st [k cs] Ht H1 H2. unfold isThematicBreak. cbn [node_kind].
  destruct (title st) as [|r t] eqn:Et; [congruence|].
  destruct k; unfold step; cbn [node_kind]; rewrite ?Et, ?H1, ?H2;
    cbn [is_empty negb andb]; rewrite ?andb_false_r; reflexivity.
Qed.

Lemma fold_instruction_section : forall l st,
  title st <> [] -> firstDividerFound st = true -> secondDividerFound st = true ->
  instructionParts (fold_left step l st)
  = instructionParts st ++ map renderNode (filter nonbreakb l).
Proof.
  induction l as [|n l IH]; intros st Ht H1 H2; cbn [fold_left filter map].
  - now rewrite app_nil_r.
  - rewrite step_instruction_section by assumption. unfold nonbreakb at 1.
    destruct (isThematicBreak n); cbn [negb].
    + now apply IH.
    + rewrite IH by assumption. cbn [add_instruction instructionParts map].
      now rewrite <- app_assoc.
Qed.

Lemma data_fold_instructions_kept : forall h cs data,
  Forall (fun c => match c with Instructions _ => False | _ => True end) cs ->
  data_Instructions (fold_left (data_step h) cs data) = data_Instructions data.
Proof.
  intros h cs. induction cs as [|c cs IH]; intros data H; cbn [fold_left]; [auto|].
  inversion H as [|? ? Hc Hcs]; subst. rewrite (IH _ Hcs).
  destruct c; cbn; auto. contradiction.
Qed.

Lemma exported_instructions : forall st,
  data_Instructions (buildRecipeData (build st))
  = nonempty (TrimSpace (Join (instructionParts st) nl2)).
Proof.
  intros st. unfold buildRecipeData, build.
  cbn [recipe_children recipe_heap app fold_left].
  rewrite app_assoc, fold_left_app.
  match goal with
  | |- data_Instructions (fold_left _ _ ?x) = _ =>
      assert (D : data_Instructions x = None); [|generalize dependent x; intros d D]
  end.
  { rewrite data_fold_instructions_kept; [reflexivity|].
    apply Forall_app. split.
    - destruct (currentIngredientList st) as [[|i l]|]; repeat constructor.
    - apply Forall_forall. intros c Hc. apply in_map_iff in Hc as (p & <- & _). exact I. }
  destruct (instructionParts st) as [|p ps]; cbn [fold_left].
  - exact D.
  - cbn [data_step data_Instructions]. rewrite D.
    destruct (nonempty _); reflexivity.
Qed.

(** X11.  In a titled document the instructions the extension exports are
    the texts [renderNode] gives for the nodes after the second divider,
    later thematic breaks left out, joined by blank lines and trimmed; they
    are absent when that text is empty. *)
Theorem instructions_are_the_rendered_nodes : forall meta b1 ingr b2 instr,
  existsb titled meta = true -> Forall nonbreak meta ->
  isThematicBreak b1 = true -> Forall nonbreak ingr ->
  isThematicBreak b2 = true ->
  data_Instructions
    (buildRecipeData (Transform (meta ++ b1 :: ingr ++ b2 :: instr)))
  = nonempty (TrimSpace (Join (map renderNode (filter nonbreakb instr)) nl2)).
Proof.
  intros meta b1 ingr b2 instr Ht Hm Hb1 Hi Hb2. unfold Transform.
  rewrite exported_instructions.
  replace (meta ++ b1 :: ingr ++ b2 :: instr)
    with ((meta ++ b1 :: ingr) ++ b2 :: instr)
    by (rewrite <- app_assoc; reflexivity).
  rewrite run_app. cbn [fold_left].
  destruct (in_ingredient_section meta b1 ingr Hm Hb1 Hi) as [F1 F2].
  assert (T : title (run (meta ++ b1 :: ingr)) <> []).
  { rewrite run_app. rewrite fold_title_kept; apply titled_sets_title; exact Ht. }
  pose proof (no_instruction_before_second_divider _ F2) as P.
  set (st := run (meta ++ b1 :: ingr)) in *.
  destruct (step_break_second st b2 Hb2 F1) as [G1 G2].
  rewrite fold_instruction_section; try assumption.
  - rewrite step_no_instruction by exact F2. rewrite P. reflexivity.
  - rewrite step_title_kept; assumption.
Qed.

Lemma instructions_are_the_rendered_nodes_witness :
  data_Instructions
    (buildRecipeData
       (Transform ([gast.Heading 1 [Examples.T "Soup"]] ++ gast.ThematicBreak
                   :: [gast.List [Examples.plain_item "salt"]] ++ gast.ThematicBreak
                   :: [gast.Paragraph [Examples.T "Boil."]; gast.ThematicBreak;
                       gast.Heading 2 [Examples.T "Serve"]])))
  = Some (str "Boil." ++ nl2 ++ str "Serve").
Proof.
  assert (Hm : Forall nonbreak [gast.Heading 1 [Examples.T "Soup"]])
    by (repeat constructor).
  assert (Hi : Forall nonbreak [gast.List [Examples.plain_item "salt"]])
    by (repeat constructor).
  exact (instructions_are_the_rendered_nodes
           [gast.Heading 1 [Examples.T "Soup"]] gast.ThematicBreak
           [gast.List [Examples.plain_item "salt"]] gast.ThematicBreak
           [gast.Paragraph [Examples.T "Boil."]; gast.ThematicBreak;
            gast.Heading 2 [Examples.T "Serve"]]
           eq_refl Hm eq_refl Hi eq_refl).
Defined.

(** *** Description *)

Lemma step_description_metadata : forall st n,
  title st <> [] -> firstDividerFound st = false -> secondDividerFound st = false ->
  nonbreak n ->
  descriptionParts (step st n)
  = descriptionParts st ++ (if description_node n then [renderNode n] else []).
Proof.
  intros st [k cs] Ht H1 H2 Hn. unfold nonbreak, isThematicBreak in Hn.
  unfold description_node. cbn [node_kind] in *.
  destruct (title st) as [|r t] eqn:Et; [congruence|].
  destruct k; try discriminate; unfold step; cbn [node_kind];
    rewrite ?Et, ?H1, ?H2; cbn [is_empty negb andb]; rewrite ?andb_false_r;
    try (cbn; rewrite ?app_nil_r; reflexivity).
  destruct (isFullyItalic _); cbn [negb andb]; [cbn; now rewrite app_nil_r|].
  destruct (isFullyBold _); cbn; now rewrite ?app_nil_r.
Qed.

Lemma fold_description_metadata : forall l st,
  title st <> [] -> firstDividerFound st = false -> secondDividerFound st = false ->
  Forall nonbreak l ->
  descriptionParts (fold_left step l st)
  = descriptionParts st ++ map renderNode (filter description_node l).
Proof.
  induction l as [|n l IH]; intros st Ht H1 H2 Hl; cbn [fold_left filter map].
  - now rewrite app_nil_r.
  - inversion Hl as [|? ? Hn Hl']; subst.
    destruct (step_dividers st n Hn) as [E1 E2].
    rewrite IH; [ | rewrite step_title_kept; assumption | congruence | congruence
                  | assumption ].
    rewrite step_description_metadata by assumption.
    destruct (description_node n); cbn [map]; rewrite <- app_assoc; reflexivity.
Qed.


Lemma step_no_description : forall st n,
  title st = [] \/ firstDividerFound st = true \/ isThematicBreak n = true ->
  descriptionParts (step st n) = descriptionParts st.
Proof.
  intros st [k cs] H. unfold isThematicBreak in H. cbn [node_kind] in H.
  destruct k; step_cases;
    first [ reflexivity
          | etransitivity; [apply addIngredientGroup_fields | reflexivity]
          | etransitivity; [apply add_ingredients_fields | reflexivity]
          | idtac ].
  all: destruct H as [H|[H|H]]; try discriminate; rewrite H in *; cbn in *;
       rewrite ?andb_false_r in *; discriminate.
Qed.

Lemma fold_no_description_untitled : forall l st,
  Forall (fun m => titled m = false) l -> title st = [] ->
  descriptionParts (fold_left step l st) = descriptionParts st.
Proof.
  induction l as [|n l IH]; intros st H Ht; cbn [fold_left]; [reflexivity|].
  inversion H; subst. rewrite IH; [|assumption|now apply step_untitled].
  apply step_no_description. auto.
Qed.

Lemma fold_no_description_after : forall l st,
  firstDividerFound st = true ->
  descriptionParts (fold_left step l st) = descriptionParts st.
Proof.
  induction l as [|n l IH]; intros st H; cbn [fold_left]; [reflexivity|].
  rewrite IH by (apply step_first_divider; auto).
  apply step_no_description. auto.
Qed.

(** X10.  The description the extension exports is made of the nodes
    between the title and the first divider that are neither headings nor
    lists nor wholly italic or bold paragraphs: their texts joined by blank
    lines and trimmed.  Nothing before the title and nothing after the
    first divider reaches it. *)
Theorem description_is_the_rendered_metadata : forall pre h meta rest,
  Forall (fun m => titled m = false) pre -> Forall nonbreak pre ->
  titled h = true -> Forall nonbreak meta ->
  match rest with [] => True | b :: _ => isThematicBreak b = true end ->
  data_Description (buildRecipeData (Transform (pre ++ h :: meta ++ rest)))
  = nonempty (TrimSpace (Join (map renderNode (filter description_node meta)) nl2)).
Proof.
  intros pre h meta rest Hu Hp Hh Hm Hr. unfold Transform.
  destruct (exported_metadata (run (pre ++ h :: meta ++ rest))) as (_ & _ & _ & ->).
  do 2 f_equal. f_equal.
  rewrite run_app. cbn [fold_left]. rewrite fold_left_app.
  destruct (fold_dividers pre init Hp) as [F1 F2]. fold (run pre) in F1, F2.
  cbn in F1, F2.
  assert (T0 : title (run pre) = []) by (apply fold_untitled; auto).
  assert (P0 : descriptionParts (run pre) = [])
    by (unfold run; rewrite fold_no_description_untitled; auto).
  assert (Hhb : nonbreak h).
  { destruct h as [k cs]. unfold titled, isLevel1Heading in Hh. cbn in Hh.
    destruct k; try discriminate. reflexivity. }
  destruct (step_dividers (run pre) h Hhb) as [G1 G2].
  assert (T1 : title (step (run pre) h) <> []).
  { rewrite step_titled by assumption. unfold titled in Hh.
    apply andb_prop in Hh as [_ Hh]. destruct (extractText h); [discriminate|congruence]. }
  assert (P1 : descriptionParts (step (run pre) h) = [])
    by (rewrite step_no_description; auto).
  assert (P2 : descriptionParts (fold_left step meta (step (run pre) h))
               = map renderNode (filter description_node meta)).
  { rewrite fold_description_metadata; try assumption; try congruence.
    now rewrite P1. }
  destruct rest as [|b rest]; cbn [fold_left]; [exact P2|].
  rewrite fold_no_description_after by (apply step_first_divider; auto).
  rewrite step_no_description by auto. exact P2.
Qed.

Lemma description_is_the_rendered_metadata_witness :
  data_Description
    (buildRecipeData
       (Transform ([gast.Paragraph [Examples.T "Lost."]]
                   ++ gast.Heading 1 [Examples.T "Soup"]
                   :: [gast.Paragraph [Examples.T "Warm."];
                       gast.Paragraph [gast.Emphasis 1 [Examples.T "easy"]];
                       gast.Heading 2 [Examples.T "Note"];
                       gast.Paragraph [Examples.T "Cheap."]]
                   ++ [gast.ThematicBreak; gast.Paragraph [Examples.T "Late."]])))
  = Some (str "Warm." ++ nl2 ++ str "Cheap.").
Proof.
  assert (Hu : Forall (fun m => titled m = false) [gast.Paragraph [Examples.T "Lost."]])
    by (repeat constructor).
  assert (Hp : Forall nonbreak [gast.Paragraph [Examples.T "Lost."]])
    by (repeat constructor).
  assert (Hm : Forall nonbreak
                 [gast.Paragraph [Examples.T "Warm."];
                  gast.Paragraph [gast.Emphasis 1 [Examples.T "easy"]];
                  gast.Heading 2 [Examples.T "Note"];
                  gast.Paragraph [Examples.T "Cheap."]])
    by (repeat constructor).
  exact (description_is_the_rendered_metadata
           [gast.Paragraph [Examples.T "Lost."]] (gast.Heading 1 [Examples.T "Soup"])
           _ [gast.ThematicBreak; gast.Paragraph [Examples.T "Late."]]
           Hu Hp eq_refl Hm eq_refl).
Defined.

End TransformFacts.

(* ================================================================== *)
(** ** [strings.TrimSpace] and the parsers of tags and amounts *)

Module TrimFacts.
Import Extension Literal AmountFacts CommaSplit CommaFacts.

Lemma drop_while_split : forall {A} (p : A -> bool) l,
  exists a, l = a ++ drop_while p l /\ Forall (fun x => p x = true) a.
Proof.
  intros A p l. induction l as [|x l (a & E & Ha)]; cbn [drop_while].
  - exists []. split; [reflexivity|constructor].
  - destruct (p x) eqn:Hx.
    + exists (x :: a). split; [cbn; congruence|now constructor].
    + exists []. split; [reflexivity|constructor].
Qed.

Lemma drop_while_hd : forall {A} (p : A -> bool) l d,
  drop_while p l <> [] -> p (hd d (drop_while p l)) = false.
Proof.
  intros A p l d. induction l as [|x l IH]; cbn [drop_while]; [congruence|].
  destruct (p x) eqn:Hx; [exact IH|]. intros _. exact Hx.
Qed.

Lemma hd_rev : forall {A} (l : list A) d, hd d (rev l) = last l d.
Proof.
  intros A l d. induction l as [|x l IH] using rev_ind; [reflexivity|].
  now rewrite rev_app_distr, last_last.
Qed.

(** A text is white space around its trimmed part. *)
Lemma TrimSpace_split : forall s,
  exists pre post, s = pre ++ TrimSpace s ++ post /\ blank pre /\ blank post.
Proof.
  intros s. unfold TrimSpace, blank.
  destruct (drop_while_split IsSpace s) as (a & Ea & Ha).
  destruct (drop_while_split IsSpace (rev (drop_while IsSpace s))) as (b & Eb & Hb).
  exists a, (rev b). repeat split; [|exact Ha|now apply Forall_rev].
  rewrite <- rev_app_distr, <- Eb, rev_involutive. exact Ea.
Qed.

(** What [TrimSpace] returns is empty or begins and ends with a rune that
    is not white space. *)
Lemma TrimSpace_solid_or_empty : forall s, TrimSpace s = [] \/ solid (TrimSpace s).
Proof.
  intros s. destruct (TrimSpace s) as [|x t] eqn:E; [now left|right].
  rewrite <- E. assert (Hne : TrimSpace s <> []) by (rewrite E; discriminate).
  clear E. unfold solid. split; [exact Hne|]. unfold TrimSpace in *.
  remember (drop_while IsSpace s) as d eqn:Dd.
  remember (drop_while IsSpace (rev d)) as e eqn:De.
  assert (He : e <> []) by (intros H; rewrite H in Hne; now apply Hne).
  split.
  - destruct (drop_while_split IsSpace (rev d)) as (b & Eb & Hb).
    rewrite <- De in Eb.
    assert (Ed : d = rev e ++ rev b)
      by (rewrite <- rev_app_distr, <- Eb, rev_involutive; reflexivity).
    rewrite <- (hd_app_nonempty (rev e) (rev b)) by exact Hne.
    rewrite <- Ed, Dd. apply drop_while_hd. rewrite <- Dd, Ed.
    intros H. apply app_eq_nil in H as [H _]. now apply Hne.
  - rewrite <- hd_rev, rev_involutive, De. apply drop_while_hd. now rewrite <- De.
Qed.

Lemma TrimSpace_idempotent : forall s, TrimSpace (TrimSpace s) = TrimSpace s.
Proof.
  intros s. destruct (TrimSpace_solid_or_empty s) as [E|H].
  - rewrite E. reflexivity.
  - now apply TrimSpace_solid_id.
Qed.

Lemma visible_blank : forall s, blank s -> visible s = [].
Proof.
  intros s H. induction H as [|x s Hx Hs IH]; [reflexivity|].
  unfold visible in *. cbn [filter]. now rewrite Hx.
Qed.

Lemma visible_app : forall a b, visible (a ++ b) = visible a ++ visible b.
Proof. intros. apply filter_app. Qed.

(** [TrimSpace] removes white space only. *)
Lemma visible_TrimSpace : forall s, visible (TrimSpace s) = visible s.
Proof.
  intros s. destruct (TrimSpace_split s) as (pre & post & E & Hpre & Hpost).
  rewrite E at 2. rewrite !visible_app, (visible_blank pre), (visible_blank post);
    [|assumption..]. cbn [app]. now rewrite app_nil_r.
Qed.

Lemma kept_solid : forall rs, Forall solid (kept rs).
Proof.
  intros rs. unfold kept. apply Forall_forall. intros t Ht.
  apply filter_In in Ht as [Hin Hne]. apply in_map_iff in Hin as (r & <- & _).
  destruct (TrimSpace_solid_or_empty r) as [E|H]; [|exact H].
  rewrite E in Hne. discriminate.
Qed.

(** X14.  [splitTags] returns no empty tag and no tag with white space at
    either end, whatever the text. *)
Theorem splitTags_tags_are_solid : forall text, Forall solid (splitTags text).
Proof. intros text. rewrite splitTags_runs. apply kept_solid. Qed.

Lemma take_while_skipn : forall {A} (p : A -> bool) l,
  l = take_while p l ++ skipn (List.length (take_while p l)) l.
Proof.
  intros A p l. induction l as [|x l IH]; [reflexivity|].
  cbn [take_while]. destruct (p x); cbn; congruence.
Qed.

Lemma take_while_Forall : forall {A} (p : A -> bool) l,
  Forall (fun x => p x = true) (take_while p l).
Proof.
  intros A p l. induction l as [|x l IH]; cbn [take_while]; [constructor|].
  destruct (p x) eqn:E; now constructor.
Qed.

Lemma TrimSpace_Forall : forall (P : rune -> Prop) s,
  Forall P s -> Forall P (TrimSpace s).
Proof.
  intros P s H. destruct (TrimSpace_split s) as (pre & post & E & _ & _).
  rewrite E in H. apply Forall_app in H as [_ H]. now apply Forall_app in H as [H _].
Qed.

(** X15.  [parseAmount] loses no rune but white space, and changes no
    order: the factor followed by the unit reads as the text does. *)
Theorem parseAmount_keeps_every_visible_rune : forall text,
  visible (fst (parseAmount text) ++ unit_text (snd (parseAmount text)))
  = visible text.
Proof.
  intros text. unfold parseAmount. cbv zeta.
  set (t := TrimSpace text). set (m := take_while numberClass t).
  rewrite <- (visible_TrimSpace text). fold t.
  destruct (is_empty m) eqn:Em; cbn [fst snd unit_text].
  - now rewrite app_nil_r.
  - set (r := skipn (List.length m) t).
    assert (E : t = m ++ r) by apply take_while_skipn.
    transitivity (visible (m ++ r)); [|now rewrite <- E].
    rewrite !visible_app, visible_TrimSpace. f_equal.
    destruct (is_empty (TrimSpace r)) eqn:Er; cbn [unit_text].
    + destruct (TrimSpace r) eqn:F; [|discriminate].
      rewrite <- (visible_TrimSpace r), F. reflexivity.
    + apply visible_TrimSpace.
Qed.

(** X16.  The fields [parseAmount] returns: a factor without white space
    at its ends, empty only for a blank text; a unit that is nil or such a
    text too; and, beside a unit, a factor made of the characters of the
    number pattern only. *)
Theorem parseAmount_fields : forall text,
  (blank text -> parseAmount text = ([], None))
  /\ (~ blank text -> solid (fst (parseAmount text)))
  /\ (forall u, snd (parseAmount text) = Some u ->
        solid u /\ Forall (fun r => numberClass r = true) (fst (parseAmount text))).
Proof.
  intros text. unfold parseAmount. cbv zeta.
  pose proof (TrimSpace_solid_or_empty text) as St.
  pose proof (TrimSpace_split text) as (pre & post & E & Hpre & Hpost).
  remember (TrimSpace text) as t eqn:Dt. clear Dt.
  assert (Hb : blank text <-> t = []).
  { split; intros H.
    - destruct St as [St|(Hne & Hh & _)]; [exact St|]. exfalso.
      rewrite E in H. unfold blank in H.
      apply Forall_app in H as [_ H]. apply Forall_app in H as [H _].
      destruct t as [|x t']; [congruence|]. inversion H; subst. cbn in Hh. congruence.
    - rewrite H in E. rewrite E. apply Forall_app. split; assumption. }
  assert (Hm : is_empty (take_while numberClass t) = false ->
               solid (TrimSpace (take_while numberClass t))).
  { intros Em.
    destruct (TrimSpace_solid_or_empty (take_while numberClass t)) as [F|H];
      [|exact H]. exfalso.
    destruct St as [St|(Hne & Hh & _)]; [rewrite St in Em; discriminate|].
    destruct t as [|x t']; [congruence|]. cbn [hd] in Hh.
    cbn [take_while] in *. destruct (numberClass x); [|discriminate].
    unfold TrimSpace in F. cbn [drop_while] in F. rewrite Hh in F.
    apply (f_equal (@rev _)) in F. rewrite rev_involutive in F.
    change (drop_while IsSpace (rev (x :: take_while numberClass t')) = []) in F.
    pose proof (drop_while_split IsSpace (rev (x :: take_while numberClass t')))
      as (b & Eb & Hbl).
    rewrite F, app_nil_r in Eb. apply (f_equal (@rev _)) in Eb.
    rewrite rev_involutive in Eb.
    assert (Hx : Forall (fun r => IsSpace r = true) (x :: take_while numberClass t')).
    { rewrite Eb. now apply Forall_rev. }
    inversion Hx; subst. congruence. }
  split; [|split].
  - intros H. apply Hb in H. rewrite H. reflexivity.
  - intros H. destruct (is_empty (take_while numberClass t)) eqn:Em; cbn [fst].
    + destruct St as [St|S]; [|exact S]. exfalso. apply H, Hb, St.
    + now apply Hm.
  - intros u H.
    destruct (is_empty (take_while numberClass t)) eqn:Em; cbn [fst snd] in *;
      [discriminate|].
    split; [|apply TrimSpace_Forall, take_while_Forall].
    destruct (is_empty (TrimSpace _)) eqn:Er; [discriminate|].
    injection H as <-.
    destruct (TrimSpace_solid_or_empty
                (skipn (List.length (take_while numberClass t)) t)) as [F|S];
      [|exact S].
    rewrite F in Er. discriminate.
Qed.

End TrimFacts.

(* ================================================================== *)
(** ** The extension parser: ingredient lines with links *)

Module IngredientFacts.
Import Extension ExtensionFacts.

Lemma collect_step_nolink : forall a n,
  isLink n = false ->
  acc_name (collect_step a n) = acc_name a /\ acc_link (collect_step a n) = acc_link a.
Proof.
  intros a [k cs] H. unfold isLink in H. cbn [node_kind] in H.
  unfold collect_step. cbn [node_kind].
  destruct k; try discriminate; cbn; auto;
    match goal with |- context [if ?c then _ else _] => destruct c end; cbn; auto.
Qed.

Lemma collect_nolinks : forall l a,
  Forall (fun n => isLink n = false) l ->
  acc_name (fold_left collect_step l a) = acc_name a
  /\ acc_link (fold_left collect_step l a) = acc_link a.
Proof.
  induction l as [|n l IH]; intros a H; cbn [fold_left]; [auto|].
  inversion H; subst. destruct (IH (collect_step a n)) as [-> ->]; [assumption|].
  now apply collect_step_nolink.
Qed.

Lemma last_default : forall {A} (x : A) l d d', last (x :: l) d = last (x :: l) d'.
Proof.
  intros A x l d d'. revert x. induction l as [|y l IH]; intros x; [reflexivity|].
  cbn [last] in *. apply IH.
Qed.

Lemma collect_step_named : forall a n d,
  acc_name a <> [] -> acc_link a = Some d ->
  acc_name (collect_step a n) = acc_name a
  /\ acc_link (collect_step a n)
     = Some (last (link_destinations [n]) d).
Proof.
  intros a [k cs] d Hn Hl. unfold collect_step, link_destinations.
  cbn [node_kind flat_map app].
  destruct (acc_name a) as [|r t] eqn:E; [congruence|].
  destruct k; cbn [is_empty last]; cbn; auto;
    match goal with |- context [if ?c then _ else _] => destruct c end; cbn; auto.
Qed.

Lemma collect_named : forall l a d,
  acc_name a <> [] -> acc_link a = Some d ->
  acc_name (fold_left collect_step l a) = acc_name a
  /\ acc_link (fold_left collect_step l a) = Some (last (link_destinations l) d).
Proof.
  induction l as [|n l IH]; intros a d Hn Hl; cbn [fold_left]; [auto|].
  destruct (collect_step_named a n d Hn Hl) as [E1 E2].
  destruct (IH (collect_step a n) _ (eq_ind_r (fun x => x <> []) Hn E1) E2) as [-> ->].
  split; [exact E1|]. f_equal.
  unfold link_destinations. cbn [flat_map].
  destruct (node_kind n); cbn [app last]; try reflexivity.
  destruct (flat_map _ l) eqn:F; [reflexivity|].
  apply last_default.
Qed.

(** X13.  An ingredient with a link is named by the text of its first link
    alone: the text before and after the link is left out of the name, and
    the destination kept is that of the last link. *)
Theorem linked_ingredient_is_named_by_its_first_link :
  forall item amt before dest cs after,
    leading_amount (item_inlines item)
    = (amt, before ++ gast.Link dest cs :: after) ->
    Forall (fun n => isLink n = false) before ->
    extractText (gast.Link dest cs) <> [] ->
    parseIngredient item
    = Some (mkIngredient (TrimSpace (extractText (gast.Link dest cs)))
                         (Some (last (link_destinations after) dest)) amt).
Proof.
  intros item amt before dest cs after Hl Hb Ht. unfold parseIngredient.
  rewrite Hl. cbv zeta. rewrite fold_left_app. cbn [fold_left].
  destruct (collect_nolinks before (mkNameAcc [] [] None) Hb) as [N L].
  cbn [acc_name acc_link] in N, L.
  set (a := fold_left collect_step before _) in *.
  assert (S : acc_name (collect_step a (gast.Link dest cs))
              = extractText (gast.Link dest cs)
              /\ acc_link (collect_step a (gast.Link dest cs)) = Some dest).
  { unfold collect_step. cbn [node_kind gast.Link]. rewrite N. cbn. auto. }
  destruct S as [S1 S2].
  destruct (collect_named after (collect_step a (gast.Link dest cs)) dest) as [-> ->];
    [rewrite S1; exact Ht | exact S2 |].
  rewrite S1. destruct (extractText (gast.Link dest cs)); [congruence|reflexivity].
Qed.

Lemma linked_ingredient_is_named_by_its_first_link_witness :
  parseIngredient
    (gast.ListItem
       [gast.TextBlock
          [gast.Emphasis 1 [Examples.T "1"]; Examples.T " baked ";
           gast.Link (str "./pie-crust.md") [Examples.T "pie crust"];
           Examples.T " or "; gast.Link (str "./tart.md") [Examples.T "tart shell"]]])
  = Some (mkIngredient (str "pie crust") (Some (str "./tart.md"))
                       (Some (mkAmount (str "1") None))).
Proof.
  assert (Hb : Forall (fun n => isLink n = false) [Examples.T " baked "])
    by (repeat constructor).
  assert (Ht : extractText (gast.Link (str "./pie-crust.md") [Examples.T "pie crust"])
               <> []) by discriminate.
  exact (linked_ingredient_is_named_by_its_first_link
           (gast.ListItem
              [gast.TextBlock
                 [gast.Emphasis 1 [Examples.T "1"]; Examples.T " baked ";
                  gast.Link (str "./pie-crust.md") [Examples.T "pie crust"];
                  Examples.T " or ";
                  gast.Link (str "./tart.md") [Examples.T "tart shell"]]])
           (Some (mkAmount (str "1") None)) [Examples.T " baked "]
           (str "./pie-crust.md") [Examples.T "pie crust"]
           [Examples.T " or "; gast.Link (str "./tart.md") [Examples.T "tart shell"]]
           eq_refl Hb Ht).
Defined.

End IngredientFacts.

(* ================================================================== *)
(** ** The recipe transformer: groups and the description *)

Module GroupingFacts.
Import Parser ParserFacts.

Lemma update_at_last : forall {A} (front : list A) x f,
  update_at (front ++ [x]) (List.length front) f = front ++ [f x].
Proof.
  intros A front x f. induction front as [|y front IH]; cbn; [reflexivity|].
  now rewrite IH.
Qed.

Lemma update_at_middle : forall {A} (front : list A) x back f,
  update_at (front ++ x :: back) (List.length front) f = front ++ f x :: back.
Proof.
  intros A front x back f. induction front as [|y front IH]; cbn; [reflexivity|].
  now rewrite IH.
Qed.

(** While no heading has been met the lists add their ingredients to the
    children. *)
Lemma ungrouped_fold : forall nodes cs,
  Forall (fun n => isHeading n = false) nodes ->
  fold_left ingredients_step nodes (cs, None)
  = (cs ++ map IIngredient (listed nodes), None).
Proof.
  induction nodes as [|n nodes IH]; intros cs H; cbn [fold_left].
  - cbn. now rewrite app_nil_r.
  - inversion H as [|? ? Hn Hr]; subst. unfold listed. cbn [flat_map].
    fold (listed nodes). destruct n as [k c]. unfold isHeading in Hn.
    cbn [node_kind] in *. 
    destruct k; try discriminate; cbn [ingredients_step node_kind];
      rewrite IH by assumption; cbn [app]; try reflexivity.
    now rewrite map_app, app_assoc.
Qed.

(** While a group is open, and it is the last child, the lists add their
    ingredients to it. *)
Lemma grouped_fold : forall nodes front name body,
  Forall (fun n => isHeading n = false) nodes ->
  fold_left ingredients_step nodes
            (front ++ [IGroup name body], Some (List.length front))
  = (front ++ [IGroup name (body ++ map GIngredient (listed nodes))],
     Some (List.length front)).
Proof.
  induction nodes as [|n nodes IH]; intros front name body H; cbn [fold_left].
  - cbn. now rewrite app_nil_r.
  - inversion H as [|? ? Hn Hr]; subst. unfold listed. cbn [flat_map].
    fold (listed nodes). destruct n as [k c]. unfold isHeading in Hn.
    cbn [node_kind] in *.
    destruct k; try discriminate; cbn [ingredients_step node_kind];
      rewrite ?update_at_last, IH by assumption; cbn [app]; try reflexivity.
    now rewrite map_app, app_assoc.
Qed.

(** X4.  [processIngredients] groups flatly.  A heading of any level closes
    what came before and opens a group, a sibling of the earlier ones, that
    holds the heading and the ingredients of the lists up to the next
    heading; nodes that are neither headings nor lists are passed over.
    Lists that no heading precedes give their ingredients ungrouped. *)
Theorem processIngredients_groups_flatly : forall before h after,
  isHeading h = true -> Forall (fun n => isHeading n = false) after ->
  ingredients_of (before ++ h :: after)
  = ingredients_of before
    ++ [IGroup (extractText h) (GHeading h :: map GIngredient (listed after))]
  /\ ingredients_of after = map IIngredient (listed after).
Proof.
  intros before h after Hh Ha. unfold ingredients_of. split.
  - rewrite fold_left_app. cbn [fold_left].
    destruct (fold_left ingredients_step before ([], None)) as [cs g] eqn:E.
    destruct h as [k c]. unfold isHeading in Hh. cbn [node_kind] in Hh.
    destruct k; try discriminate. cbn [ingredients_step node_kind fst].
    rewrite (grouped_fold after cs _ [GHeading (mkNode (KHeading level) c)] Ha).
    reflexivity.
  - now rewrite ungrouped_fold.
Qed.

Lemma processIngredients_groups_flatly_witness :
  ingredients_of ([gast.List [Examples.plain_item "salt"];
                   gast.Heading 2 [Examples.T "Dough"];
                   gast.List [Examples.plain_item "flour"]]
                  ++ gast.Heading 3 [Examples.T "Glaze"]
                  :: [gast.List [Examples.plain_item "sugar"];
                      gast.Paragraph [Examples.T "to taste"];
                      gast.List [Examples.plain_item "water"]])
  = [IIngredient (mkIngredient [] (str "salt"));
     IGroup (str "Dough")
            [GHeading (gast.Heading 2 [Examples.T "Dough"]);
             GIngredient (mkIngredient [] (str "flour"))];
     IGroup (str "Glaze")
            [GHeading (gast.Heading 3 [Examples.T "Glaze"]);
             GIngredient (mkIngredient [] (str "sugar"));
             GIngredient (mkIngredient [] (str "water"))]].
Proof.
  assert (Ha : Forall (fun n => isHeading n = false)
                 [gast.List [Examples.plain_item "sugar"];
                  gast.Paragraph [Examples.T "to taste"];
                  gast.List [Examples.plain_item "water"]])
    by (repeat constructor).
  exact (proj1 (processIngredients_groups_flatly
                  [gast.List [Examples.plain_item "salt"];
                   gast.Heading 2 [Examples.T "Dough"];
                   gast.List [Examples.plain_item "flour"]]
                  (gast.Heading 3 [Examples.T "Glaze"]) _ eq_refl Ha)).
Defined.

(** *** The metadata *)

Lemma placed_seen_fold : forall nodes front ps back descs,
  fold_left metadata_step nodes
            (front ++ Description ps :: back, Some (List.length front))
  = (front ++ Description (ps ++ filter isDescriptionParagraph nodes)
           :: back ++ placed true descs nodes,
     Some (List.length front)).
Proof.
  induction nodes as [|n nodes IH]; intros front ps back descs; cbn [fold_left].
  - cbn. now rewrite !app_nil_r.
  - destruct n as [k c]. cbn [filter placed]. unfold isDescriptionParagraph at 1.
    cbn [node_kind metadata_step].
    destruct k; cbn [negb andb]; try apply IH.
    + destruct (level =? 1); [|apply IH].
      rewrite <- app_assoc. cbn [app].
      rewrite (IH front ps (back ++ [Title (mkNode (KHeading level) c)]) descs).
      now rewrite <- app_assoc.
    + destruct (isAllEmphasis _); cbn [negb andb].
      * rewrite <- app_assoc. cbn [app].
        rewrite (IH front ps (back ++ [Tags (mkNode KParagraph c)]) descs).
        now rewrite <- app_assoc.
      * destruct (isAllStrong _); cbn [negb andb].
        -- rewrite <- app_assoc. cbn [app].
           rewrite (IH front ps (back ++ [Yields (mkNode KParagraph c)]) descs).
           now rewrite <- app_assoc.
        -- rewrite update_at_middle, (IH _ _ _ descs). now rewrite <- app_assoc.
Qed.

Lemma placed_fold : forall nodes recipe,
  fst (fold_left metadata_step nodes (recipe, None))
  = recipe ++ placed false (filter isDescriptionParagraph nodes) nodes.
Proof.
  induction nodes as [|n nodes IH]; intros recipe; cbn [fold_left].
  - cbn. now rewrite app_nil_r.
  - destruct n as [k c]. cbn [filter].
    destruct (isDescriptionParagraph (mkNode k c)) eqn:Hd;
      unfold isDescriptionParagraph in Hd; cbn [node_kind] in Hd;
      destruct k; try discriminate; cbn [placed node_kind metadata_step];
      try apply IH.
    + apply andb_prop in Hd as [H1 H2].
      apply negb_true_iff in H1, H2. rewrite H1, H2.
      rewrite (placed_seen_fold nodes recipe [mkNode KParagraph c] []
                 (mkNode KParagraph c :: filter isDescriptionParagraph nodes)).
      reflexivity.
    + destruct (level =? 1); [|apply IH]. rewrite IH, <- app_assoc. reflexivity.
    + destruct (isAllEmphasis _); cbn [negb andb] in *.
      * rewrite IH, <- app_assoc. reflexivity.
      * destruct (isAllStrong _); cbn [negb andb] in *; [|discriminate].
        rewrite IH, <- app_assoc. reflexivity.
Qed.

(** X17.  [processMetadata] keeps the order of titles, tags and yields and
    gathers every other paragraph, also those that follow tags or yields,
    into one description node that stands where the first of them stood. *)
Theorem processMetadata_gathers_the_description : forall recipe nodes,
  processMetadata recipe nodes
  = recipe ++ placed false (filter isDescriptionParagraph nodes) nodes.
Proof. intros recipe nodes. unfold processMetadata. apply placed_fold. Qed.

Lemma processMetadata_gathers : forall nodes,
  processMetadata [] nodes
  = placed false (filter isDescriptionParagraph nodes) nodes.
Proof. intros nodes. unfold processMetadata. now rewrite placed_fold. Qed.

End GroupingFacts.

(* ================================================================== *)
(** ** [pkg/recipe.go]: strings, [BuildAST] and [ExtractRecipe] *)

Module RecipeFacts.
Import Recipemd Literal AmountFacts TrimFacts Writable.

(** *** [strings.SplitN] and the words of a yield *)

Lemma SplitN2_from_none : forall s cur sep,
  ~ In sep s -> SplitN2_from cur s sep = [cur ++ s].
Proof.
  induction s as [|r s IH]; intros cur sep H; cbn [SplitN2_from].
  - now rewrite app_nil_r.
  - destruct (r =? sep) eqn:E.
    + apply Z.eqb_eq in E. exfalso. apply H. now left.
    + rewrite IH by (intros F; apply H; now right).
      now rewrite <- app_assoc.
Qed.

Lemma SplitN2_from_first : forall a cur sep rest,
  ~ In sep a -> SplitN2_from cur (a ++ sep :: rest) sep = [cur ++ a; rest].
Proof.
  induction a as [|r a IH]; intros cur sep rest H; cbn [SplitN2_from app].
  - now rewrite Z.eqb_refl, app_nil_r.
  - destruct (r =? sep) eqn:E.
    + apply Z.eqb_eq in E. exfalso. apply H. now left.
    + rewrite IH by (intros F; apply H; now right).
      now rewrite <- app_assoc.
Qed.

(** Whatever the text, the words read back are the text again, but for one
    space: the one that ends a text with no other space. *)
Lemma SplitN2_from_cases : forall s cur sep,
  (SplitN2_from cur s sep = [cur ++ s] /\ ~ In sep s)
  \/ exists a rest, s = a ++ sep :: rest /\ ~ In sep a
                    /\ SplitN2_from cur s sep = [cur ++ a; rest].
Proof.
  induction s as [|r s IH]; intros cur sep; cbn [SplitN2_from].
  - left. rewrite app_nil_r. auto.
  - destruct (r =? sep) eqn:E.
    + apply Z.eqb_eq in E. subst r. right. exists [], s. rewrite app_nil_r. auto.
    + apply Z.eqb_neq in E.
      destruct (IH (cur ++ [r]) sep) as [[E1 N]|(a & rest & -> & N & E1)].
      * left. rewrite E1, <- app_assoc. split; [reflexivity|].
        intros [F|F]; [congruence|contradiction].
      * right. exists (r :: a), rest. rewrite E1, <- app_assoc.
        repeat split. intros [F|F]; [congruence|contradiction].
Qed.

Lemma parseYield_Yield_String : forall y,
  ~ In space (y_Amount y) -> parseYield (Yield_String y) = y.
Proof.
  intros [first unit] H. unfold parseYield, Yield_String, SplitN2.
  cbn [y_Amount y_Unit] in *. destruct unit as [|u unit]; cbn [is_empty].
  - now rewrite SplitN2_from_none.
  - cbn [app]. now rewrite SplitN2_from_first.
Qed.

Lemma parseAmount_Amount_String : forall a,
  ~ In space (Quantity a) -> parseAmount (Amount_String a) = a.
Proof.
  intros [first unit] H. unfold parseAmount, Amount_String, SplitN2.
  cbn [Quantity Unit] in *. destruct unit as [|u unit]; cbn [is_empty].
  - now rewrite SplitN2_from_none.
  - cbn [app]. now rewrite SplitN2_from_first.
Qed.

(** X20.  A yield or an amount whose first field holds no space is read back
    from its string as it was. *)
Theorem parse_of_String : forall first unit,
  ~ In space first ->
  parseYield (Yield_String (mkYield first unit)) = mkYield first unit
  /\ parseAmount (Amount_String (mkAmount first unit)) = mkAmount first unit.
Proof.
  intros first unit H. split.
  - now apply parseYield_Yield_String.
  - now apply parseAmount_Amount_String.
Qed.

Lemma parse_of_String_witness :
  parseYield (Yield_String (mkYield (str "4") (str "large servings")))
  = mkYield (str "4") (str "large servings")
  /\ parseAmount (Amount_String (mkAmount (str "4") (str "large servings")))
     = mkAmount (str "4") (str "large servings").
Proof.
  assert (H : ~ In space (str "4")) by (cbn; intros [F|F]; [discriminate|exact F]).
  exact (parse_of_String (str "4") (str "large servings") H).
Defined.

Lemma Yield_String_parseYield : forall s,
  last s 0 <> space -> Yield_String (parseYield s) = s.
Proof.
  intros s H. unfold parseYield, Yield_String, SplitN2.
  destruct (SplitN2_from_cases s [] space) as [[E _]|(a & rest & Es & _ & E)];
    rewrite E; cbn [app y_Amount y_Unit is_empty]; [reflexivity|].
  destruct rest as [|r rest]; cbn [is_empty]; [|now rewrite Es].
  exfalso. apply H. rewrite Es. apply last_last.
Qed.

(** X21.  The string of what [parseYield] or [parseAmount] reads is the text
    read, unless the text ends with its only space. *)
Theorem String_of_parse : forall s,
  last s 0 <> space ->
  Yield_String (parseYield s) = s /\ Amount_String (parseAmount s) = s.
Proof.
  intros s H. unfold parseYield, parseAmount, Yield_String, Amount_String, SplitN2.
  destruct (SplitN2_from_cases s [] space) as [[E _]|(a & rest & Es & _ & E)];
    rewrite E; cbn [app y_Amount y_Unit Quantity Unit is_empty].
  - auto.
  - destruct rest as [|r rest]; cbn [is_empty].
    + exfalso. apply H. rewrite Es. apply last_last.
    + rewrite Es. auto.
Qed.

Lemma String_of_parse_witness :
  Yield_String (parseYield (str "2 dozen cookies")) = str "2 dozen cookies"
  /\ Amount_String (parseAmount (str "2 dozen cookies")) = str "2 dozen cookies".
Proof.
  assert (H : last (str "2 dozen cookies") 0 <> space) by (cbn; discriminate).
  exact (String_of_parse (str "2 dozen cookies") H).
Defined.

(** *** Comma-separated lines *)

Lemma Split_from_none : forall s cur sep,
  ~ In sep s -> Split_from cur s sep = [cur ++ s].
Proof.
  induction s as [|r s IH]; intros cur sep H; cbn [Split_from].
  - now rewrite app_nil_r.
  - destruct (r =? sep) eqn:E.
    + apply Z.eqb_eq in E. exfalso. apply H. now left.
    + rewrite IH by (intros F; apply H; now right).
      now rewrite <- app_assoc.
Qed.

Lemma Split_from_first : forall a cur sep rest,
  ~ In sep a ->
  Split_from cur (a ++ sep :: rest) sep = (cur ++ a) :: Split_from [] rest sep.
Proof.
  induction a as [|r a IH]; intros cur sep rest H; cbn [Split_from app].
  - now rewrite Z.eqb_refl, app_nil_r.
  - destruct (r =? sep) eqn:E.
    + apply Z.eqb_eq in E. exfalso. apply H. now left.
    + rewrite IH by (intros F; apply H; now right).
      now rewrite <- app_assoc.
Qed.

Lemma Split_Join : forall ts pad t,
  ~ In comma pad -> Forall (fun t => ~ In comma t) (t :: ts) ->
  Split_from [] (pad ++ Join (t :: ts) (str ", ")) comma
  = (pad ++ t) :: map (fun x => space :: x) ts.
Proof.
  induction ts as [|t2 ts IH]; intros pad t Hp H; inversion H as [|? ? Ht Hts]; subst.
  - cbn [Join map]. rewrite Split_from_none; [reflexivity|].
    intros F. apply in_app_or in F as [F|F]; contradiction.
  - change (Join (t :: t2 :: ts) (str ", "))
      with (t ++ comma :: [space] ++ Join (t2 :: ts) (str ", ")).
    rewrite app_assoc.
    rewrite Split_from_first
      by (intros F; apply in_app_or in F as [F|F]; contradiction).
    cbn [app map]. f_equal.
    apply (IH [space] t2); [|exact Hts].
    intros [F|F]; [discriminate|exact F].
Qed.

(** A line joined with [", "] from fields gives the fields back when it is
    split at the commas and trimmed. *)
Lemma fields_of_Join : forall ts,
  Forall field ts ->
  filter (fun t => negb (is_empty t)) (map TrimSpace (Split (Join ts (str ", ")) comma))
  = ts.
Proof.
  intros [|t ts] H; [reflexivity|]. unfold Split.
  pose proof (Split_Join ts [] t) as E. cbn [app] in E.
  replace (Split_from [] (Join (t :: ts) (str ", ")) comma)
    with (t :: map (fun x => space :: x) ts)
    by (symmetry; apply E;
        [ intros [] | eapply Forall_impl; [|exact H]; intros x [_ Hx]; exact Hx ]).
  clear E. inversion H as [|? ? [St _] Hts]; subst.
  cbn [map filter]. rewrite (TrimSpace_solid_id t St).
  destruct t as [|r t]; [destruct St; congruence|]. cbn [is_empty negb]. f_equal.
  clear H St. induction Hts as [|x ts [Sx _] Hts IH]; [reflexivity|].
  cbn [map filter].
  pose proof (TrimSpace_solid [space] x [] ) as E. rewrite app_nil_r in E.
  cbn [app] in E. rewrite E; [|repeat constructor|constructor|exact Sx].
  destruct x; [destruct Sx; congruence|]. cbn [is_empty negb]. now rewrite IH.
Qed.

(** *** Blank lines *)

Lemma Split2_from_nonempty : forall s cur c1 c2,
  Split2_from cur s c1 c2 <> []
  /\ forall x, Split2_from cur (x :: s) c1 c2 <> [].
Proof.
  induction s as [|y s IHs]; intros cur c1 c2.
  - split; [discriminate|]. intros x. discriminate.
  - split; [apply (proj2 (IHs cur c1 c2) y)|]. intros x.
    change (Split2_from cur (x :: y :: s) c1 c2)
      with (if (x =? c1) && (y =? c2) then cur :: Split2_from [] s c1 c2
            else Split2_from (cur ++ [x]) (y :: s) c1 c2).
    destruct ((x =? c1) && (y =? c2)); [discriminate|].
    apply (proj2 (IHs (cur ++ [x]) c1 c2) y).
Qed.

Lemma Join_Split2_from : forall s cur c1 c2,
  Join (Split2_from cur s c1 c2) [c1; c2] = cur ++ s
  /\ forall x, Join (Split2_from cur (x :: s) c1 c2) [c1; c2] = cur ++ x :: s.
Proof.
  induction s as [|y s IHs]; intros cur c1 c2.
  - split; [cbn; now rewrite app_nil_r|]. intros x. reflexivity.
  - split; [apply (proj2 (IHs cur c1 c2) y)|]. intros x.
    change (Split2_from cur (x :: y :: s) c1 c2)
      with (if (x =? c1) && (y =? c2) then cur :: Split2_from [] s c1 c2
            else Split2_from (cur ++ [x]) (y :: s) c1 c2).
    destruct ((x =? c1) && (y =? c2)) eqn:E.
    + apply andb_prop in E as [E1 E2]. apply Z.eqb_eq in E1, E2. subst.
      destruct (IHs [] c1 c2) as [J _].
      destruct (Split2_from [] s c1 c2) as [|p ps] eqn:F;
        [now apply (proj1 (Split2_from_nonempty s [] c1 c2)) in F|].
      change (Join (cur :: p :: ps) [c1; c2])
        with (cur ++ [c1; c2] ++ Join (p :: ps) [c1; c2]).
      rewrite J. reflexivity.
    + destruct (IHs (cur ++ [x]) c1 c2) as [_ J]. rewrite J, <- app_assoc. reflexivity.
Qed.

(** *** [BuildAST], then [ExtractRecipe] *)

Lemma extractText_wrapped : forall l v,
  Renderer.extractText (gast.Paragraph [gast.Emphasis l [NewString v]]) = v.
Proof. intros l v. cbn. now rewrite !app_nil_r. Qed.

Lemma extractText_heading : forall l v,
  Renderer.extractText (gast.Heading l [NewString v]) = v.
Proof. intros l v. cbn. now rewrite !app_nil_r. Qed.

Lemma map_fixed : forall {A} (f : A -> A) l, Forall (fun x => f x = x) l -> map f l = l.
Proof.
  intros A f l H. induction H as [|x l Hx Hl IH]; [reflexivity|].
  cbn [map]. now rewrite Hx, IH.
Qed.

Lemma joined_buildParagraphs : forall s,
  wf_text s -> Renderer.joined (buildParagraphs s) = s.
Proof.
  intros s H. unfold Renderer.joined, buildParagraphs. rewrite map_map.
  rewrite (map_ext _ TrimSpace)
    by (intros p; cbn; now rewrite !app_nil_r).
  rewrite map_fixed by exact H.
  exact (proj1 (Join_Split2_from s [] 10 10)).
Qed.

Lemma extractIngredient_build : forall i,
  wf_ingredient i -> extractIngredient (buildIngredient i) = i.
Proof.
  intros [[a|] name] H; unfold wf_ingredient in H; cbn [ing_Amount] in H;
    unfold extractIngredient, buildIngredient;
    cbn [ing_Amount ing_Name Parser.Amount Parser.Name]; [|reflexivity].
  destruct H as [Hs Hne].
  destruct (Amount_String a) eqn:E; [congruence|]. cbn [is_empty].
  rewrite <- E, parseAmount_Amount_String by exact Hs. reflexivity.
Qed.

Lemma extractIngredients_build : forall es,
  Forall wf_entry es -> extractIngredients (map buildEntry es) = es.
Proof.
  intros es H. unfold extractIngredients. rewrite map_map.
  induction H as [|e es He Hes IH]; [reflexivity|]. cbn [map]. rewrite IH. f_equal.
  destruct e as [i|name ings]; cbn [buildEntry wf_entry] in *.
  - now rewrite extractIngredient_build.
  - f_equal. induction He as [|i ings Hi His IHi]; [reflexivity|].
    cbn [map flat_map app]. now rewrite extractIngredient_build, IHi.
Qed.

Lemma extractYields_Join : forall ys,
  Forall wf_yield ys ->
  extractYields (Join (map Yield_String ys) (str ", ")) = ys.
Proof.
  intros ys H. unfold extractYields. rewrite fields_of_Join.
  - rewrite map_map. apply map_fixed.
    eapply Forall_impl; [|exact H]. intros y [Hy _].
    now apply parseYield_Yield_String.
  - apply Forall_map. eapply Forall_impl; [|exact H]. intros y [_ Hy]. exact Hy.
Qed.

(** X22.  [ExtractRecipe] reads back the recipe [BuildAST] wrote, field for
    field, when the recipe is one that the text forms can carry: tags and
    yields without commas or white space at their ends, first words of
    yields and amounts without spaces, no amount with an empty string, and
    paragraphs of description and instructions without white space at their
    ends. *)
Theorem ExtractRecipe_of_BuildAST : forall r,
  wf_recipe r -> ExtractRecipe (BuildAST r) = r.
Proof.
  intros [T D Tg Y I Ins] (HD & HTg & HY & HI & HIns).
  cbn [Title Description Tags Yields Ingredients Instructions] in *.
  unfold ExtractRecipe, BuildAST.
  cbn [Title Description Tags Yields Ingredients Instructions].
  rewrite !fold_left_app.
  assert (S1 : fold_left extract_step
                 (if is_empty T then []
                  else [Parser.Title (gast.Heading 1 [NewString T])])
                 (mkRecipe [] [] [] [] [] [])
               = mkRecipe T [] [] [] [] []).
  { destruct T; [reflexivity|]. cbn [is_empty fold_left extract_step].
    unfold Renderer.wrapperText. now rewrite extractText_heading. }
  rewrite S1. clear S1.
  assert (S2 : fold_left extract_step
                 (if is_empty D then []
                  else [Parser.Description (buildParagraphs D)])
                 (mkRecipe T [] [] [] [] [])
               = mkRecipe T D [] [] [] []).
  { destruct D as [|d D'] eqn:E; [reflexivity|]. cbn [is_empty]. cbv iota. rewrite <- E in *.
    cbn [is_empty fold_left extract_step Title Tags Yields Ingredients Instructions].
    now rewrite joined_buildParagraphs. }
  rewrite S2. clear S2.
  assert (S3 : fold_left extract_step
                 (match Tg with
                  | [] => []
                  | _ => [Parser.Tags
                            (gast.Paragraph
                               [gast.Emphasis 1 [NewString (Join Tg (str ", "))]])]
                  end)
                 (mkRecipe T D [] [] [] [])
               = mkRecipe T D Tg [] [] []).
  { destruct Tg as [|t Tg'] eqn:E; [reflexivity|]. cbn [is_empty]. cbv iota. rewrite <- E in *.
    cbn [fold_left extract_step Title Description Tags Yields Ingredients
         Instructions app].
    unfold Renderer.wrapperText. rewrite extractText_wrapped.
    unfold extractTags. now rewrite fields_of_Join. }
  assert (S4 : fold_left extract_step
                 (match Y with
                  | [] => []
                  | _ => [Parser.Yields
                            (gast.Paragraph
                               [gast.Emphasis 2
                                  [NewString (Join (map Yield_String Y) (str ", "))]])]
                  end)
                 (mkRecipe T D Tg [] [] [])
               = mkRecipe T D Tg Y [] []).
  { destruct Y as [|y Y'] eqn:E; [reflexivity|]. cbn [is_empty]. cbv iota. rewrite <- E in *.
    cbn [fold_left extract_step Title Description Tags Yields Ingredients
         Instructions app].
    unfold Renderer.wrapperText. rewrite extractText_wrapped.
    now rewrite extractYields_Join. }
  assert (S5 : fold_left extract_step
                 (match I with
                  | [] => []
                  | _ => [Parser.Ingredients (map buildEntry I)]
                  end)
                 (mkRecipe T D Tg Y [] [])
               = mkRecipe T D Tg Y I []).
  { destruct I as [|e I'] eqn:E; [reflexivity|]. cbn [is_empty]. cbv iota. rewrite <- E in *.
    cbn [fold_left extract_step Title Description Tags Yields Ingredients
         Instructions].
    now rewrite extractIngredients_build. }
  assert (S6 : fold_left extract_step
                 (if is_empty Ins then []
                  else [Parser.Instructions (buildParagraphs Ins)])
                 (mkRecipe T D Tg Y I [])
               = mkRecipe T D Tg Y I Ins).
  { destruct Ins as [|d Ins'] eqn:E; [reflexivity|]. cbn [is_empty]. cbv iota. rewrite <- E in *.
    cbn [is_empty fold_left extract_step Title Description Tags Yields
         Ingredients Instructions].
    now rewrite joined_buildParagraphs. }
  destruct Tg; destruct Y; destruct I;
    rewrite ?S3; rewrite ?S4; rewrite ?S5; try rewrite S6; try reflexivity.
Qed.

Ltac absent :=
  let F := fresh in
  intros F; cbn in F; repeat (destruct F as [F|F]; [discriminate|]); exact F.

Lemma ExtractRecipe_of_BuildAST_witness :
  ExtractRecipe (BuildAST pancakes) = pancakes.
Proof.
  assert (H : wf_recipe pancakes).
  { unfold wf_recipe, pancakes.
    cbn [Description Tags Yields Ingredients Instructions].
    split; [repeat constructor|].
    split; [repeat constructor; try discriminate; absent|].
    split; [repeat constructor; try discriminate; absent|].
    split; [|repeat constructor].
    repeat constructor; try discriminate; absent. }
  exact (ExtractRecipe_of_BuildAST pancakes H).
Defined.

(** *** The JSON renderer and [ExtractRecipe] *)

Lemma solid_last : forall t, solid t -> last t 0 <> space.
Proof. intros t (_ & _ & H) E. rewrite E in H. discriminate. Qed.

Lemma String_of_fields : forall text,
  map Yield_String (extractYields text) = Renderer.comma_fields text.
Proof.
  intros text. unfold extractYields, Renderer.comma_fields. rewrite map_map.
  apply map_fixed. apply Forall_forall. intros t Ht.
  apply Yield_String_parseYield, solid_last.
  apply filter_In in Ht as [Hin Hne]. apply in_map_iff in Hin as (r & <- & _).
  destruct (TrimSpace_solid_or_empty r) as [E|H]; [|exact H].
  rewrite E in Hne. discriminate.
Qed.

Lemma same_fields_step : forall j r c,
  same_fields j r -> same_fields (Renderer.json_step j c) (extract_step r c).
Proof.
  intros j r c (H1 & H2 & H3 & H4 & H5). unfold same_fields.
  destruct c; cbn; repeat split; try assumption; try reflexivity.
  - unfold extractTags, Renderer.comma_fields. now rewrite H3.
  - now rewrite map_app, String_of_fields, H4.
Qed.

(** X23.  The JSON renderer and [ExtractRecipe] read the same title,
    description, tags and instructions from every recipe tree, and the
    yields of the one are the strings of the yields of the other. *)
Theorem JSON_agrees_with_ExtractRecipe : forall recipe,
  same_fields (Renderer.JSON recipe) (ExtractRecipe recipe).
Proof.
  intros recipe. unfold Renderer.JSON, ExtractRecipe.
  assert (H : same_fields (Renderer.mkJsonRecipe [] [] [] [] [] [] [])
                          (mkRecipe [] [] [] [] [] []))
    by (repeat split).
  revert H. generalize (Renderer.mkJsonRecipe [] [] [] [] [] [] []).
  generalize (mkRecipe [] [] [] [] [] []).
  induction recipe as [|c recipe IH]; intros r j H; cbn [fold_left]; [exact H|].
  apply IH. now apply same_fields_step.
Qed.

End RecipeFacts.

(* ================================================================== *)
(** ** What the two packages read from the same text *)

Module ReadingFacts.
Import Recipemd CommaSplit CommaFacts GroupingFacts ParserFacts.

Lemma splitTags_loop_plain : forall rest prev cur tags,
  Extension.plain_commas prev rest = true ->
  Extension.splitTags_loop prev rest cur tags
  = tags ++ kept (Split_from cur rest comma).
Proof.
  induction rest as [|r rest IH]; intros prev cur tags H;
    cbn [Extension.splitTags_loop Split_from].
  - apply flush_kept.
  - cbn [Extension.plain_commas] in H. apply andb_prop in H as [H1 H2].
    destruct (r =? comma).
    + apply negb_true_iff in H1. rewrite H1.
      rewrite IH by exact H2. rewrite flush_kept, <- app_assoc.
      now rewrite <- kept_cons.
    + now apply IH.
Qed.

(** X24.  On a line without a comma between two digits the two tag splitters
    agree: [ExtractRecipe] (and the JSON renderer), which cut at every
    comma, find the tags that [splitTags] of the extension finds. *)
Theorem extractTags_agrees_with_splitTags : forall text,
  Extension.plain_commas None text = true ->
  extractTags text = Extension.splitTags text.
Proof.
  intros text H. unfold Extension.splitTags.
  rewrite splitTags_loop_plain by exact H. reflexivity.
Qed.

Lemma extractTags_agrees_with_splitTags_witness :
  extractTags (str "vegan, 30 min, 1,cheap")
  = Extension.splitTags (str "vegan, 30 min, 1,cheap").
Proof.
  exact (extractTags_agrees_with_splitTags (str "vegan, 30 min, 1,cheap") eq_refl).
Defined.

(** *** The title *)

Lemma Title_placed_after : forall post seen descs r,
  Forall (fun n => isLevel1Heading n = false) post ->
  Title (fold_left extract_step (Parser.placed seen descs post) r) = Title r.
Proof.
  induction post as [|n post IH]; intros seen descs r H; [reflexivity|].
  inversion H as [|? ? Hn Hp]; subst. destruct n as [k c].
  unfold isLevel1Heading in Hn. cbn [node_kind] in Hn.
  cbn [Parser.placed node_kind].
  destruct k; try (now apply IH).
  - rewrite Hn. now apply IH.
  - destruct (Parser.isAllEmphasis _); [cbn [fold_left]; now rewrite IH|].
    destruct (Parser.isAllStrong _); [cbn [fold_left]; now rewrite IH|].
    destruct seen; [now apply IH|]. cbn [fold_left]. now rewrite IH.
Qed.

Lemma Title_placed : forall pre h post seen descs r,
  isLevel1Heading h = true ->
  Forall (fun n => isLevel1Heading n = false) post ->
  Title (fold_left extract_step (Parser.placed seen descs (pre ++ h :: post)) r)
  = Renderer.extractText h.
Proof.
  induction pre as [|n pre IH]; intros h post seen descs r Hh Hp.
  - destruct h as [k c]. unfold isLevel1Heading in Hh. cbn [node_kind] in Hh.
    destruct k; try discriminate.
    cbn [app Parser.placed node_kind]. rewrite Hh. cbn [fold_left].
    now rewrite Title_placed_after.
  - destruct n as [k c]. cbn [app Parser.placed node_kind].
    destruct k; try (now apply IH).
    + destruct (level =? 1); [cbn [fold_left]|]; now apply IH.
    + destruct (Parser.isAllEmphasis _); [cbn [fold_left]; now apply IH|].
      destruct (Parser.isAllStrong _); [cbn [fold_left]; now apply IH|].
      destruct seen; [now apply IH|]. cbn [fold_left]. now apply IH.
Qed.

Lemma Title_assemble : forall meta ingr instr,
  Title (ExtractRecipe (Parser.assemble meta ingr instr))
  = Title (ExtractRecipe (Parser.processMetadata [] meta)).
Proof.
  intros meta ingr instr. unfold Parser.assemble, ExtractRecipe.
  destruct ingr, instr;
    unfold Parser.processInstructions, Parser.processIngredients;
    rewrite ?fold_left_app; reflexivity.
Qed.

(** X19.  In the recipe transformer every level-1 heading of the metadata
    becomes a title node and [ExtractRecipe] keeps the last: the title of a
    document is the text of the last level-1 heading before the first
    thematic break. *)
Theorem last_level1_heading_is_the_title : forall pre h post rest,
  Forall Parser.nonbreak (pre ++ h :: post) ->
  isLevel1Heading h = true ->
  Forall (fun n => isLevel1Heading n = false) post ->
  match rest with [] => True | b :: _ => isThematicBreak b = true end ->
  Title (ExtractRecipe (Parser.Transform ((pre ++ h :: post) ++ rest)))
  = Renderer.extractText h.
Proof.
  intros pre h post rest Hm Hh Hp Hr.
  assert (E : Title (ExtractRecipe (Parser.processMetadata [] (pre ++ h :: post)))
              = Renderer.extractText h).
  { rewrite processMetadata_gathers. cbn [app]. unfold ExtractRecipe.
    now apply Title_placed. }
  destruct rest as [|b rest].
  - rewrite app_nil_r, Transform_none by exact Hm. exact E.
  - destruct (split_or_none rest) as [H | (ingr & b2 & instr & -> & Hb2 & Hi)].
    + rewrite Transform_one by assumption. now rewrite Title_assemble.
    + rewrite Transform_two by assumption. now rewrite Title_assemble.
Qed.

Lemma last_level1_heading_is_the_title_witness :
  Title (ExtractRecipe
           (Parser.Transform
              (([gast.Heading 1 [Examples.T "Soup"]] ++ gast.Heading 1 [Examples.T "Stew"]
                :: [gast.Paragraph [Examples.T "Warm."]])
               ++ [gast.ThematicBreak; gast.Heading 1 [Examples.T "Broth"]])))
  = str "Stew".
Proof.
  assert (Hm : Forall Parser.nonbreak
                 ([gast.Heading 1 [Examples.T "Soup"]] ++ gast.Heading 1 [Examples.T "Stew"]
                  :: [gast.Paragraph [Examples.T "Warm."]]))
    by (repeat constructor).
  assert (Hp : Forall (fun n => isLevel1Heading n = false)
                 [gast.Paragraph [Examples.T "Warm."]])
    by (repeat constructor).
  exact (last_level1_heading_is_the_title
           [gast.Heading 1 [Examples.T "Soup"]] (gast.Heading 1 [Examples.T "Stew"])
           [gast.Paragraph [Examples.T "Warm."]]
           [gast.ThematicBreak; gast.Heading 1 [Examples.T "Broth"]]
           Hm eq_refl Hp eq_refl).
Defined.

End ReadingFacts.

(* ================================================================== *)
(** ** The HTML renderer *)

Module HTMLFacts.
Import Parser HTMLRenderer.

Lemma occurrences_app : forall r a b,
  occurrences r (a ++ b) = (occurrences r a + occurrences r b)%nat.
Proof. intros. apply count_occ_app. Qed.

Lemma escape_rune_clean : forall m r, markup m -> occurrences m (escape_rune r) = 0%nat.
Proof.
  intros m r Hm. unfold escape_rune.
  repeat match goal with
         | |- context [if ?x =? ?k then _ else _] =>
             destruct (Z.eqb_spec x k)
         end;
    try (destruct Hm as [-> | [-> | [-> | ->]]]; reflexivity).
  unfold occurrences. cbn [count_occ].
  destruct (Z.eq_dec r m) as [E|E]; [|reflexivity].
  exfalso. unfold markup in Hm. lia.
Qed.

Lemma EscapeString_clean : forall m s, markup m -> occurrences m (EscapeString s) = 0%nat.
Proof.
  intros m s Hm. induction s as [|r s IH]; [reflexivity|].
  unfold EscapeString in *. cbn [flat_map].
  now rewrite occurrences_app, IH, escape_rune_clean.
Qed.
Lemma fields_loop_occurrences : forall m sep span k fields i,
  occurrences m sep = 0%nat -> (forall t, occurrences m (span t) = k) ->
  occurrences m (fields_loop sep span i fields)
  = (k * List.length (written fields))%nat.
Proof.
  intros m sep span k fields i Hs Hk. revert i.
  induction fields as [|f fields IH]; intros i; cbn [fields_loop written map filter].
  - cbn. lia.
  - cbv zeta. rewrite occurrences_app, IH. fold (written fields).
    destruct (is_empty (TrimSpace f)); cbn [negb List.length].
    + cbn. lia.
    + rewrite occurrences_app, Hk.
      destruct (0 <? i)%nat; [rewrite Hs|cbn]; lia.
Qed.

Ltac count_fixed :=
  repeat match goal with
         | |- context [occurrences ?r (str ?s)] =>
             let v := eval vm_compute in (occurrences r (str s)) in
             change (occurrences r (str s)) with v
         | |- context [occurrences ?r (quoted ?s)] =>
             let v := eval vm_compute in (occurrences r (quoted s)) in
             change (occurrences r (quoted s)) with v
         | |- context [occurrences ?r [?x]] =>
             let v := eval vm_compute in (occurrences r [x]) in
             change (occurrences r [x]) with v
         end.

Ltac count_brackets :=
  unfold angle_brackets;
  repeat (rewrite ?occurrences_app, ?EscapeString_clean
            by (unfold markup; auto));
  try reflexivity.

Lemma tag_span_brackets : forall config t,
  occurrences 60 (tag_span config t) = 2%nat
  /\ occurrences 62 (tag_span config t) = 2%nat.
Proof.
  intros [[|]] t; unfold tag_span; cbn [SchemaOrg]; split; count_brackets.
Qed.

Lemma yield_span_brackets : forall config t,
  occurrences 60 (yield_span config t) = 2%nat
  /\ occurrences 62 (yield_span config t) = 2%nat.
Proof.
  intros [[|]] t; unfold yield_span; cbn [SchemaOrg]; split; count_brackets.
Qed.

(** X25.  The HTML renderer writes its own tags only: whatever the title, the
    tags, the yields, the names and the amounts hold, the text written for a
    node has the angle brackets of its fixed tags and no other. *)
Theorem html_text_opens_no_tag : forall config,
  (forall heading, angle_brackets (renderTitle config heading) = (2, 2)%nat)
  /\ (forall ing,
        angle_brackets (renderIngredient config ing)
        = if is_empty (Amount ing) then (2, 2)%nat else (4, 4)%nat)
  /\ (forall name, angle_brackets (renderIngredientGroup name) = (4, 4)%nat)
  /\ (forall para,
        let n := List.length (Renderer.comma_fields (Renderer.wrapperText para)) in
        angle_brackets (renderTags config para) = (2 + 2 * n, 2 + 2 * n)%nat
        /\ angle_brackets (renderYields config para) = (2 + 2 * n, 2 + 2 * n)%nat).
Proof.
  intros config. split; [|split; [|split]].
  - intros heading. unfold renderTitle. destruct (SchemaOrg config); count_brackets.
  - intros ing. unfold renderIngredient.
    destruct (SchemaOrg config); destruct (is_empty (Amount ing)); count_brackets.
  - intros name. unfold renderIngredientGroup. count_brackets.
  - intros para n. unfold renderTags, renderYields, angle_brackets.
    rewrite !occurrences_app.
    rewrite (fields_loop_occurrences 60 (str " ") (tag_span config) 2);
      [|reflexivity|apply tag_span_brackets].
    rewrite (fields_loop_occurrences 62 (str " ") (tag_span config) 2);
      [|reflexivity|apply tag_span_brackets].
    rewrite (fields_loop_occurrences 60 (str ", ") (yield_span config) 2);
      [|reflexivity|apply yield_span_brackets].
    rewrite (fields_loop_occurrences 62 (str ", ") (yield_span config) 2);
      [|reflexivity|apply yield_span_brackets].
    change (List.length (written (Split (Renderer.wrapperText para) comma))) with n.
    count_fixed. split; f_equal; lia.
Qed.

(** *** Separators *)

Lemma fields_loop_later : forall sep span fields i,
  (0 < i)%nat ->
  fields_loop sep span i fields = separated sep span (written fields).
Proof.
  intros sep span fields. induction fields as [|f fields IH]; intros i Hi;
    cbn [fields_loop written map filter]; [reflexivity|].
  cbv zeta. rewrite IH by lia. fold (written fields).
  destruct (is_empty (TrimSpace f)); cbn [negb]; [reflexivity|].
  replace (0 <? i)%nat with true by (symmetry; apply Nat.ltb_lt; exact Hi).
  unfold separated. cbn [flat_map]. now rewrite <- app_assoc.
Qed.

Lemma Join_separated : forall sep span t ts,
  Join (map span (t :: ts)) sep = span t ++ separated sep span ts.
Proof.
  intros sep span t ts. revert t. induction ts as [|t2 ts IH]; intros t.
  - cbn. now rewrite app_nil_r.
  - change (Join (map span (t :: t2 :: ts)) sep)
      with (span t ++ sep ++ Join (map span (t2 :: ts)) sep).
    rewrite IH. unfold separated. cbn [flat_map]. now rewrite <- app_assoc.
Qed.

Lemma Split_from_cons : forall s cur sep,
  exists f rest, Split_from cur s sep = f :: rest.
Proof.
  induction s as [|r s IH]; intros cur sep; cbn [Split_from]; [eauto|].
  destruct (r =? sep); eauto.
Qed.

(** X26.  Between the tags the HTML renderer writes one separator.  The test
    [i > 0] looks at the index of the field, not at what has been written:
    when the line begins with a comma, so that its first field is empty, a
    separator also stands before the first tag. *)
Theorem renderTags_separators : forall config para,
  let text := Renderer.wrapperText para in
  let spans := map (tag_span config) (Renderer.comma_fields text) in
  renderTags config para
  = str "<div class=" ++ quoted "tags" ++ str ">"
    ++ (if is_empty (TrimSpace (hd [] (Split text comma)))
        then flat_map (fun s => str " " ++ s) spans
        else Join spans (str " "))
    ++ str "</div>" ++ [10].
Proof.
  intros config para text spans. unfold renderTags. fold text.
  do 3 f_equal. unfold spans, Renderer.comma_fields.
  destruct (Split_from_cons text [] comma) as (f & rest & E).
  unfold Split. rewrite E. cbn [hd fields_loop map filter]. cbv zeta.
  rewrite fields_loop_later by lia. fold (written rest).
  assert (F : forall l, flat_map (fun s => str " " ++ s) (map (tag_span config) l)
                        = separated (str " ") (tag_span config) l).
  { intros l. unfold separated. now rewrite flat_map_concat_map, map_map,
                                  <- flat_map_concat_map. }
  destruct (is_empty (TrimSpace f)); cbn [negb app].
  - now rewrite F.
  - now rewrite Join_separated.
Qed.

End HTMLFacts.

(* ================================================================== *)
(** ** The extension parser: what the groups hold *)

Module ExportFacts.
Import Extension ExtensionFacts TransformFacts.

(** *** Lists *)

Lemma flat_map_update_same : forall {B} (F : IngredientGroup -> list B) h p f,
  (forall g, F (f g) = F g) -> flat_map F (update h p f) = flat_map F h.
Proof.
  intros B F h p f H. revert p. induction h as [|g h IH]; intros [|p]; cbn;
    rewrite ?H, ?IH; reflexivity.
Qed.

Lemma flat_map_update_added : forall {B} (F : IngredientGroup -> list B) h p f x,
  (p < List.length h)%nat -> (forall g, F (f g) = F g ++ x) ->
  Permutation (flat_map F (update h p f)) (flat_map F h ++ x).
Proof.
  intros B F h p f x Hp H. revert p Hp.
  induction h as [|g h IH]; intros [|p] Hp; cbn in *; try lia.
  - rewrite H, <- !app_assoc. apply Permutation_app_head, Permutation_app_comm.
  - rewrite <- app_assoc. apply Permutation_app_head, IH. lia.
Qed.

Lemma flat_map_split : forall {A B} (f g : A -> list B) l,
  Permutation (flat_map (fun x => f x ++ g x) l) (flat_map f l ++ flat_map g l).
Proof.
  intros A B f g l. induction l as [|x l IH]; cbn [flat_map]; [constructor|].
  rewrite <- !app_assoc. apply Permutation_app_head.
  rewrite IH. apply Permutation_app_swap_app.
Qed.

Lemma flat_map_ext_in : forall {A B} (f g : A -> list B) l,
  (forall x, In x l -> f x = g x) -> flat_map f l = flat_map g l.
Proof.
  intros A B f g l H. induction l as [|x l IH]; [reflexivity|].
  cbn [flat_map]. rewrite H by now left. rewrite IH; [reflexivity|].
  intros y Hy. apply H. now right.
Qed.

Lemma map_deref_seq : forall h,
  map (deref h) (seq 0 (List.length h)) = h.
Proof.
  induction h as [|g h IH]; [reflexivity|].
  cbn [List.length seq map]. unfold deref at 1. cbn [nth]. f_equal.
  rewrite <- seq_shift, map_map. exact IH.
Qed.

(** *** Every cell is reached once *)

Lemma child_ptrs_ingredient : forall g i,
  child_ptrs (mkIngredientGroup (Title g) (Level g)
                (group_children g ++ [ChildIngredient i]))
  = child_ptrs g.
Proof.
  intros g i. unfold child_ptrs. cbn [group_children].
  rewrite flat_map_app. cbn. now rewrite app_nil_r.
Qed.

Lemma own_ingredient : forall g i,
  own_ingredients (mkIngredientGroup (Title g) (Level g)
                     (group_children g ++ [ChildIngredient i]))
  = own_ingredients g ++ [i].
Proof.
  intros g i. unfold own_ingredients. cbn [group_children].
  rewrite flat_map_app. reflexivity.
Qed.

Lemma child_ptrs_group : forall g q,
  child_ptrs (mkIngredientGroup (Title g) (Level g)
                (group_children g ++ [ChildGroup q]))
  = child_ptrs g ++ [q].
Proof.
  intros g q. unfold child_ptrs. cbn [group_children].
  rewrite flat_map_app. reflexivity.
Qed.

Lemma own_group : forall g q,
  own_ingredients (mkIngredientGroup (Title g) (Level g)
                     (group_children g ++ [ChildGroup q]))
  = own_ingredients g.
Proof.
  intros g q. unfold own_ingredients. cbn [group_children].
  rewrite flat_map_app. cbn. now rewrite app_nil_r.
Qed.

(** Appending ingredients to the group [cur]. *)
Lemma append_ingredients : forall ings h cur,
  (cur < List.length h)%nat ->
  let h' := fold_left (fun h ing => AppendChild h cur (ChildIngredient ing)) ings h in
  List.length h' = List.length h
  /\ flat_map child_ptrs h' = flat_map child_ptrs h
  /\ Permutation (flat_map own_ingredients h') (flat_map own_ingredients h ++ ings).
Proof.
  induction ings as [|i ings IH]; intros h cur Hc; cbn [fold_left].
  - cbn. rewrite app_nil_r. auto.
  - destruct (IH (AppendChild h cur (ChildIngredient i)) cur) as (L & C & O).
    + unfold AppendChild. now rewrite update_length.
    + cbv zeta. rewrite L, C. unfold AppendChild at 1 2. rewrite update_length.
      split; [reflexivity|]. split.
      * apply flat_map_update_same. intros g. apply child_ptrs_ingredient.
      * rewrite O. change (i :: ings) with ([i] ++ ings). rewrite app_assoc.
        apply Permutation_app_tail. unfold AppendChild.
        apply flat_map_update_added; [exact Hc|]. intros g. apply own_ingredient.
Qed.

Lemma addIngredientGroup_loop_forest : forall stack h n top,
  Forall (fun p => (p < List.length h)%nat) stack ->
  let '(h', _, top') := addIngredientGroup_loop h n stack top in
  List.length h' = List.length h
  /\ Permutation (top' ++ flat_map child_ptrs h')
                 ((top ++ flat_map child_ptrs h) ++ [n])
  /\ flat_map own_ingredients h' = flat_map own_ingredients h.
Proof.
  induction stack as [|parent below IH]; intros h n top Hs;
    cbn [addIngredientGroup_loop].
  - split; [reflexivity|]. split; [|reflexivity].
    rewrite <- !app_assoc. apply Permutation_app_head, Permutation_app_comm.
  - inversion Hs as [|? ? Hp Hb]; subst. destruct (_ >? _).
    + unfold AppendChild. rewrite update_length. split; [reflexivity|]. split.
      * rewrite <- app_assoc. apply Permutation_app_head.
        apply flat_map_update_added; [exact Hp|]. intros g. apply child_ptrs_group.
      * apply flat_map_update_same. intros g. apply own_group.
    + now apply IH.
Qed.

(** What a new group does to the heap. *)
Lemma addIngredientGroup_forest : forall st title level,
  pointers_ok st -> forest st ->
  let st' := addIngredientGroup st (List.length (heap st))
               (heap st ++ [mkIngredientGroup title level []]) in
  forest st'
  /\ flat_map own_ingredients (heap st') = flat_map own_ingredients (heap st).
Proof.
  intros st t l (Hs & _ & _) F. unfold addIngredientGroup.
  pose proof (addIngredientGroup_loop_forest
                (ingredientGroupStack st)
                (heap st ++ [mkIngredientGroup t l []]) (List.length (heap st))
                (topLevelGroups st)) as L.
  destruct (addIngredientGroup_loop _ _ _ _) as [[h' s'] t']. cbv zeta.
  unfold forest. cbn [heap topLevelGroups].
  destruct L as (L1 & L2 & L3).
  { eapply Forall_impl; [|exact Hs]. cbv beta. intros p Hp.
    rewrite length_app. cbn. lia. }
  rewrite L1, L3, length_app. cbn [List.length].
  rewrite !flat_map_app in *. cbn [flat_map] in *.
  unfold child_ptrs at 2 in L2. unfold own_ingredients at 2.
  cbn [group_children flat_map] in *. rewrite !app_nil_r in *.
  split; [|reflexivity].
  rewrite L2. rewrite Nat.add_1_r, seq_S. cbn [Nat.add].
  now apply Permutation_app_tail.
Qed.

Lemma add_ingredients_forest : forall st ings,
  pointers_ok st -> forest st -> forest (add_ingredients st ings).
Proof.
  intros st ings (Hs & _ & _) F. unfold add_ingredients, forest in *.
  destruct (ingredientGroupStack st) as [|cur below] eqn:E; cbn; [exact F|].
  inversion Hs as [|? ? Hc _]; subst.
  destruct (append_ingredients ings (heap st) cur Hc) as (L & C & _).
  now rewrite L, C.
Qed.

Lemma step_forest : forall st n,
  pointers_ok st -> forest st -> forest (step st n).
Proof.
  intros st [k cs] H F.
  pose proof (fun t l => proj1 (addIngredientGroup_forest st t l H F)) as G.
  pose proof (fun ings => add_ingredients_forest st ings H F) as A.
  destruct k; unfold step, NewIngredientGroup; cbn [node_kind];
    repeat match goal with
           | |- context [if ?c then _ else _] => destruct c
           end;
    first [exact F | apply G | apply A].
Qed.

Lemma run_forest : forall doc, forest (run doc).
Proof.
  intros doc. unfold run.
  assert (I : pointers_ok init /\ forest init).
  { split; [exact (run_ok [])|]. unfold forest, init. cbn. constructor. }
  revert I. generalize init.
  induction doc as [|n doc IH]; intros st [I F]; cbn [fold_left]; [exact F|].
  apply IH. split; [now apply step_ok | now apply step_forest].
Qed.

(** *** The export reaches every cell once *)

Lemma buildIngredientGroup_S : forall fuel h p,
  buildIngredientGroup (S fuel) h p
  = mkGroupData (Title (deref h p)) (own_ingredients (deref h p))
                (map (buildIngredientGroup fuel h) (child_ptrs (deref h p))).
Proof.
  intros fuel h p. cbn [buildIngredientGroup].
  fold (own_ingredients (deref h p)). f_equal. unfold child_ptrs.
  induction (group_children (deref h p)) as [|c cs IH]; [reflexivity|].
  cbn [flat_map]. rewrite map_app, IH. now destruct c.
Qed.

Lemma buildIngredientGroup_unfold : forall h p,
  heap_ordered h -> (p < List.length h)%nat ->
  buildIngredientGroup (List.length h) h p
  = mkGroupData (Title (deref h p)) (own_ingredients (deref h p))
                (map (buildIngredientGroup (List.length h) h)
                     (child_ptrs (deref h p))).
Proof.
  intros h p Ho Hp.
  rewrite <- (buildIngredientGroup_fuel h Ho (S (List.length h)) (List.length h) p)
    by lia.
  rewrite buildIngredientGroup_S. reflexivity.
Qed.

Lemma all_of_unfold : forall h p,
  heap_ordered h -> (p < List.length h)%nat ->
  all_of h p
  = own_ingredients (deref h p) ++ flat_map (all_of h) (child_ptrs (deref h p)).
Proof.
  intros h p Ho Hp. unfold all_of at 1.
  rewrite buildIngredientGroup_unfold by assumption. cbn [gd_all]. f_equal.
  rewrite flat_map_concat_map, map_map, <- flat_map_concat_map. reflexivity.
Qed.

Lemma export_reaches_every_cell : forall h roots,
  heap_ordered h ->
  Permutation (roots ++ flat_map child_ptrs h) (seq 0 (List.length h)) ->
  Permutation (flat_map (all_of h) roots) (flat_map own_ingredients h).
Proof.
  intros h roots Ho F.
  apply Permutation_app_inv_r with (l := flat_map (all_of h) (flat_map child_ptrs h)).
  rewrite <- flat_map_app.
  rewrite (Permutation_flat_map (all_of h) F).
  rewrite (flat_map_ext_in (all_of h)
             (fun p => own_ingredients (deref h p)
                       ++ flat_map (all_of h) (child_ptrs (deref h p))))
    by (intros p Hp; apply in_seq in Hp; apply all_of_unfold; [exact Ho | lia]).
  rewrite flat_map_split. apply Permutation_app.
  - rewrite <- (map_deref_seq h) at 2.
    rewrite flat_map_concat_map, (flat_map_concat_map own_ingredients), map_map.
    reflexivity.
  - rewrite <- (map_deref_seq h) at 3.
    rewrite (flat_map_concat_map child_ptrs), map_map, <- flat_map_concat_map.
    clear. induction (seq 0 (List.length h)) as [|p l IH]; [constructor|].
    cbn [flat_map]. rewrite flat_map_app. now apply Permutation_app_head.
Qed.

(** *** The ingredients on the heap *)

Lemma addIngredientGroup_own : forall st title level,
  pointers_ok st ->
  let st' := addIngredientGroup st (List.length (heap st))
               (heap st ++ [mkIngredientGroup title level []]) in
  flat_map own_ingredients (heap st') = flat_map own_ingredients (heap st)
  /\ opened st' = true.
Proof.
  intros st t l (Hs & _ & _). unfold addIngredientGroup, opened.
  pose proof (addIngredientGroup_loop_forest
                (ingredientGroupStack st)
                (heap st ++ [mkIngredientGroup t l []]) (List.length (heap st))
                (topLevelGroups st)) as L.
  pose proof (addIngredientGroup_loop_stack
                (heap st ++ [mkIngredientGroup t l []]) (List.length (heap st))
                (ingredientGroupStack st) (topLevelGroups st)) as N.
  destruct (addIngredientGroup_loop _ _ _ _) as [[h' s'] t']. cbv zeta.
  cbn [heap ingredientGroupStack fst snd] in *.
  destruct L as (_ & _ & L3).
  { eapply Forall_impl; [|exact Hs]. cbv beta. intros p Hp.
    rewrite length_app. cbn. lia. }
  split; [|destruct s'; [congruence|reflexivity]].
  rewrite L3, flat_map_app. cbn. now rewrite app_nil_r.
Qed.

Lemma add_ingredients_own : forall st ings,
  pointers_ok st ->
  Permutation (flat_map own_ingredients (heap (add_ingredients st ings)))
              (flat_map own_ingredients (heap st)
               ++ if opened st then ings else [])
  /\ opened (add_ingredients st ings) = opened st.
Proof.
  intros st ings (Hs & _ & _). unfold add_ingredients, opened.
  destruct (ingredientGroupStack st) as [|cur below] eqn:E;
    cbn [heap ingredientGroupStack].
  - rewrite app_nil_r. auto.
  - inversion Hs as [|? ? Hc _]; subst.
    destruct (append_ingredients ings (heap st) cur Hc) as (_ & _ & O). auto.
Qed.

Lemma step_heading_section : forall st level cs,
  title st <> [] -> firstDividerFound st = true -> secondDividerFound st = false ->
  step st (mkNode (KHeading level) cs)
  = addIngredientGroup st (List.length (heap st))
      (heap st ++ [mkIngredientGroup (extractText (mkNode (KHeading level) cs)) level []]).
Proof.
  intros st level cs Ht H1 H2. unfold step. cbn [node_kind].
  destruct (title st); [congruence|]. cbn [is_empty]. rewrite andb_false_r, H1, H2.
  reflexivity.
Qed.

Lemma step_list_section : forall st cs,
  firstDividerFound st = true -> secondDividerFound st = false ->
  step st (mkNode KList cs) = add_ingredients st (parseIngredients (mkNode KList cs)).
Proof.
  intros st cs H1 H2. unfold step. cbn [node_kind]. now rewrite H1, H2.
Qed.

Lemma fold_ingredient_section : forall ingr st,
  title st <> [] -> firstDividerFound st = true -> secondDividerFound st = false ->
  Forall nonbreak ingr -> pointers_ok st ->
  Permutation (flat_map own_ingredients (heap (fold_left step ingr st)))
              (flat_map own_ingredients (heap st) ++ grouped (opened st) ingr).
Proof.
  induction ingr as [|n ingr IH]; intros st Ht H1 H2 Hi Hp; cbn [fold_left grouped].
  - now rewrite app_nil_r.
  - inversion Hi as [|? ? Hn Hr]; subst.
    destruct (step_dividers st n Hn) as [E1 E2].
    assert (P : Permutation
                  (flat_map own_ingredients (heap (fold_left step ingr (step st n))))
                  (flat_map own_ingredients (heap (step st n))
                   ++ grouped (opened (step st n)) ingr)).
    { apply IH; [rewrite step_title_kept; assumption | congruence | congruence
                 | assumption | now apply step_ok]. }
    rewrite P. clear P IH.
    destruct n as [k cs]. unfold nonbreak, isThematicBreak in Hn.
    cbn [node_kind] in *.
    destruct k; try discriminate;
      try (rewrite step_ingredient_section_other by auto; reflexivity).
    + rewrite step_heading_section by assumption.
      destruct (addIngredientGroup_own st
                  (extractText (mkNode (KHeading level) cs)) level Hp) as [-> ->].
      reflexivity.
    + rewrite step_list_section by assumption.
      destruct (add_ingredients_own st (parseIngredients (mkNode KList cs)) Hp)
        as [-> ->].
      rewrite <- app_assoc. reflexivity.
Qed.

(** Outside the ingredient section the groups are not touched. *)
Lemma step_keeps_groups : forall st n,
  firstDividerFound st = false \/ secondDividerFound st = true ->
  heap (step st n) = heap st
  /\ topLevelGroups (step st n) = topLevelGroups st
  /\ ingredientGroupStack (step st n) = ingredientGroupStack st.
Proof.
  intros st [k cs] H.
  destruct k; step_cases; try (cbn; auto; fail);
    destruct H as [H|H]; rewrite H in *; cbn in *; rewrite ?andb_false_r in *;
    discriminate.
Qed.

Lemma fold_keeps_groups_before : forall l st,
  Forall nonbreak l -> firstDividerFound st = false ->
  heap (fold_left step l st) = heap st
  /\ topLevelGroups (fold_left step l st) = topLevelGroups st
  /\ ingredientGroupStack (fold_left step l st) = ingredientGroupStack st.
Proof.
  induction l as [|n l IH]; intros st Hl H; cbn [fold_left]; [auto|].
  inversion Hl as [|? ? Hn Hr]; subst.
  destruct (step_dividers st n Hn) as [E1 _].
  destruct (IH (step st n) Hr) as (-> & -> & ->); [congruence|].
  apply step_keeps_groups. auto.
Qed.

Lemma fold_keeps_groups_after : forall l st,
  secondDividerFound st = true ->
  heap (fold_left step l st) = heap st
  /\ topLevelGroups (fold_left step l st) = topLevelGroups st.
Proof.
  induction l as [|n l IH]; intros st H; cbn [fold_left]; [auto|].
  destruct (IH (step st n)) as (-> & ->); [now apply step_second_divider|].
  destruct (step_keeps_groups st n) as (E1 & E2 & _); auto.
Qed.

Lemma step_break_keeps_groups : forall st b,
  isThematicBreak b = true ->
  heap (step st b) = heap st /\ topLevelGroups (step st b) = topLevelGroups st
  /\ ingredientGroupStack (step st b) = ingredientGroupStack st
  /\ title (step st b) = title st.
Proof.
  intros st [k cs] Hb. unfold isThematicBreak in Hb. cbn [node_kind] in Hb.
  destruct k; try discriminate. step_cases; cbn; auto.
Qed.

Lemma data_groups_fold : forall h ps data,
  data_IngredientGroups (fold_left (data_step h) (map IngredientGroupNode ps) data)
  = data_IngredientGroups data ++ map (buildIngredientGroup (List.length h) h) ps.
Proof.
  intros h ps. induction ps as [|p ps IH]; intros data; cbn [map fold_left].
  - now rewrite app_nil_r.
  - rewrite IH. cbn [data_step data_IngredientGroups]. now rewrite <- app_assoc.
Qed.

Lemma exported_groups : forall st,
  data_IngredientGroups (buildRecipeData (build st))
  = map (buildIngredientGroup (List.length (heap st)) (heap st)) (topLevelGroups st).
Proof.
  intros st. unfold buildRecipeData, build.
  cbn [recipe_children recipe_heap app fold_left].
  rewrite !fold_left_app.
  assert (E : forall c d,
             data_IngredientGroups
               (fold_left (data_step (heap st))
                          (match c with Some (i :: l) => [IngredientList (i :: l)]
                                   | _ => [] end) d)
             = data_IngredientGroups d)
    by (intros [[|i l]|] d; reflexivity).
  destruct (instructionParts st); cbn [fold_left data_step data_IngredientGroups];
    rewrite data_groups_fold, E; reflexivity.
Qed.

(** X12.  Once a heading has opened a group no ingredient is lost or
    repeated: in a titled document the groups that are exported hold, all
    together, the ingredients of the lists that follow the first heading of
    the ingredient section, each as often as it was parsed. *)
Theorem grouped_ingredients_are_exported_once : forall meta b ingr rest,
  existsb titled meta = true -> Forall nonbreak meta ->
  isThematicBreak b = true -> Forall nonbreak ingr ->
  match rest with [] => True | b2 :: _ => isThematicBreak b2 = true end ->
  Permutation
    (flat_map gd_all
       (data_IngredientGroups
          (buildRecipeData (Transform (meta ++ b :: ingr ++ rest)))))
    (grouped false ingr).
Proof.
  intros meta b ingr rest Ht Hm Hb Hi Hr. unfold Transform.
  rewrite exported_groups.
  set (doc := meta ++ b :: ingr ++ rest).
  destruct (run_ok doc) as (_ & _ & Ho). pose proof (run_forest doc) as F.
  rewrite flat_map_concat_map, map_map, <- flat_map_concat_map.
  fold (all_of (heap (run doc))).
  rewrite (export_reaches_every_cell _ _ Ho F).
  (* the heap is the one the ingredient section leaves *)
  assert (T : title (run meta) <> []) by (apply titled_sets_title; exact Ht).
  destruct (fold_dividers meta init Hm) as [F1 F2]. fold (run meta) in F1, F2.
  cbn in F1, F2.
  destruct (fold_keeps_groups_before meta init Hm eq_refl) as (G1 & G2 & G3).
  fold (run meta) in G1, G2, G3. cbn in G1, G2, G3.
  destruct (step_break_keeps_groups (run meta) b Hb) as (B1 & B2 & B3 & B4).
  assert (D : firstDividerFound (step (run meta) b) = true
              /\ secondDividerFound (step (run meta) b) = false).
  { destruct b as [k cs]. unfold isThematicBreak in Hb. cbn [node_kind] in Hb.
    destruct k; try discriminate. unfold step. cbn [node_kind]. rewrite F1. cbn. auto. }
  destruct D as [D1 D2].
  set (s1 := step (run meta) b) in *.
  assert (K : Permutation
                (flat_map own_ingredients (heap (fold_left step ingr s1)))
                (grouped false ingr)).
  { rewrite fold_ingredient_section; try assumption.
    - unfold opened. rewrite B3, G3, B1, G1. reflexivity.
    - rewrite B4. exact T.
    - apply step_ok, run_ok. }
  assert (E : heap (run doc) = heap (fold_left step ingr s1)).
  { unfold doc. rewrite run_app. cbn [fold_left]. fold s1. rewrite fold_left_app.
    destruct rest as [|b2 rest]; [reflexivity|]. cbn [fold_left].
    destruct (fold_dividers ingr s1 Hi) as [I1 I2].
    destruct (step_break_second (fold_left step ingr s1) b2 Hr) as [_ J2];
      [congruence|].
    destruct (fold_keeps_groups_after rest _ J2) as [-> _].
    now destruct (step_break_keeps_groups (fold_left step ingr s1) b2 Hr) as [-> _]. }
  rewrite E. exact K.
Qed.

Lemma grouped_ingredients_are_exported_once_witness :
  Permutation
    (flat_map gd_all
       (data_IngredientGroups (buildRecipeData (Transform Examples.grouped_doc))))
    [mkIngredient (str "ingredient 1") None None;
     mkIngredient (str "ingredient 3") None None;
     mkIngredient (str "ingredient 7") None None].
Proof.
  assert (Hm : Forall nonbreak [gast.Heading 1 [Examples.T "Title"]])
    by (repeat constructor).
  assert (Hi : Forall nonbreak (skipn 2 Examples.grouped_doc))
    by (repeat constructor).
  exact (grouped_ingredients_are_exported_once
           [gast.Heading 1 [Examples.T "Title"]] gast.ThematicBreak
           (skipn 2 Examples.grouped_doc) [] eq_refl Hm eq_refl Hi I).
Defined.

End ExportFacts.

(* ================================================================== *)
(** ** [UpdateAST] *)

Module UpdateFacts.
Import Recipemd.

Section WithSource.
Variable len : gostring -> nat.
Variable Value : nat -> nat -> gostring.

Lemma update_built : forall r r' c,
  In c (BuildAST r) -> update_step len Value r' c = c.
Proof.
  intros r r' c H. unfold BuildAST in H.
  repeat (apply in_app_or in H as [H|H]).
  - destruct (is_empty (Title r)); [destruct H|]. destruct H as [<-|[]].
    reflexivity.
  - destruct (is_empty (Description r)); [destruct H|]. destruct H as [<-|[]].
    reflexivity.
  - destruct (Tags r) as [|t ts]; [destruct H|]. destruct H as [<-|[]].
    cbn [update_step]. destruct (Tags r'); reflexivity.
  - destruct (Yields r) as [|y ys]; [destruct H|]. destruct H as [<-|[]].
    cbn [update_step]. destruct (Yields r'); reflexivity.
  - destruct (Ingredients r); [destruct H|]. destruct H as [<-|[]]. reflexivity.
  - destruct (is_empty (Instructions r)); [destruct H|]. destruct H as [<-|[]].
    reflexivity.
Qed.

(** X27.  [UpdateAST] changes nothing in a tree that [BuildAST] made:
    [BuildAST] writes its texts into string nodes, and [updateTextContent]
    looks for text nodes only. *)
Theorem UpdateAST_leaves_built_trees : forall r r',
  UpdateAST len Value (BuildAST r) r' = BuildAST r.
Proof.
  intros r r'. unfold UpdateAST.
  rewrite (map_ext_in _ (fun c => c)); [apply map_id|].
  intros c Hc. now apply (update_built r).
Qed.

Lemma Title_fold_untitled : forall cs r,
  forallb (fun c => negb (isTitle c)) cs = true ->
  Title (fold_left extract_step cs r) = Title r.
Proof.
  induction cs as [|c cs IH]; intros r H; [reflexivity|].
  cbn [forallb] in H. apply andb_prop in H as [Hc H]. cbn [fold_left].
  rewrite IH by exact H. destruct c; try reflexivity. discriminate.
Qed.

Lemma update_step_untitled : forall r c,
  isTitle c = false -> isTitle (update_step len Value r c) = false.
Proof.
  intros r c H. destruct c; try discriminate; cbn [update_step];
    try reflexivity.
  - destruct (Tags r); reflexivity.
  - destruct (Yields r); reflexivity.
Qed.

(** X28.  [UpdateAST] does not write the new title.  Where the title is a
    heading that begins with a text node, the title read afterwards is what
    the source holds in its first [len(Title)] bytes, followed by the rest
    of the heading: of the new title only the length is used. *)
Theorem UpdateAST_rereads_the_source : forall old rest others r,
  forallb (fun c => negb (isTitle c)) others = true ->
  Title (ExtractRecipe
           (UpdateAST len Value
              (Parser.Title (gast.Heading 1 (gast.Text old :: rest)) :: others) r))
  = Value 0 (len (Title r)) ++ flat_map Renderer.extractText rest.
Proof.
  intros old rest others r H. unfold UpdateAST, ExtractRecipe.
  cbn [map fold_left]. rewrite Title_fold_untitled.
  - reflexivity.
  - clear old rest. induction others as [|c cs IH]; [reflexivity|].
    cbn [forallb map] in *. apply andb_prop in H as [Hc H].
    rewrite IH by exact H. rewrite andb_true_r.
    apply negb_true_iff in Hc. apply negb_true_iff.
    now apply update_step_untitled.
Qed.

End WithSource.

Lemma UpdateAST_rereads_the_source_witness :
  Title (ExtractRecipe
           (UpdateAST (@List.length rune)
              (fun start stop => firstn (stop - start) (skipn start (str "# Soup")))
              [Parser.Title (gast.Heading 1 [gast.Text (str "Soup")]);
               Parser.Description [gast.Paragraph [gast.Text (str "Warm.")]]]
              (mkRecipe (str "Stew") [] [] [] [] [])))
  = str "# So".
Proof.
  exact (UpdateAST_rereads_the_source (@List.length rune)
           (fun start stop => firstn (stop - start) (skipn start (str "# Soup")))
           (str "Soup") [] [Parser.Description [gast.Paragraph [gast.Text (str "Warm.")]]]
           (mkRecipe (str "Stew") [] [] [] [] []) eq_refl).
Defined.

End UpdateFacts.

(* ================================================================== *)
(** ** The recipe transformer: amount and name of an ingredient *)

Module ContentFacts.
Import Parser.

Lemma Join_empty_sep : forall parts, Join parts [] = List.concat parts.
Proof.
  induction parts as [|p parts IH]; [reflexivity|].
  destruct parts as [|q parts]; [cbn; now rewrite app_nil_r|].
  change (Join (p :: q :: parts) []) with (p ++ [] ++ Join (q :: parts) []).
  rewrite IH. reflexivity.
Qed.

Lemma content_leading : forall ems a,
  Forall (fun n => isItalic n = true) ems -> inAmount a = true ->
  fold_left content_step ems a
  = mkContentAcc (amountParts a ++ map extractText ems) (nameParts a) true.
Proof.
  induction ems as [|n ems IH]; intros a H Ha; cbn [fold_left map].
  - rewrite app_nil_r. destruct a; cbn in *; congruence.
  - inversion H as [|? ? Hn Hr]; subst. destruct n as [k cs].
    unfold isItalic in Hn. cbn [node_kind] in Hn. destruct k; try discriminate.
    unfold content_step at 2. cbn [node_kind]. rewrite Ha, Hn. cbn [andb].
    rewrite IH; [|assumption|reflexivity]. cbn [amountParts nameParts].
    now rewrite <- app_assoc.
Qed.

Lemma content_name : forall rest a,
  inAmount a = false ->
  fold_left content_step rest a
  = mkContentAcc (amountParts a) (nameParts a ++ map extractText rest) false.
Proof.
  induction rest as [|n rest IH]; intros a Ha; cbn [fold_left map].
  - rewrite app_nil_r. destruct a; cbn in *; congruence.
  - assert (E : content_step a n
                = mkContentAcc (amountParts a) (nameParts a ++ [extractText n]) false).
    { destruct n as [k cs]. unfold content_step. cbn [node_kind]. rewrite Ha.
      destruct k; cbn [andb]; reflexivity. }
    rewrite E, IH by reflexivity. cbn [amountParts nameParts].
    now rewrite <- app_assoc.
Qed.

(** X18.  In the recipe transformer the amount of an ingredient is the
    leading run of italic spans of its line, joined by spaces; from the
    first plain text on everything is the name, italic or not. *)
Theorem amount_ends_at_the_first_text : forall item tc ems v rest,
  textContainer (node_children item) = Some tc ->
  node_children tc = ems ++ gast.Text v :: rest ->
  Forall (fun n => isItalic n = true) ems ->
  parseIngredientContent item
  = mkIngredient (TrimSpace (Join (map extractText ems) [space]))
                 (TrimSpace (v ++ flat_map extractText rest)).
Proof.
  intros item tc ems v rest Htc Hcs Hems. unfold parseIngredientContent.
  rewrite Htc, Hcs, fold_left_app. cbn [fold_left].
  rewrite (content_leading ems); [|assumption|reflexivity].
  cbn [amountParts nameParts app].
  change (content_step (mkContentAcc (map extractText ems) [] true) (gast.Text v))
    with (mkContentAcc (map extractText ems) [v] false).
  rewrite content_name by reflexivity. cbn [amountParts nameParts app].
  rewrite Join_empty_sep, flat_map_concat_map. reflexivity.
Qed.

Lemma amount_ends_at_the_first_text_witness :
  parseIngredientContent
    (gast.ListItem
       [gast.TextBlock
          [gast.Emphasis 1 [Examples.T "2"]; gast.Emphasis 1 [Examples.T "cups"];
           gast.Text (str " flour, "); gast.Emphasis 1 [Examples.T "sifted"]]])
  = mkIngredient (str "2 cups") (str "flour, sifted").
Proof.
  assert (H : Forall (fun n => isItalic n = true)
                [gast.Emphasis 1 [Examples.T "2"]; gast.Emphasis 1 [Examples.T "cups"]])
    by (repeat constructor).
  exact (amount_ends_at_the_first_text
           (gast.ListItem
              [gast.TextBlock
                 [gast.Emphasis 1 [Examples.T "2"]; gast.Emphasis 1 [Examples.T "cups"];
                  gast.Text (str " flour, "); gast.Emphasis 1 [Examples.T "sifted"]]])
           _ [gast.Emphasis 1 [Examples.T "2"]; gast.Emphasis 1 [Examples.T "cups"]]
           (str " flour, ") [gast.Emphasis 1 [Examples.T "sifted"]]
           eq_refl eq_refl H).
Defined.

End ContentFacts.
